(** * redux-api-middleware: the RSAA pipeline of [src/middleware.js]

    A shallow embedding of [apiMiddleware] and the properties of its
    natural-language specification.

    The middleware is one [async] function.  It talks to four external
    parties: the store ([getState], [next]), the transport ([fetch]), the
    callables found inside the action (bailout, endpoint, headers, options,
    payload and meta transforms) and the cache object.  The embedding runs
    the function against an _oracle_ that answers every external call from
    the history of the calls made so far, and records each call with its
    answer in a trace.  All observable behaviour (events dispatched, network
    calls made, cache operations) is read off that trace.

    What the values leave out: numbers that are not integers, prototype
    chains and accessors (a property is an own data property; a method
    that an object inherits is called through the oracle), and promises
    as values (an awaited call is logged with the way its promise
    settles). *)

From stdpp Require Import base option list gmap strings fin_maps pretty.
From Stdlib Require Import ZArith Ascii.

Set Warnings "-register-all".

(** ** JavaScript values *)

(** Numbers are the integer-valued ones ([VNum z] is the number that the
    numeral [z] denotes).  A callable is known by its name only: what it
    does when called is the oracle's business.  Objects are finite maps
    from property names to values. *)
Inductive value : Type :=
| VUndefined
| VNull
| VBool (b : bool)
| VNum (z : Z)
| VStr (s : string)
| VSym (description : string)
| VFun (name : string)
| VArr (items : list value)
| VObj (fields : gmap string value).

(** [{ k1: v1, ..., kn: vn }] for distinct keys. *)
Definition obj (l : list (string * value)) : value := VObj (list_to_map l).

(** ToBoolean. *)
Definition truthy (v : value) : bool :=
  match v with
  | VUndefined | VNull => false
  | VBool b => b
  | VNum z => negb (Z.eqb z 0)
  | VStr s => negb (String.eqb s "")
  | VSym _ | VFun _ | VArr _ | VObj _ => true
  end.

(** The [typeof] operator. *)
Definition typeof (v : value) : string :=
  match v with
  | VUndefined => "undefined"
  | VBool _ => "boolean"
  | VNum _ => "number"
  | VStr _ => "string"
  | VSym _ => "symbol"
  | VFun _ => "function"
  | VNull | VArr _ | VObj _ => "object"
  end.

Definition is_function (v : value) : bool := String.eqb (typeof v) "function".
Definition is_boolean (v : value) : bool := String.eqb (typeof v) "boolean".

(** [Array.isArray]. *)
Definition isArray (v : value) : bool :=
  match v with VArr _ => true | _ => false end.

Definition nullish (v : value) : bool :=
  match v with VUndefined | VNull => true | _ => false end.

(** The characters of a string, each as a one-character string. *)
Fixpoint chars (s : string) : list value :=
  match s with
  | EmptyString => []
  | String c r => VStr (String c EmptyString) :: chars r
  end.

(** Array indices as property names: the decimal numerals without a
    leading zero. *)
Definition digit (c : ascii) : option nat :=
  let n := nat_of_ascii c in
  if (48 <=? n)%nat && (n <=? 57)%nat then Some (n - 48)%nat else None.

Fixpoint digits (acc : nat) (s : string) : option nat :=
  match s with
  | EmptyString => Some acc
  | String c r => d ← digit c; digits (10 * acc + d)%nat r
  end.

Definition array_index (k : string) : option nat :=
  match k with
  | EmptyString => None
  | String c r =>
      if Ascii.eqb c "0"%char && negb (String.eqb r "") then None
      else digits 0 k
  end.

(** The element stored under the property name [k] of an array-like list. *)
Definition at_index (l : list value) (k : string) : value :=
  default VUndefined (array_index k ≫= fun i => l !! i).

(** [v[k]] / [v.k] on a value that is neither [undefined] nor [null]
    (own properties only; a missing property reads as [undefined]). *)
Definition get_field (v : value) (k : string) : value :=
  match v with
  | VObj f => default VUndefined (f !! k)
  | VArr l =>
      if String.eqb k "length" then VNum (Z.of_nat (length l)) else at_index l k
  | VStr s =>
      if String.eqb k "length" then VNum (Z.of_nat (String.length s))
      else at_index (chars s) k
  | _ => VUndefined
  end.

(** The own enumerable properties an object spread [{...v}] copies. *)
Definition own_props (v : value) : gmap string value :=
  match v with
  | VObj f => f
  | VArr l => list_to_map (imap (fun i x => (pretty i, x)) l)
  | VStr s => list_to_map (imap (fun i x => (pretty i, x)) (chars s))
  | _ => ∅
  end.

(** ** ToString

    A template literal applies ToString to the value of its expression.
    For a value that is no object this is a function of the value; an
    object is first converted to a primitive by calling its methods (see
    [to_primitive] below). *)

(** The values that are no objects. *)
Inductive primitive : Type :=
| PUndefined
| PNull
| PBool (b : bool)
| PNum (z : Z)
| PStr (s : string)
| PSym (description : string).

Definition as_primitive (v : value) : option primitive :=
  match v with
  | VUndefined => Some PUndefined
  | VNull => Some PNull
  | VBool b => Some (PBool b)
  | VNum z => Some (PNum z)
  | VStr s => Some (PStr s)
  | VSym d => Some (PSym d)
  | VFun _ | VArr _ | VObj _ => None
  end.

(** The number a natural number [m] is as a JavaScript value: [m] rounded
    to 53 significant bits, to nearest, ties to even. *)
Definition to_double (m : Z) : Z :=
  let e := (Z.log2 m - 52)%Z in
  if (e <=? 0)%Z then m
  else
    let q := Z.shiftr m e in
    let r := Z.land m (Z.ones e) in
    let half := Z.shiftl 1 (e - 1) in
    let q' :=
      if (half <? r)%Z || ((r =? half)%Z && Z.odd q) then (q + 1)%Z else q in
    Z.shiftl q' e.

(** Number::toString picks the decimal with the fewest significant digits
    that still denotes the number, the nearest one when there are several.
    With [k] significant digits out of [n], the decimals next to [m] are
    the two multiples of [10^(n-k)] around it. *)
Definition candidate (m : Z) (n k : nat) : option Z :=
  let p := (10 ^ Z.of_nat (n - k))%Z in
  let s := (m / p)%Z in
  let lo := (s * p)%Z in
  let hi := (lo + p)%Z in
  let same c := (to_double c =? m)%Z in
  match same lo, same hi with
  | true, true =>
      Some (if (m - lo <? hi - m)%Z then lo
            else if (hi - m <? m - lo)%Z then hi
                 else if Z.even s then lo else hi)
  | true, false => Some lo
  | false, true => Some hi
  | false, false => None
  end.

Definition shortest (m : Z) : Z :=
  let n := String.length (pretty m) in
  default m (head (omap (candidate m n) (seq 1 17))).

(** A numeral without its trailing zeros. *)
Fixpoint significant (s : string) : string :=
  match s with
  | EmptyString => EmptyString
  | String c r =>
      match significant r with
      | EmptyString =>
          if Ascii.eqb c "0" then EmptyString else String c EmptyString
      | r' => String c r'
      end
  end.

(** Number::toString on a positive integer: the digits of the shortest
    decimal up to 21 digits, the exponent form beyond; [Infinity] past the
    largest number. *)
Definition natural_text (m : Z) : string :=
  let x := to_double m in
  if (2 ^ 1024 <=? x)%Z then "Infinity"
  else
    let d := pretty (shortest x) in
    let n := String.length d in
    if (n <=? 21)%nat then d
    else
      match significant d with
      | EmptyString => d
      | String c EmptyString => String c ("e+" +:+ pretty (n - 1)%nat)
      | String c r => String c ("." +:+ r +:+ "e+" +:+ pretty (n - 1)%nat)
      end.

Definition number_text (z : Z) : string :=
  match z with
  | Z0 => "0"
  | Zpos _ => natural_text z
  | Zneg _ => "-" +:+ natural_text (- z)
  end.

(** ToString on a primitive.  [None] is the [TypeError] raised for a
    symbol. *)
Definition to_string (p : primitive) : option string :=
  match p with
  | PUndefined => Some "undefined"
  | PNull => Some "null"
  | PBool true => Some "true"
  | PBool false => Some "false"
  | PNum z => Some (number_text z)
  | PStr s => Some s
  | PSym _ => None
  end.

(** ** Errors *)

Definition error_object (name message : string) : value :=
  obj [("name", VStr name); ("message", VStr message)].

Definition TypeError (message : string) : value :=
  error_object "TypeError" message.

(** Reading a [let]/[const] binding before its initialiser has run. *)
Definition ReferenceError (name : string) : value :=
  error_object "ReferenceError"
    ("Cannot access '" +:+ name +:+ "' before initialization").

(** Modelled from the spec: [InvalidRSAA] of [./errors], which is not part
    of the sources.  It is the spec's InvalidIntent payload, which "carries
    the full list of defect descriptions"; a [RequestError] "carries a
    human-readable message". *)
Definition InvalidRSAA (validationErrors : list string) : value :=
  obj [("name", VStr "InvalidRSAA");
       ("validationErrors", VArr (VStr <$> validationErrors))].

(** Modelled from the spec: [RequestError] of [./errors]; the message is
    whatever the constructor is given. *)
Definition RequestError (message : value) : value :=
  obj [("name", VStr "RequestError"); ("message", message)].

(** ** External calls, traces and the oracle *)

Inductive call : Type :=
| GetState                                          (* getState() *)
| Next (action : value)                             (* next(action) *)
| Fetch (url init : value)                          (* fetch(url, init) *)
| Invoke (f : value) (args : list value)            (* f(...args) *)
| Transform (f : value) (args : list value)         (* await f(...args) *)
| Method (o : value) (name : string) (args : list value). (* o.name(...args) *)

(** How a call ends.  For an awaited call this is how its promise settles.
    [Invoke] is a call of one of the action's own callables (bailout,
    endpoint, headers, options), [Transform] the awaited call of a payload
    or meta transform by the event builder. *)
Inductive outcome : Type :=
| Returned (v : value)
| Thrown (e : value).

Definition entry : Type := call * outcome.
Definition trace : Type := list entry.

(** The environment: the answer to a call, given all that happened before. *)
Definition oracle : Type := trace -> call -> outcome.

(** ** The monad of function bodies

    A statement completes normally, by [return], or by [throw], as in the
    language definition's completion records. *)
Inductive completion (A : Type) : Type :=
| Normal (a : A)
| Return (v : value)
| Throw (e : value).
Arguments Normal {A} a.
Arguments Return {A} v.
Arguments Throw {A} e.

Definition M (A : Type) : Type := oracle -> trace -> completion A * trace.

Definition ret {A} (a : A) : M A := fun _ h => (Normal a, h).
Definition return_ {A} (v : value) : M A := fun _ h => (Return v, h).
Definition throw {A} (e : value) : M A := fun _ h => (Throw e, h).

Definition bind {A B} (m : M A) (k : A -> M B) : M B :=
  fun env h =>
    match m env h with
    | (Normal a, h') => k a env h'
    | (Return v, h') => (Return v, h')
    | (Throw e, h') => (Throw e, h')
    end.

#[global] Instance M_ret : MRet M := @ret.
#[global] Instance M_bind : MBind M := fun A B k m => bind m k.

(** [try { m } catch (e) { handler e }] *)
Definition try_catch {A} (m : M A) (handler : value -> M A) : M A :=
  fun env h =>
    match m env h with
    | (Throw e, h') => handler e env h'
    | r => r
    end.

(** Make an external call: ask the oracle, log call and answer. *)
Definition perform (c : call) : M value :=
  fun env h =>
    let o := env h c in
    (match o with Returned v => Normal v | Thrown e => Throw e end,
     h ++ [(c, o)]).

Definition getState : M value := perform GetState.
Definition next (action : value) : M value := perform (Next action).
Definition fetch (url init : value) : M value := perform (Fetch url init).
Definition invoke (f : value) (args : list value) : M value :=
  perform (Invoke f args).
Definition transform (f : value) (args : list value) : M value :=
  perform (Transform f args).
Definition call_method (o : value) (name : string) (args : list value)
  : M value :=
  perform (Method o name args).

(** [v.k] as an expression: a [TypeError] when [v] is [undefined] or [null]. *)
Definition get_prop (v : value) (k : string) : M value :=
  if nullish v
  then throw (TypeError ("Cannot read properties of " +:+
                          default "" (as_primitive v ≫= to_string)))
  else ret (get_field v k).

(** ToPrimitive with hint string, as ToString applies it to an object:
    the methods [toString] and [valueOf] are tried in this order, and the
    first result that is no object is taken.  A method that is an own
    property of the object and not callable is passed over.  Any other is
    called: an own callable, or the inherited one, of which the embedding
    knows nothing; what the call returns is the oracle's answer. *)
Definition own_method (o : value) (name : string) : option value :=
  match o with VObj f => f !! name | _ => None end.

Definition try_method (o : value) (name : string) : M (option primitive) :=
  match own_method o name with
  | Some m =>
      if is_function m
      then r ← call_method o name []; ret (as_primitive r)
      else ret None
  | None => r ← call_method o name []; ret (as_primitive r)
  end.

Definition to_primitive (v : value) : M primitive :=
  match as_primitive v with
  | Some p => ret p
  | None =>
      r ← try_method v "toString";
      match r with
      | Some p => ret p
      | None =>
          r ← try_method v "valueOf";
          match r with
          | Some p => ret p
          | None =>
              throw (TypeError "Cannot convert object to primitive value")
          end
      end
  end.

(** [`${v}`] *)
Definition template_text (v : value) : M string :=
  p ← to_primitive v;
  from_option ret
    (throw (TypeError "Cannot convert a Symbol value to a string"))
    (to_string p).

(** A binding of a block scope: [const]/[let] names exist from the start of
    their block but cannot be read until the declaration has been
    evaluated. *)
Inductive binding : Type :=
| Uninitialized
| Initialized (v : value).

Definition read_binding (name : string) (b : binding) : M value :=
  match b with
  | Uninitialized => throw (ReferenceError name)
  | Initialized v => ret v
  end.

(** What the promise returned by an [async] function settles to. *)
Definition settle (r : completion value * trace) : outcome * trace :=
  (match r.1 with
   | Normal _ => Returned VUndefined
   | Return v => Returned v
   | Throw e => Thrown e
   end, r.2).

(** ** What [middleware.js] imports

    [./CALL_API], [./validation] and [./util] are not part of the sources.
    The pure ones are an interface here: every theorem about the middleware
    holds for any implementation of it.  [SpecImports] below is the
    implementation the specification describes. *)
Class Imports : Type := {
  (** the marker key under which an action carries its call description *)
  CALL_API : string;
  (** does the action carry a call description at all? *)
  isRSAA : value -> bool;
  (** the defects of an action, none when it is valid *)
  validateRSAA : value -> list string;
  (** the request, success and failure descriptors in record form *)
  normalizeTypeDescriptors : value -> value * value * value;
  (** a cached value dressed up as an ok response *)
  fakeJsonResponse : value -> value;
}.

(** [{ ...o, k: v }], leaving [k] out when [v] is [undefined]. *)
Definition set_opt (k : string) (v : value) (o : gmap string value)
  : gmap string value :=
  match v with
  | VUndefined => delete k o
  | _ => <[k := v]> o
  end.

(** The event made of a descriptor and the values of its payload and meta. *)
Definition built (descriptor payload meta : value) : value :=
  VObj (set_opt "meta" meta (set_opt "payload" payload (own_props descriptor))).

(** Modelled from the spec: [actionWith] of [./util], the event builder.
    A descriptor's [payload] and [meta], when they are callables, are
    transforms "(originalEnvelope, externalState, serverResponse?) -> value,
    applied only when the corresponding event is emitted"; anything else is
    the payload or meta itself.  The event is the descriptor with both
    replaced by their values (an output event is "{ type, payload, meta?,
    error? }").  The spec gives a failing transform no meaning of its own:
    its exception is the builder's. *)
Definition actionWith (descriptor : value) (args : list value) : M value :=
  let payload := get_field descriptor "payload" in
  payload ← (if is_function payload then transform payload args
             else ret payload);
  let meta := get_field descriptor "meta" in
  meta ← (if is_function meta then transform meta args else ret meta);
  ret (built descriptor payload meta).

Section Middleware.
Context `{Imports}.

(** *** Lines 21-37: an invalid RSAA *)

(** [next({ type: requestType, payload: new InvalidRSAA(validationErrors),
    error: true })] *)
Definition invalid_event (requestType : value) (validationErrors : list string)
  : value :=
  obj [("type", requestType);
       ("payload", InvalidRSAA validationErrors);
       ("error", VBool true)].

(** Lines 26-29: [callAPI.types[0]], replaced by its [type] when it has a
    truthy one. *)
Definition first_type (types : value) : value :=
  let requestType := get_field types "0" in
  if truthy requestType && truthy (get_field requestType "type")
  then get_field requestType "type"
  else requestType.

Definition report_invalid (action : value) (validationErrors : list string)
  : M value :=
  callAPI ← get_prop action CALL_API;
  types ← get_prop callAPI "types";
  (if truthy types && isArray types
   then next (invalid_event (first_type types) validationErrors)
   else ret VUndefined);;
  return_ VUndefined.

(** *** The error event of the six [catch] blocks

    The catch blocks of lines 51-60, 66-75, 87-96, 103-112, 119-128 and
    143-153 are the same statement up to the message:
    [return next(await actionWith({ ...requestType, payload: new
    RequestError(message), error: true }, [action, getState()]))]. *)
Definition error_descriptor (requestType message : value) : value :=
  VObj (<["error" := VBool true]>
          (<["payload" := RequestError message]> (own_props requestType))).

Definition request_error {A} (action requestType message : value) : M A :=
  let descriptor := error_descriptor requestType message in
  state ← getState;
  event ← actionWith descriptor [action; state];
  v ← next event;
  return_ v.

(** *** Lines 45-60: should we bail out? *)
Definition bailout_block (action requestType bailout : value) : M unit :=
  try_catch
    (stop ← (if is_boolean bailout && truthy bailout then ret true
             else if is_function bailout
                  then state ← getState;
                       r ← invoke bailout [state];
                       ret (truthy r)
                  else ret false);
     if stop : bool then return_ VUndefined else ret tt)
    (fun e =>
       request_error action requestType
         (VStr "[CALL_API].bailout function failed")).

(** *** Lines 62-76: the endpoint function *)
Definition endpoint_block (action requestType endpoint : value) : M value :=
  if is_function endpoint
  then try_catch
         (state ← getState; invoke endpoint [state])
         (fun e =>
            request_error action requestType
              (VStr "[CALL_API].endpoint function failed"))
  else ret endpoint.

(** *** Lines 78-97: is it cached?

    The array literal [[action, getState(), fakeJsonResponse(await
    cache.get(endpoint))]] reads the state before it asks the cache for the
    value.  The whole [return next(...)] sits inside the [try]. *)
Definition cache_catch {A} (action requestType e : value) : M A :=
  message ← get_prop e "message";
  text ← template_text message;
  request_error action requestType
    (VStr ("[CALL_API].cache API function failed: " +:+ text)).

Definition cache_block (action requestType successType endpoint cache : value)
  : M unit :=
  if truthy cache
  then try_catch
         (hit ← call_method cache "has" [endpoint];
          if truthy hit
          then state ← getState;
               cached ← call_method cache "get" [endpoint];
               event ← actionWith successType
                         [action; state; fakeJsonResponse cached];
               v ← next event;
               return_ v
          else ret tt)
         (cache_catch action requestType)
  else ret tt.

(** *** Lines 99-113: the headers function *)
Definition headers_block (action requestType headers : value) : M value :=
  if is_function headers
  then try_catch
         (state ← getState; invoke headers [state])
         (fun e =>
            request_error action requestType
              (VStr "[CALL_API].headers function failed"))
  else ret headers.

(** *** Lines 115-129: the options function *)
Definition options_block (action requestType options : value) : M value :=
  if is_function options
  then try_catch
         (state ← getState; invoke options [state])
         (fun e =>
            request_error action requestType
              (VStr "[CALL_API].options function failed"))
  else ret options.

(** *** Lines 131-135: the request FSA *)
Definition request_block (action requestType : value) : M value :=
  state ← getState;
  event ← actionWith requestType [action; state];
  next event.

(** *** Lines 137-153: the API call *)

(** [{ ...options, method, body, credentials, headers: headers || {} }] *)
Definition fetch_init (options method body credentials headers : value)
  : value :=
  VObj (<["headers" := if truthy headers then headers else VObj ∅]>
          (<["credentials" := credentials]>
             (<["body" := body]>
                (<["method" := method]> (own_props options))))).

Definition fetch_catch {A} (action requestType e : value) : M A :=
  message ← get_prop e "message";
  request_error action requestType message.

Definition fetch_block
  (action requestType endpoint options method body credentials headers : value)
  : M value :=
  try_catch
    (fetch endpoint (fetch_init options method body credentials headers))
    (fetch_catch action requestType).

(** *** Lines 155-173: the server response

    In the [res.ok] branch, [const action = await actionWith(successType,
    [action, getState(), res])] declares a new [action] for the block.  The
    [action] inside its own initialiser is that new binding, not the
    function's parameter, and it is read before it is initialised. The
    parameter is out of reach in this branch. *)
Definition response_block
  (action successType failureType endpoint cache res : value) : M value :=
  ok ← get_prop res "ok";
  if truthy ok
  then let action_of_block := Uninitialized in
       envelope ← read_binding "action" action_of_block;
       state ← getState;
       event ← actionWith successType [envelope; state; res];
       (if truthy cache
        then payload ← get_prop event "payload";
             call_method cache "set" [endpoint; payload]
        else ret VUndefined);;
       v ← next event;
       return_ v
  else state ← getState;
       event ← actionWith
                 (VObj (<["error" := VBool true]> (own_props failureType)))
                 [action; state; res];
       v ← next event;
       return_ v.

(** *** Lines 39-43: taking the validated RSAA apart *)
Definition require_object_coercible (v : value) : M unit :=
  if nullish v
  then throw (TypeError "Cannot destructure a value that is undefined or null")
  else ret tt.

(** [options = {}] *)
Definition with_default (v d : value) : value :=
  match v with VUndefined => d | _ => v end.

Definition process_valid (action : value) : M value :=
  callAPI ← get_prop action CALL_API;
  require_object_coercible callAPI;;
  let endpoint := get_field callAPI "endpoint" in
  let headers := get_field callAPI "headers" in
  let options := with_default (get_field callAPI "options") (VObj ∅) in
  let method := get_field callAPI "method" in
  let body := get_field callAPI "body" in
  let credentials := get_field callAPI "credentials" in
  let bailout := get_field callAPI "bailout" in
  let types := get_field callAPI "types" in
  let cache := get_field callAPI "cache" in
  let '(requestType, successType, failureType) :=
    normalizeTypeDescriptors types in
  bailout_block action requestType bailout;;
  endpoint ← endpoint_block action requestType endpoint;
  cache_block action requestType successType endpoint cache;;
  headers ← headers_block action requestType headers;
  options ← options_block action requestType options;
  request_block action requestType;;
  res ← fetch_block action requestType endpoint options method body
          credentials headers;
  response_block action successType failureType endpoint cache res.

(** *** Lines 14-175: the middleware *)
Definition apiMiddleware (action : value) : M value :=
  if negb (isRSAA action)
  then v ← next action; return_ v
  else
    let validationErrors := validateRSAA action in
    if negb (Nat.eqb (length validationErrors) 0)
    then report_invalid action validationErrors
    else process_valid action.

(** One run of the middleware on [action], from an empty history. *)
Definition run (env : oracle) (action : value) : outcome * trace :=
  settle (apiMiddleware action env []).

End Middleware.

(** ** The imports as the specification describes them *)
Module SpecModel.

Definition is_identifier (v : value) : bool :=
  match v with VStr _ | VSym _ => true | _ => false end.

Definition present (v : value) : bool :=
  match v with VUndefined => false | _ => true end.

Definition optional (ok : value -> bool) (v : value) : bool :=
  negb (present v) || ok v.

Definition is_mapping (v : value) : bool :=
  match v with VObj _ => true | _ => false end.

(** "either an identifier or a record whose [type] field is an identifier;
    if a record, [payload]/[meta] (when present) must be callables" *)
Definition valid_descriptor (d : value) : bool :=
  is_identifier d
  || (is_mapping d
      && is_identifier (get_field d "type")
      && optional is_function (get_field d "payload")
      && optional is_function (get_field d "meta")).

Definition is_triple (types : value) : bool :=
  match types with VArr [_; _; _] => true | _ => false end.

Definition accepted_credentials (v : value) : bool :=
  match v with
  | VStr s => bool_decide (s ∈ ["omit"; "same-origin"; "include"])
  | _ => false
  end.

Definition is_cache (v : value) : bool :=
  is_function (get_field v "has")
  && is_function (get_field v "get")
  && is_function (get_field v "set").

Definition defect (holds : bool) (text : string) : list string :=
  if holds then [] else [text].

(** Modelled from the spec: the constant of [./CALL_API], the "designated
    marker key". *)
Definition marker : string := "[CALL_API]".

(** Modelled from the spec: [isRSAA] of [./validation].  "Recognition is
    purely structural (presence of a designated marker key) and must not
    throw." *)
Definition isRSAA (action : value) : bool :=
  match action with
  | VObj f => bool_decide (is_Some (f !! marker))
  | _ => false
  end.

(** Modelled from the spec: [validateRSAA] of [./validation], the checks
    of section 4.2 in their order, "all are run; all defects are reported".
    The spec fixes neither the wording of a defect nor the accepted
    credentials policies; the policies here are those of the fetch
    standard. *)
Definition validateRSAA (action : value) : list string :=
  let callAPI := get_field action marker in
  let types := get_field callAPI "types" in
  (defect (is_triple types) "types must be an ordered triple"
   ++ (if is_triple types
       then defect (valid_descriptor (get_field types "0"))
              "invalid request type descriptor"
            ++ defect (valid_descriptor (get_field types "1"))
                 "invalid success type descriptor"
            ++ defect (valid_descriptor (get_field types "2"))
                 "invalid failure type descriptor"
       else [])
   ++ defect (optional (fun b => is_boolean b || is_function b)
                (get_field callAPI "bailout"))
        "bailout must be boolean or callable"
   ++ defect (let e := get_field callAPI "endpoint" in
              String.eqb (typeof e) "string" || is_function e)
        "endpoint must be a string or callable"
   ++ defect (optional (fun h => is_mapping h || is_function h)
                (get_field callAPI "headers"))
        "headers must be a mapping or callable"
   ++ defect (optional accepted_credentials (get_field callAPI "credentials"))
        "credentials must be an accepted policy"
   ++ defect (optional is_cache (get_field callAPI "cache"))
        "cache must expose has, get and set")%list.

(** The default transform of the success and failure descriptors: "take
    the source payload unchanged". *)
Definition sourcePayload : value := VFun "sourcePayload".

Definition as_record (d : value) : gmap string value :=
  if is_identifier d then {["type" := d]} else own_props d.

(** Modelled from the spec: [normalizeTypeDescriptors] of [./util].  "Normalized
    form is always the record shape with optional transforms defaulting to
    'take the source payload unchanged' (for success/failure) and
    'undefined' (for request)." *)
Definition normalizeTypeDescriptors (types : value) : value * value * value :=
  (VObj (as_record (get_field types "0")),
   VObj (as_record (get_field types "1") ∪ {["payload" := sourcePayload]}),
   VObj (as_record (get_field types "2") ∪ {["payload" := sourcePayload]})).

(** Modelled from the spec: [fakeJsonResponse] of [./util], "a synthetic
    successful response (status 200-equivalent, body = cached value)". *)
Definition fakeJsonResponse (cached : value) : value :=
  obj [("ok", VBool true); ("status", VNum 200); ("body", cached)].

#[global] Instance SpecImports : Imports :=
  Build_Imports marker isRSAA validateRSAA normalizeTypeDescriptors
    fakeJsonResponse.

End SpecModel.

(** ** Sample actions and collaborators *)
Module Examples.
Import SpecModel.

(** [{ [CALL_API]: { ...fields } }] *)
Definition rsaa (fields : list (string * value)) : value :=
  obj [(marker, obj fields)].

Definition a_cache : value :=
  obj [("has", VFun "has"); ("get", VFun "get"); ("set", VFun "set")].

(** The example of the specification:
    [{ endpoint: "/x", method: "GET", types: ["REQ", "OK", "FAIL"] }]. *)
Definition basic : list (string * value) :=
  [("endpoint", VStr "/x"); ("method", VStr "GET");
   ("types", VArr [VStr "REQ"; VStr "OK"; VStr "FAIL"])].

Definition get_x : value := rsaa basic.

(** The same with a cache. *)
Definition cached_x : value := rsaa (basic ++ [("cache", a_cache)]).

(** The same with a bailout. *)
Definition bail (bailout : value) : value :=
  rsaa (basic ++ [("bailout", bailout)]).

(** An endpoint function that throws. *)
Definition failing_endpoint : value :=
  rsaa [("endpoint", VFun "fails"); ("method", VStr "GET");
        ("types", VArr [VStr "REQ"; VStr "OK"; VStr "FAIL"])].

(** A first type descriptor that is no descriptor. *)
Definition bad_first_type : value :=
  rsaa [("endpoint", VStr "/x"); ("method", VStr "GET");
        ("types", VArr [VNum 42; VStr "OK"; VStr "FAIL"])].

(** No first type descriptor: an empty array of types. *)
Definition no_first_type : value :=
  rsaa [("endpoint", VStr "/x"); ("method", VStr "GET"); ("types", VArr [])].

(** No [types] at all. *)
Definition no_types : value :=
  rsaa [("endpoint", VStr "/x"); ("method", VStr "GET")].

(** A request descriptor with a meta transform, in an RSAA without
    endpoint. *)
Definition described : gmap string value :=
  list_to_map [("type", VStr "REQ"); ("meta", VFun "stamp")].

Definition no_endpoint : value :=
  rsaa [("method", VStr "GET");
        ("types", VArr [VObj described; VStr "OK"; VStr "FAIL"])].

(** An action that is not an RSAA. *)
Definition ping : value := obj [("type", VStr "PING")].

Definition boom : value := error_object "Error" "boom".

Definition ok_response : value :=
  obj [("ok", VBool true); ("status", VNum 200); ("body", obj [("a", VNum 1)])].

(** How the transport and the cache answer. *)
Record scenario : Type := {
  transport_answer : outcome;
  has_answer : outcome;
  get_answer : outcome;
}.

Definition named (f : value) (name : string) : bool :=
  match f with VFun n => String.eqb n name | _ => false end.

(** A store with state [{}] and a [next] that returns [undefined]; the
    default payload transform reads the body of the response, every other
    transform returns ["meta"]; the callable [yes] returns [true], the
    callable [fails] throws [boom], any other returns [undefined]. *)
Definition world (s : scenario) : oracle := fun _ c =>
  match c with
  | GetState => Returned (obj [])
  | Next _ => Returned VUndefined
  | Fetch _ _ => transport_answer s
  | Transform f args =>
      Returned (if named f "sourcePayload"
                then get_field (nth 2 args VUndefined) "body"
                else VStr "meta")
  | Invoke f _ =>
      if named f "yes" then Returned (VBool true)
      else if named f "fails" then Thrown boom
           else Returned VUndefined
  | Method _ name _ =>
      if String.eqb name "has" then has_answer s
      else if String.eqb name "get" then get_answer s
           else Returned VUndefined
  end.

(** The server answers ok with body [{ a: 1 }]; the cache holds nothing. *)
Definition online : scenario :=
  {| transport_answer := Returned ok_response;
     has_answer := Returned (VBool false);
     get_answer := Returned VUndefined |}.

(** The cache holds [{ a: 1 }] under every key. *)
Definition cached : scenario :=
  {| transport_answer := Returned ok_response;
     has_answer := Returned (VBool true);
     get_answer := Returned (obj [("a", VNum 1)]) |}.

(** The cache says it has the value and fails to deliver it. *)
Definition stale : scenario :=
  {| transport_answer := Returned ok_response;
     has_answer := Returned (VBool true);
     get_answer := Thrown boom |}.

(** Neither the transport nor the cache can be reached. *)
Definition offline : scenario :=
  {| transport_answer := Thrown boom;
     has_answer := Thrown boom;
     get_answer := Thrown boom |}.

End Examples.

(** ** What a trace shows *)

(** The actions handed to [next], in order. *)
Definition sent (e : entry) : option value :=
  match e.1 with Next a => Some a | _ => None end.
Definition emitted (t : trace) : list value := omap sent t.

(** The transport calls with their answers. *)
Definition transport (e : entry) : option entry :=
  match e.1 with Fetch _ _ => Some e | _ => None end.
Definition fetched (t : trace) : list entry := omap transport t.

(** The calls on an object's methods (here: the cache) with their answers. *)
Definition on_object (e : entry) : option entry :=
  match e.1 with Method _ _ _ => Some e | _ => None end.
Definition method_calls (t : trace) : list entry := omap on_object t.

(** The methods that the conversion of an object to a primitive calls. *)
Definition coercion (name : string) : bool :=
  String.eqb name "toString" || String.eqb name "valueOf".

(** The method calls that are no conversions: what is asked of the cache. *)
Definition asked (e : entry) : option entry :=
  match e.1 with
  | Method _ name _ => if coercion name then None else Some e
  | _ => None
  end.
Definition requests (t : trace) : list entry := omap asked t.

(** An observation that does not see the conversions. *)
Definition coercion_blind {X} (p : entry -> option X) : Prop :=
  forall o name args r, coercion name = true -> p (Method o name args, r) = None.

(** The calls of callables and transforms. *)
Definition applied (e : entry) : option entry :=
  match e.1 with Invoke _ _ | Transform _ _ => Some e | _ => None end.
Definition applications (t : trace) : list entry := omap applied t.

(** A computation is quiet for an observation when it adds nothing to it,
    however it completes. *)
Definition quiet {A X} (p : entry -> option X) (m : M A) : Prop :=
  forall env h, omap p (m env h).2 = omap p h.

(** The collaborators the specification gives no failure mode: the state
    reader, the next consumer and the descriptor transforms always answer
    with a value. *)
Definition well_behaved (env : oracle) : Prop :=
  forall h,
    (exists s, env h GetState = Returned s)
    /\ (forall a, exists v, env h (Next a) = Returned v)
    /\ (forall f args, exists v, env h (Transform f args) = Returned v).

(** The calls that stay inside the store and the action: everything but
    the transport and the cache. *)
Definition local_call (c : call) : bool :=
  match c with Fetch _ _ | Method _ _ _ => false | _ => true end.

(** An observation that sees the transport or the cache only. *)
Definition remote_only {X} (p : entry -> option X) : Prop :=
  forall c o, local_call c = true -> p (c, o) = None.

(** A callable field resolves to what the callable returns for the current
    state; any other field is taken as it is. *)
Definition resolved (env : oracle) (raw v : value) : Prop :=
  if is_function raw
  then exists h s, env h GetState = Returned s
                   /\ env (h ++ [(GetState, Returned s)]) (Invoke raw [s])
                      = Returned v
  else v = raw.

(** The outcome [r] of a block started at history [h] is: one more event
    sent, the error event of the request descriptor with a [RequestError]
    of the given message as payload, and [return]. *)
Definition sends_request_error {A} (r : completion A * trace) (h : trace)
  (requestType message : value) : Prop :=
  exists v meta,
    let event :=
      built (error_descriptor requestType message) (RequestError message) meta
    in
    r.1 = Return v
    /\ emitted r.2 = emitted h ++ [event]
    /\ get_field event "payload" = RequestError message.

(** The calls the event builder makes for a descriptor: its payload
    transform, then its meta transform, each only when it is a callable. *)
Definition builder_calls (descriptor : value) (args : list value)
  (payload meta : value) : trace :=
  (if is_function (get_field descriptor "payload")
   then [(Transform (get_field descriptor "payload") args, Returned payload)]
   else [])
  ++ (if is_function (get_field descriptor "meta")
      then [(Transform (get_field descriptor "meta") args, Returned meta)]
      else []).

(** The calls of a cache hit up to the event builder: [has], the state,
    [get]. *)
Definition hit_calls (cache endpoint hit state cached : value) : trace :=
  [(Method cache "has" [endpoint], Returned hit);
   (GetState, Returned state);
   (Method cache "get" [endpoint], Returned cached)].

(** ** Further observations and samples *)

(** A computation only ever adds to the history. *)
Definition grows {A} (m : M A) : Prop :=
  forall env h, exists ext, (m env h).2 = h ++ ext.

(** A computation sends at most [n] events, however it completes. *)
Definition emits_at_most {A} (n : nat) (m : M A) : Prop :=
  forall env h,
    (length (emitted (m env h).2) <= length (emitted h) + n)%nat.

(** The fields of a call description that may be callables of the state. *)
Definition callables (callAPI : value) : list value :=
  [get_field callAPI "bailout"; get_field callAPI "endpoint";
   get_field callAPI "headers";
   with_default (get_field callAPI "options") (VObj ∅)].

(** Every callable applied in [t] is one of [fs], and is applied to one
    argument: the state that the call just before it read. *)
Definition state_fed (fs : list value) (t : trace) : Prop :=
  forall i f args o,
    t !! i = Some (Invoke f args, o) ->
    f ∈ fs /\ is_function f = true
    /\ exists j s,
         i = S j /\ t !! j = Some (GetState, Returned s) /\ args = [s].

(** Every transform applied in [t] gets [action] first, then a state read
    earlier in [t], then at most one more argument. *)
Definition action_fed (action : value) (t : trace) : Prop :=
  forall i f args o,
    t !! i = Some (Transform f args, o) ->
    exists j s rest,
      (j < i)%nat /\ t !! j = Some (GetState, Returned s)
      /\ args = action :: s :: rest /\ (length rest <= 1)%nat.

(** Both, with the states [seen] among those read in [t]. *)
Definition disciplined (fs : list value) (action : value) (seen : list value)
  (t : trace) : Prop :=
  state_fed fs t /\ action_fed action t
  /\ forall s, s ∈ seen -> (GetState, Returned s) ∈ t.

(** A computation keeps a property of the history. *)
Definition keeps {A} (I : trace -> Prop) (m : M A) : Prop :=
  forall env h, I h -> I (m env h).2.

(** What a call must be like to keep a history disciplined. *)
Definition admissible (fs : list value) (action : value) (seen : list value)
  (h : trace) (c : call) : Prop :=
  match c with
  | Invoke f args =>
      f ∈ fs /\ is_function f = true
      /\ exists s, last h = Some (GetState, Returned s) /\ args = [s]
  | Transform f args =>
      exists s rest,
        s ∈ seen /\ args = action :: s :: rest /\ (length rest <= 1)%nat
  | _ => True
  end.

(** The calls of a stage that resolves a field of the call description:
    none when the field is no callable, else the state is read and the
    callable applied to it. *)
Definition stage_calls (f state result : value) : trace :=
  if is_function f
  then [(GetState, Returned state); (Invoke f [state], Returned result)]
  else [].

(** The cache probe of a run that goes on to the network. *)
Definition probe_calls (cache url hit : value) : trace :=
  if truthy cache then [(Method cache "has" [url], Returned hit)] else [].

(** The callables applied, with their answers. *)
Definition invoked (e : entry) : option entry :=
  match e.1 with Invoke _ _ => Some e | _ => None end.
Definition invocations (t : trace) : list entry := omap invoked t.

(** The callables that threw. *)
Definition stopper (e : entry) : option entry :=
  match e.1 with
  | Invoke _ _ => match e.2 with Thrown _ => Some e | Returned _ => None end
  | _ => None
  end.
Definition failed_calls (t : trace) : list entry := omap stopper t.

(** The field of the call description that a stage resolves. *)
Definition stage_value (callAPI : value) (stage : string) : value :=
  if String.eqb stage "options"
  then with_default (get_field callAPI "options") (VObj ∅)
  else get_field callAPI stage.

(** The calls of a stage whose callable throws, with well-behaved
    collaborators: the state is read, the callable throws, the state is
    read again and the error event is built and sent. *)
Definition failed_stage (action rt : value) (text : string)
  (f s e state meta v : value) : trace :=
  let descriptor := error_descriptor rt (VStr text) in
  [(GetState, Returned s); (Invoke f [s], Thrown e);
   (GetState, Returned state)]
  ++ builder_calls descriptor [action; state] (RequestError (VStr text)) meta
  ++ [(Next (built descriptor (RequestError (VStr text)) meta), Returned v)].

(** A history in which no event was sent, the transport was not called
    and no callable threw. *)
Definition uneventful (h : trace) : Prop :=
  emitted h = [] /\ fetched h = [] /\ failed_calls h = [].

(** The value a call has resolved to or was rejected with. *)
Definition carried (o : outcome) : value :=
  match o with Returned v | Thrown v => v end.

(** The failure descriptor as line 168 hands it to the event builder:
    [{ ...failureType, error: true }]. *)
Definition failure_descriptor (failureType : value) : value :=
  VObj (<["error" := VBool true]> (own_props failureType)).

Module Scenarios.
Import SpecModel Examples.

(** The server answers with a response that is not ok. *)
Definition server_error : value :=
  obj [("ok", VBool false); ("status", VNum 500); ("body", VStr "down")].

Definition failing_server : scenario :=
  {| transport_answer := Returned server_error;
     has_answer := Returned (VBool false);
     get_answer := Returned VUndefined |}.

(** The transport rejects with [undefined]. *)
Definition silent_rejection : scenario :=
  {| transport_answer := Thrown VUndefined;
     has_answer := Returned (VBool false);
     get_answer := Returned VUndefined |}.

(** The cache fails with an error whose message is the number 10^21, and
    with one whose message is an object with a [toString] of its own. *)
Definition numeric_failure : scenario :=
  {| transport_answer := Thrown boom;
     has_answer := Thrown (obj [("message", VNum (10 ^ 21))]);
     get_answer := Thrown boom |}.

Definition self_describing : value := obj [("toString", VFun "describe")].

Definition described_failure : scenario :=
  {| transport_answer := Thrown boom;
     has_answer := Thrown (obj [("message", self_describing)]);
     get_answer := Thrown boom |}.

(** A world in which every [toString] returns ["custom"]. *)
Definition describing (s : scenario) : oracle := fun h c =>
  match c with
  | Method _ name _ =>
      if String.eqb name "toString" then Returned (VStr "custom")
      else world s h c
  | _ => world s h c
  end.

(** An options bag that holds the transport-specific fields too. *)
Definition greedy_bag : value :=
  obj [("mode", VStr "cors"); ("method", VStr "POST");
       ("body", VStr "theirs"); ("credentials", VStr "include");
       ("headers", obj [("x", VNum 1)])].

Definition overriding : value :=
  rsaa [("endpoint", VStr "/x"); ("method", VStr "GET");
        ("headers", obj [("accept", VStr "json")]);
        ("options", greedy_bag);
        ("types", VArr [VStr "REQ"; VStr "OK"; VStr "FAIL"])].

(** An RSAA whose call description is [null]. *)
Definition null_description : value := obj [(marker, VNull)].

(** Endpoint and options given as functions of the state; a failure
    descriptor that says [error: false]. *)
Definition dynamic : value :=
  rsaa [("endpoint", VFun "url"); ("method", VStr "GET");
        ("options", VFun "opts");
        ("types",
         VArr [VStr "REQ"; VStr "OK";
               obj [("type", VStr "FAIL"); ("error", VBool false)]])].

(** What the callable [opts] returns, and the second argument of the
    transport call made for [dynamic]. *)
Definition dynamic_options : value :=
  obj [("mode", VStr "cors"); ("method", VStr "POST")].

Definition dynamic_init : value :=
  fetch_init dynamic_options (VStr "GET") VUndefined VUndefined VUndefined.

(** A world where the callable [url] returns ["/y"], the callable [opts]
    returns [{ mode: "cors", method: "POST" }], and [next] throws [boom]
    the first time it is called, and only then. *)
Definition stubborn (s : scenario) : oracle := fun h c =>
  match c with
  | Next _ =>
      match emitted h with
      | [] => Thrown boom
      | _ => Returned VUndefined
      end
  | Invoke f _ =>
      if named f "url" then Returned (VStr "/y")
      else if named f "opts" then Returned dynamic_options
           else world s h c
  | _ => world s h c
  end.

(** The same with a [next] that always returns. *)
Definition dynamic_world (s : scenario) : oracle := fun h c =>
  match c with
  | Next _ => Returned VUndefined
  | _ => stubborn s h c
  end.

End Scenarios.

(** * Proofs *)

(** ** Quiet computations *)
Section Quiet.
Context {X : Type} (p : entry -> option X).

Lemma quiet_ret {A} (a : A) : quiet p (ret a).
Proof. by intros env h. Qed.

Lemma quiet_mret {A} (a : A) : quiet p (mret a).
Proof. by intros env h. Qed.

Lemma quiet_return {A} v : quiet p (@return_ A v).
Proof. by intros env h. Qed.

Lemma quiet_throw {A} e : quiet p (@throw A e).
Proof. by intros env h. Qed.

Lemma quiet_bind {A B} (m : M A) (k : A -> M B) :
  quiet p m -> (forall a, quiet p (k a)) -> quiet p (m ≫= k).
Proof.
  intros Hm Hk env h. unfold mbind, M_bind, bind.
  specialize (Hm env h). destruct (m env h) as [[a|v|e] h1]; simpl in *; auto.
  by rewrite Hk.
Qed.

Lemma quiet_try_catch {A} (m : M A) handler :
  quiet p m -> (forall e, quiet p (handler e)) -> quiet p (try_catch m handler).
Proof.
  intros Hm Hk env h. unfold try_catch.
  specialize (Hm env h). destruct (m env h) as [[a|v|e] h1]; simpl in *; auto.
  by rewrite Hk.
Qed.

Lemma quiet_perform c :
  (forall o, p (c, o) = None) -> quiet p (perform c).
Proof.
  intros Hc env h. unfold perform; simpl.
  rewrite omap_app; simpl. rewrite Hc. by rewrite app_nil_r.
Qed.

Lemma quiet_if {A} (b : bool) (m1 m2 : M A) :
  quiet p m1 -> quiet p m2 -> quiet p (if b then m1 else m2).
Proof. by destruct b. Qed.

Lemma quiet_get_prop v k : quiet p (get_prop v k).
Proof. unfold get_prop. destruct (nullish v); by intros env h. Qed.

Lemma quiet_bind_throw {A B} e (k : A -> M B) : quiet p (throw e ≫= k).
Proof. by intros env h. Qed.

End Quiet.

(** ** Running the monad *)

Lemma run_bind {A B} (m : M A) (k : A -> M B) env h :
  (m ≫= k) env h =
  match m env h with
  | (Normal a, h') => k a env h'
  | (Return v, h') => (Return v, h')
  | (Throw e, h') => (Throw e, h')
  end.
Proof. reflexivity. Qed.

Lemma run_perform c env h :
  perform c env h =
  (match env h c with Returned v => Normal v | Thrown e => Throw e end,
   h ++ [(c, env h c)]).
Proof. reflexivity. Qed.

Lemma run_perform_returned c env h v :
  env h c = Returned v -> perform c env h = (Normal v, h ++ [(c, Returned v)]).
Proof. intros E. by rewrite run_perform, E. Qed.

Lemma run_perform_thrown c env h e :
  env h c = Thrown e -> perform c env h = (Throw e, h ++ [(c, Thrown e)]).
Proof. intros E. by rewrite run_perform, E. Qed.

(** ** Objects *)

Lemma lookup_set_opt_eq k v (o : gmap string value) :
  default VUndefined (set_opt k v o !! k) = v.
Proof.
  unfold set_opt. destruct v;
    first [by rewrite lookup_delete_eq | by rewrite lookup_insert_eq].
Qed.

Lemma lookup_set_opt_ne k k' v (o : gmap string value) :
  k <> k' -> set_opt k v o !! k' = o !! k'.
Proof.
  intros Hk. unfold set_opt. destruct v;
    first [by rewrite lookup_delete_ne | by rewrite lookup_insert_ne].
Qed.

Lemma error_descriptor_payload rt message :
  get_field (error_descriptor rt message) "payload" = RequestError message.
Proof.
  unfold error_descriptor, get_field.
  rewrite lookup_insert_ne by done. by rewrite lookup_insert_eq.
Qed.

Lemma error_descriptor_other rt message k :
  k <> "payload" -> k <> "error" ->
  get_field (error_descriptor rt message) k
  = default VUndefined (own_props rt !! k).
Proof.
  intros. unfold error_descriptor, get_field.
  by rewrite !lookup_insert_ne by done.
Qed.

(** ** The event builder *)

Lemma built_payload d p m : get_field (built d p m) "payload" = p.
Proof.
  unfold built, get_field. rewrite lookup_set_opt_ne by done.
  apply lookup_set_opt_eq.
Qed.

Lemma built_other d p m k :
  k <> "payload" -> k <> "meta" ->
  get_field (built d p m) k = default VUndefined (own_props d !! k).
Proof.
  intros. unfold built, get_field. by rewrite !lookup_set_opt_ne by done.
Qed.

(** ** Tactics *)

Ltac quiet_step Hp :=
  first [ apply quiet_ret | apply quiet_mret | apply quiet_return
        | apply quiet_throw | apply quiet_get_prop
        | apply quiet_bind_throw
        | apply quiet_bind; [|intros ?]
        | apply quiet_try_catch; [|intros ?]
        | apply quiet_if
        | apply quiet_perform; intros ?; first [by apply Hp | reflexivity] ].

Ltac quiet_tac Hp :=
  unfold report_invalid, request_error, bailout_block, endpoint_block,
    headers_block, options_block, request_block, fetch_block, response_block,
    require_object_coercible, actionWith, getState, next, fetch, invoke,
    transform, call_method;
  repeat quiet_step Hp.

(** Enter [process_valid]: either the destructuring of lines 40-42 throws
    before anything is called, or the blocks run on the fields of the call
    description. *)
Ltac enter_pipeline :=
  unfold process_valid, get_prop, require_object_coercible;
  rewrite run_bind;
  match goal with
  | |- context [nullish ?a] => destruct (nullish a) eqn:?
  end; [|unfold ret at 1; cbv beta iota; rewrite run_bind;
         match goal with
         | |- context [nullish ?a] => destruct (nullish a) eqn:?
         end; [|unfold ret at 1; cbv beta iota zeta;
                match goal with
                | |- context [normalizeTypeDescriptors ?t] =>
                    destruct (normalizeTypeDescriptors t) as [[rt st] ft] eqn:?
                end]].

(** Run the next block of the pipeline, keeping what [lem] says about it. *)
Ltac run_block lem x h' E Q :=
  rewrite run_bind;
  match goal with
  | |- context [match ?m ?env ?h with _ => _ end] =>
      pose proof (lem env h) as Q;
      destruct (m env h) as [[x|?|?] h'] eqn:E; simpl in Q
  end.

Section Blocks.
Context `{Imports}.

Lemma actionWith_quiet {X} (p : entry -> option X) d args :
  (forall f a o, p (Transform f a, o) = None) -> quiet p (actionWith d args).
Proof.
  intros Hp. unfold actionWith, transform.
  repeat first [ apply quiet_bind; [|intros ?] | apply quiet_if
               | apply quiet_perform; intros ?; apply Hp | apply quiet_ret
               | apply quiet_mret ].
Qed.

(** With well-behaved collaborators the builder always delivers an event. *)
Lemma actionWith_total env h d args :
  well_behaved env ->
  exists payload meta h',
    actionWith d args env h = (Normal (built d payload meta), h')
    /\ (is_function (get_field d "payload") = false ->
        payload = get_field d "payload")
    /\ (is_function (get_field d "meta") = false -> meta = get_field d "meta")
    /\ (is_function (get_field d "meta") = true ->
        exists h0, env h0 (Transform (get_field d "meta") args) = Returned meta).
Proof.
  intros WB. unfold actionWith, transform.
  destruct (is_function (get_field d "payload")) eqn:Ep;
  destruct (is_function (get_field d "meta")) eqn:Em;
  rewrite !run_bind.
  - destruct (WB h) as (_ & _ & Ht).
    destruct (Ht (get_field d "payload") args) as [pv Epv].
    rewrite (run_perform_returned _ _ _ _ Epv), run_bind.
    set (h1 := h ++ _).
    destruct (WB h1) as (_ & _ & Ht1).
    destruct (Ht1 (get_field d "meta") args) as [mv Emv].
    rewrite (run_perform_returned _ _ _ _ Emv).
    eexists pv, mv, _. split; [reflexivity|]. repeat split; try done.
    intros _. by exists h1.
  - destruct (WB h) as (_ & _ & Ht).
    destruct (Ht (get_field d "payload") args) as [pv Epv].
    rewrite (run_perform_returned _ _ _ _ Epv), run_bind.
    eexists pv, _, _. split; [reflexivity|]. repeat split; done.
  - unfold ret at 1; cbv beta iota. rewrite run_bind.
    destruct (WB h) as (_ & _ & Ht).
    destruct (Ht (get_field d "meta") args) as [mv Emv].
    rewrite (run_perform_returned _ _ _ _ Emv).
    eexists _, mv, _. split; [reflexivity|]. repeat split; try done.
    intros _. by exists h.
  - eexists _, _, _. split; [reflexivity|]. repeat split; done.
Qed.

(** ... and these are its calls. *)
Lemma actionWith_run (env : oracle) (h : trace) d args :
  well_behaved env ->
  exists payload meta,
    actionWith d args env h
    = (Normal (built d payload meta), h ++ builder_calls d args payload meta)
    /\ (is_function (get_field d "payload") = false ->
        payload = get_field d "payload")
    /\ (is_function (get_field d "meta") = false -> meta = get_field d "meta").
Proof.
  intros WB. unfold actionWith, transform, builder_calls.
  destruct (is_function (get_field d "payload")) eqn:Ep;
  destruct (is_function (get_field d "meta")) eqn:Em;
  rewrite !run_bind.
  - destruct (WB h) as (_ & _ & Ht).
    destruct (Ht (get_field d "payload") args) as [pv Epv].
    rewrite (run_perform_returned _ _ _ _ Epv), run_bind.
    destruct (WB (h ++ [(Transform (get_field d "payload") args, Returned pv)]))
      as (_ & _ & Ht1).
    destruct (Ht1 (get_field d "meta") args) as [mv Emv].
    rewrite (run_perform_returned _ _ _ _ Emv).
    exists pv, mv. rewrite <- app_assoc. by repeat split.
  - destruct (WB h) as (_ & _ & Ht).
    destruct (Ht (get_field d "payload") args) as [pv Epv].
    rewrite (run_perform_returned _ _ _ _ Epv), run_bind.
    eexists pv, _. rewrite app_nil_r. by repeat split.
  - unfold ret at 1; cbv beta iota. rewrite run_bind.
    destruct (WB h) as (_ & _ & Ht).
    destruct (Ht (get_field d "meta") args) as [mv Emv].
    rewrite (run_perform_returned _ _ _ _ Emv).
    eexists _, mv. by repeat split.
  - eexists _, _. rewrite app_nil_r. by repeat split.
Qed.

Lemma transport_remote_only : remote_only transport.
Proof. intros c o Hc. by destruct c. Qed.

Lemma on_object_remote_only : remote_only on_object.
Proof. intros c o Hc. by destruct c. Qed.

Lemma asked_remote_only : remote_only asked.
Proof. intros c o Hc. by destruct c. Qed.

Lemma transport_coercion_blind : coercion_blind transport.
Proof. by intros o name args r _. Qed.

Lemma asked_coercion_blind : coercion_blind asked.
Proof. intros o name args r Hn. unfold asked. simpl. by rewrite Hn. Qed.

Section Remote.
Context {X : Type} (p : entry -> option X) (Hp : remote_only p).

Lemma report_invalid_quiet action errs : quiet p (report_invalid action errs).
Proof. quiet_tac Hp. Qed.

Lemma request_error_quiet {A} action rt message :
  quiet p (@request_error A action rt message).
Proof. quiet_tac Hp. Qed.

Lemma bailout_block_quiet action rt bailout :
  quiet p (bailout_block action rt bailout).
Proof. quiet_tac Hp. Qed.

Lemma endpoint_block_quiet action rt endpoint :
  quiet p (endpoint_block action rt endpoint).
Proof. quiet_tac Hp. Qed.

Lemma headers_block_quiet action rt headers :
  quiet p (headers_block action rt headers).
Proof. quiet_tac Hp. Qed.

Lemma options_block_quiet action rt options :
  quiet p (options_block action rt options).
Proof. quiet_tac Hp. Qed.

Lemma request_block_quiet action rt : quiet p (request_block action rt).
Proof. quiet_tac Hp. Qed.

Lemma try_method_quiet o name :
  coercion_blind p -> coercion name = true -> quiet p (try_method o name).
Proof.
  intros Hc Hn. unfold try_method, call_method.
  assert (Q : quiet p (r ← perform (Method o name []); ret (as_primitive r))).
  { apply quiet_bind; [|intros r; apply quiet_ret].
    apply quiet_perform. intros r. by apply Hc. }
  destruct (own_method o name) as [m|]; [|done].
  destruct (is_function m); [done|apply quiet_ret].
Qed.

Lemma template_text_quiet v : coercion_blind p -> quiet p (template_text v).
Proof.
  intros Hc. unfold template_text.
  apply quiet_bind.
  - unfold to_primitive. destruct (as_primitive v); [apply quiet_ret|].
    apply quiet_bind; [by apply try_method_quiet|].
    intros [q|]; [apply quiet_ret|].
    apply quiet_bind; [by apply try_method_quiet|].
    intros [q|]; [apply quiet_ret|apply quiet_throw].
  - intros q. destruct (to_string q); [apply quiet_ret|apply quiet_throw].
Qed.

Lemma cache_catch_quiet {A} action rt e :
  coercion_blind p -> quiet p (@cache_catch A action rt e).
Proof.
  intros Hc. unfold cache_catch.
  apply quiet_bind; [apply quiet_get_prop|intros m].
  apply quiet_bind; [by apply template_text_quiet|intros text].
  quiet_tac Hp.
Qed.

Lemma fetch_catch_quiet {A} action rt e : quiet p (@fetch_catch A action rt e).
Proof. unfold fetch_catch. quiet_tac Hp. Qed.

End Remote.

(** The cache is not the transport, the transport is not the cache. *)
Lemma cache_block_quiet_transport action rt st endpoint cache :
  quiet transport (cache_block action rt st endpoint cache).
Proof.
  unfold cache_block. apply quiet_if; [|apply quiet_ret].
  apply quiet_try_catch;
    [quiet_tac transport_remote_only
    |intros e; apply cache_catch_quiet;
      [apply transport_remote_only|apply transport_coercion_blind]].
Qed.

Lemma fetch_block_quiet_on_object action rt endpoint options m b c headers :
  quiet on_object (fetch_block action rt endpoint options m b c headers).
Proof.
  unfold fetch_block. apply quiet_try_catch;
    [quiet_tac on_object_remote_only
    |intros e; apply fetch_catch_quiet, on_object_remote_only].
Qed.

(** In the ok branch nothing follows the failed read of [action]: the cache
    is never written. *)
Lemma response_block_quiet_on_object action st ft endpoint cache res :
  quiet on_object (response_block action st ft endpoint cache res).
Proof. quiet_tac on_object_remote_only. Qed.

Lemma fetch_block_quiet_asked action rt endpoint options m b c headers :
  quiet asked (fetch_block action rt endpoint options m b c headers).
Proof.
  unfold fetch_block. apply quiet_try_catch;
    [quiet_tac asked_remote_only
    |intros e; apply fetch_catch_quiet, asked_remote_only].
Qed.

Lemma response_block_quiet_asked action st ft endpoint cache res :
  quiet asked (response_block action st ft endpoint cache res).
Proof. quiet_tac asked_remote_only. Qed.

Lemma response_block_quiet_transport action st ft endpoint cache res :
  quiet transport (response_block action st ft endpoint cache res).
Proof. quiet_tac transport_remote_only. Qed.

Lemma emitted_snoc_next h a o :
  emitted (h ++ [(Next a, o)]) = emitted h ++ [a].
Proof. unfold emitted. by rewrite omap_app. Qed.

Lemma omap_snoc_none {X} (p : entry -> option X) h e :
  p e = None -> omap p (h ++ [e]) = omap p h.
Proof. intros E. rewrite omap_app; simpl. rewrite E. apply app_nil_r. Qed.

(** The error event of a catch block: with well-behaved collaborators it is
    dispatched, it is the only thing dispatched, and the function returns. *)
Lemma request_error_spec {A} env h action rt message :
  well_behaved env ->
  exists meta v h',
    @request_error A action rt message env h = (Return v, h')
    /\ emitted h'
       = emitted h
         ++ [built (error_descriptor rt message) (RequestError message) meta]
    /\ fetched h' = fetched h
    /\ method_calls h' = method_calls h.
Proof.
  intros WB. unfold request_error, getState.
  destruct (WB h) as ([s Es] & _ & _).
  rewrite run_bind, (run_perform_returned _ _ _ _ Es), run_bind.
  set (h1 := h ++ _).
  destruct (actionWith_total env h1 (error_descriptor rt message)
              [action; s] WB) as (pv & mv & h2 & E2 & Hp & _).
  rewrite E2, run_bind. unfold next.
  destruct (WB h2) as (_ & Hn & _).
  destruct (Hn (built (error_descriptor rt message) pv mv)) as [v Ev].
  rewrite (run_perform_returned _ _ _ _ Ev).
  rewrite error_descriptor_payload in Hp. rewrite Hp in * by done.
  exists mv, v. eexists. split; [reflexivity|].
  assert (Q : forall X (p : entry -> option X),
             (forall f a o, p (Transform f a, o) = None) ->
             p (GetState, Returned s) = None -> omap p h2 = omap p h).
  { intros X p Hp1 Hp2.
    pose proof (actionWith_quiet p (error_descriptor rt message) [action; s]
                  Hp1 env h1) as Q.
    rewrite E2 in Q; simpl in Q. rewrite Q. by apply omap_snoc_none. }
  split; [|split].
  - rewrite emitted_snoc_next. f_equal. by apply Q.
  - unfold fetched. rewrite omap_snoc_none by done. by apply Q.
  - unfold method_calls. rewrite omap_snoc_none by done. by apply Q.
Qed.

Lemma request_error_never_normal {A} env h action rt message a h' :
  @request_error A action rt message env h <> (Normal a, h').
Proof.
  unfold request_error. rewrite run_bind.
  destruct (getState env h) as [[s|v|e] h1]; [|done..].
  rewrite run_bind.
  destruct (actionWith _ _ env h1) as [[ev|v|e] h2]; [|done..].
  rewrite run_bind.
  by destruct (next ev env h2) as [[w|v|e] h3].
Qed.

(** ** The blocks one by one *)

Lemma try_catch_normal {A} (m : M A) handler env h a h' :
  (forall e h1 a' h2, handler e env h1 <> (Normal a', h2)) ->
  try_catch m handler env h = (Normal a, h') -> m env h = (Normal a, h').
Proof.
  intros Hh. unfold try_catch.
  destruct (m env h) as [[x|v|e] h1]; try done.
  intros E. by apply Hh in E.
Qed.

Lemma call_with_state_normal env h f v h' :
  (state ← getState; invoke f [state]) env h = (Normal v, h') ->
  emitted h' = emitted h
  /\ exists s, env h GetState = Returned s
               /\ env (h ++ [(GetState, Returned s)]) (Invoke f [s]) = Returned v.
Proof.
  unfold getState, invoke. rewrite run_bind, run_perform.
  destruct (env h GetState) as [s|e] eqn:Es; [|done].
  rewrite run_perform.
  destruct (env _ (Invoke f [s])) as [w|e] eqn:Ew; [|done].
  intros [= <- <-]. split; [|by exists s].
  unfold emitted. by rewrite !omap_snoc_none.
Qed.

Ltac resolver_normal :=
  intros E;
  match goal with
  | |- context [resolved _ ?raw _] =>
      unfold resolved; destruct (is_function raw) eqn:Ef
  end;
  [ apply try_catch_normal in E;
    [ apply call_with_state_normal in E as (? & s & ? & ?); split; [done|];
      eexists; exists s; split; eassumption
    | intros; apply request_error_never_normal ]
  | by injection E as <- <- ].

Lemma endpoint_block_normal env h action rt raw v h' :
  endpoint_block action rt raw env h = (Normal v, h') ->
  emitted h' = emitted h /\ resolved env raw v.
Proof. unfold endpoint_block. resolver_normal. Qed.

Lemma headers_block_normal env h action rt raw v h' :
  headers_block action rt raw env h = (Normal v, h') ->
  emitted h' = emitted h /\ resolved env raw v.
Proof. unfold headers_block. resolver_normal. Qed.

Lemma options_block_normal env h action rt raw v h' :
  options_block action rt raw env h = (Normal v, h') ->
  emitted h' = emitted h /\ resolved env raw v.
Proof. unfold options_block. resolver_normal. Qed.

Lemma bailout_block_normal env h action rt bailout u h' :
  bailout_block action rt bailout env h = (Normal u, h') ->
  emitted h' = emitted h.
Proof.
  unfold bailout_block. intros E. apply try_catch_normal in E;
    [|intros; apply request_error_never_normal].
  revert E. rewrite run_bind.
  destruct (is_boolean bailout && truthy bailout); [done|].
  destruct (is_function bailout).
  - unfold getState, invoke. rewrite !run_bind, run_perform.
    destruct (env h GetState) as [s|e]; [|done].
    rewrite run_bind, run_perform.
    destruct (env _ (Invoke bailout [s])) as [w|e]; [|done].
    unfold ret at 1; cbv beta iota.
    destruct (truthy w); [done|]. intros [= _ <-].
    unfold emitted. by rewrite !omap_snoc_none.
  - unfold ret at 1; cbv beta iota. by intros [= _ <-].
Qed.

Lemma cache_catch_never_normal {A} env h action rt e a h' :
  @cache_catch A action rt e env h <> (Normal a, h').
Proof.
  unfold cache_catch. rewrite run_bind.
  destruct (get_prop e "message" env h) as [[m|?|?] h1]; [|done..].
  rewrite run_bind.
  destruct (template_text m env h1) as [[text|?|?] h2]; [|done..].
  apply request_error_never_normal.
Qed.

Lemma fetch_catch_never_normal {A} env h action rt e a h' :
  @fetch_catch A action rt e env h <> (Normal a, h').
Proof.
  unfold fetch_catch, get_prop. rewrite run_bind.
  destruct (nullish e); [done|]. apply request_error_never_normal.
Qed.

(** What the cache block asks of the cache: nothing, or [has] alone, or
    [has] answered with a truthy value and then [get] for the same key.
    After [has] and [get] have both answered, the success event is built
    from the cached value and dispatched, and the function returns. *)
Lemma cache_block_calls env h action rt st endpoint cache :
  let r := cache_block action rt st endpoint cache env h in
  let has := Method cache "has" [endpoint] in
  let get := Method cache "get" [endpoint] in
  exists calls,
    requests r.2 = requests h ++ calls
    /\ (calls = []
        \/ (exists o, calls = [(has, o)])
        \/ (exists hit o,
              truthy hit = true
              /\ calls = [(has, Returned hit); (get, o)]
              /\ (forall u, r.1 <> Normal u)
              /\ (well_behaved env -> forall cached, o = Returned cached ->
                  exists state payload meta v,
                    let args := [action; state; fakeJsonResponse cached] in
                    let h1 := h ++ hit_calls cache endpoint hit state cached in
                    let h2 := h1 ++ builder_calls st args payload meta in
                    r.1 = Return v
                    /\ emitted r.2 = emitted h ++ [built st payload meta]
                    /\ r.2 = h2 ++ [(Next (built st payload meta), Returned v)]
                    /\ actionWith st args env h1
                       = (Normal (built st payload meta), h2)))).
Proof.
  intros r has get. subst r. unfold cache_block.
  destruct (truthy cache); [|exists []; split; [by rewrite app_nil_r|by left]].
  unfold try_catch, call_method. rewrite run_bind, run_perform. fold has.
  pose proof (fun A e h => @cache_catch_quiet _ asked
                asked_remote_only A action rt e asked_coercion_blind env h)
    as Hq.
  assert (Hhas : forall o, requests (h ++ [(has, o)])
                           = requests h ++ [(has, o)]).
  { intros o. unfold requests. by rewrite omap_app. }
  destruct (env h has) as [hit|e] eqn:Ehas.
  2:{ exists [(has, Thrown e)]. split; [|right; left; by eexists].
      unfold requests in *. by rewrite Hq, <- Hhas. }
  destruct (truthy hit) eqn:Ehit.
  2:{ exists [(has, Returned hit)]. split; [apply Hhas|]. right; left; by eexists. }
  set (h1 := h ++ [(has, Returned hit)]).
  unfold getState. rewrite run_bind, run_perform.
  destruct (env h1 GetState) as [s|e] eqn:Es.
  2:{ exists [(has, Returned hit)]. split; [|right; left; by eexists].
      unfold requests in *. rewrite Hq, omap_snoc_none by done.
      apply Hhas. }
  set (h2 := h1 ++ [(GetState, Returned s)]).
  rewrite run_bind, run_perform. fold get.
  set (h3 := h2 ++ [(get, env h2 get)]).
  assert (H3 : requests h3
               = requests h ++ [(has, Returned hit); (get, env h2 get)]).
  { unfold h3, h2, requests. rewrite omap_app, omap_snoc_none by done.
    fold (requests h1). unfold h1. rewrite Hhas.
    by rewrite <- app_assoc. }
  exists [(has, Returned hit); (get, env h2 get)].
  destruct (env h2 get) as [cached|e] eqn:Eget.
  2:{ split; [unfold requests in *; by rewrite Hq|].
      right; right. exists hit, (Thrown e). repeat split; try done.
      intros u Hu. destruct (cache_catch _ _ _ _ _) as [c h'] eqn:Ec.
      simpl in Hu; subst c. by apply cache_catch_never_normal in Ec. }
  rewrite run_bind.
  pose proof (actionWith_quiet asked st
                [action; s; fakeJsonResponse cached] (fun _ _ _ => eq_refl)
                env h3) as Qa.
  pose proof (actionWith_quiet sent st
                [action; s; fakeJsonResponse cached] (fun _ _ _ => eq_refl)
                env h3) as Qs.
  destruct (actionWith st _ env h3) as [[ev|v|e] h4] eqn:Ea; simpl in Qa, Qs.
  - unfold next. rewrite run_bind, run_perform.
    set (h5 := h4 ++ _).
    assert (H5 : requests h5 = requests h3).
    { unfold h5, requests. by rewrite omap_snoc_none. }
    destruct (env h4 (Next ev)) as [v|e] eqn:En.
    + split; [simpl; by rewrite H5, <- H3|].
      right; right. exists hit, (Returned cached). repeat split; try done.
      intros WB cached' [= <-].
      destruct (actionWith_run env h3 st
                  [action; s; fakeJsonResponse cached] WB)
        as (pv & mv & E4 & _).
      assert (H3' : h3 = h ++ hit_calls cache endpoint hit s cached)
        by (unfold h3, h2, h1, hit_calls; by rewrite <- !app_assoc).
      rewrite Ea in E4. injection E4 as -> ->.
      exists s, pv, mv, v. cbv zeta. rewrite <- H3'.
      split; [done|]. split; [|split; [done|exact Ea]].
      simpl. unfold h5. rewrite emitted_snoc_next. f_equal.
      unfold emitted in *. rewrite Qs. unfold h3, h2, h1.
      by rewrite !omap_snoc_none.
    + split; [unfold requests in *; by rewrite Hq, H5, <- H3|].
      right; right. exists hit, (Returned cached). repeat split; try done.
      * intros u Hu. destruct (cache_catch _ _ _ _ _) as [c h'] eqn:Ec.
        simpl in Hu; subst c. by apply cache_catch_never_normal in Ec.
      * intros WB. destruct (WB h4) as (_ & Hn & _).
        destruct (Hn ev) as [v Ev]. congruence.
  - split; [simpl; unfold requests in *; by rewrite Qa|].
    right; right. exists hit, (Returned cached). repeat split; try done.
    intros WB.
    destruct (actionWith_total env h3 st
                [action; s; fakeJsonResponse cached] WB)
      as (pv & mv & h4' & E4 & _). congruence.
  - split; [unfold requests in *; by rewrite Hq, Qa|].
    right; right. exists hit, (Returned cached). repeat split; try done.
    + intros u Hu. destruct (cache_catch _ _ _ _ _) as [c h'] eqn:Ec.
      simpl in Hu; subst c. by apply cache_catch_never_normal in Ec.
    + intros WB.
      destruct (actionWith_total env h3 st
                  [action; s; fakeJsonResponse cached] WB)
        as (pv & mv & h4' & E4 & _). congruence.
Qed.

(** The transport is called once, with the object literal of line 140. *)
Lemma fetch_block_cases env h action rt endpoint options m b c headers :
  let call := Fetch endpoint (fetch_init options m b c headers) in
  let r := fetch_block action rt endpoint options m b c headers env h in
  exists o,
    fetched r.2 = fetched h ++ [(call, o)]
    /\ match o with
       | Returned res => r = (Normal res, h ++ [(call, o)])
       | Thrown e => forall u, r.1 <> Normal u
       end.
Proof.
  intros call r. subst r. unfold fetch_block, try_catch, fetch.
  rewrite run_perform. fold call.
  assert (Hf : forall o, fetched (h ++ [(call, o)]) = fetched h ++ [(call, o)]).
  { intros o. unfold fetched. by rewrite omap_app. }
  destruct (env h call) as [res|e] eqn:E.
  - exists (Returned res). split; [apply Hf|done].
  - exists (Thrown e). split.
    + unfold fetched in *.
      by rewrite (fetch_catch_quiet transport transport_remote_only), Hf.
    + intros u Hu. destruct (fetch_catch _ _ _ _ _) as [x h'] eqn:Ec.
      simpl in Hu; subst x. by apply fetch_catch_never_normal in Ec.
Qed.

(** Line 157: an ok response never gets past the read of [action]. *)
Lemma response_block_ok env h action st ft endpoint cache res :
  truthy (get_field res "ok") = true ->
  response_block action st ft endpoint cache res env h
  = (Throw (ReferenceError "action"), h).
Proof.
  intros Hok. unfold response_block, get_prop. rewrite run_bind.
  destruct (nullish res) eqn:En; [by destruct res|].
  unfold ret at 1; cbv beta iota. by rewrite Hok.
Qed.

(** ** The pipeline as a whole *)

(** The transport is called at most once, with the fields of the call
    description over those of the options, and an ok answer ends in the
    [ReferenceError] of line 157. *)
Lemma process_valid_transport env action c t :
  process_valid action env [] = (c, t) ->
  let callAPI := get_field action CALL_API in
  fetched t = []
  \/ exists endpoint options headers o,
       resolved env (with_default (get_field callAPI "options") (VObj ∅))
         options
       /\ resolved env (get_field callAPI "headers") headers
       /\ fetched t
          = [(Fetch endpoint
                (fetch_init options (get_field callAPI "method")
                   (get_field callAPI "body")
                   (get_field callAPI "credentials") headers), o)]
       /\ (forall res, o = Returned res ->
           truthy (get_field res "ok") = true ->
           c = Throw (ReferenceError "action")).
Proof.
  intros R callAPI. subst callAPI. revert R.
  enter_pipeline; [by intros [= <- <-]; left..|].
  set (callAPI := get_field action CALL_API).
  run_block (fun env h => bailout_block_quiet transport transport_remote_only
               action rt (get_field callAPI "bailout") env h) u1 h1 E1 Q1;
    [|by intros [= <- <-]; left..].
  run_block (fun env h => endpoint_block_quiet transport transport_remote_only
               action rt (get_field callAPI "endpoint") env h) url h2 E2 Q2;
    [|intros [= <- <-]; left; unfold fetched; congruence..].
  run_block (fun env h => cache_block_quiet_transport action rt st url
               (get_field callAPI "cache") env h) u3 h3 E3 Q3;
    [|intros [= <- <-]; left; unfold fetched; congruence..].
  run_block (fun env h => headers_block_quiet transport transport_remote_only
               action rt (get_field callAPI "headers") env h) hdrs h4 E4 Q4;
    [|intros [= <- <-]; left; unfold fetched; congruence..].
  apply headers_block_normal in E4 as [_ Hres].
  run_block (fun env h => options_block_quiet transport transport_remote_only
               action rt
               (with_default (get_field callAPI "options") (VObj ∅)) env h)
    opts h5 E5 Q5;
    [|intros [= <- <-]; left; unfold fetched; congruence..].
  apply options_block_normal in E5 as [_ Hopts].
  run_block (fun env h => request_block_quiet transport transport_remote_only
               action rt env h) u6 h6 E6 Q6;
    [|intros [= <- <-]; left; unfold fetched; congruence..].
  rewrite run_bind.
  match goal with
  | |- context [fetch_block ?a ?b ?c ?d ?e ?f ?g ?i env ?h] =>
      destruct (fetch_block_cases env h a b c d e f g i) as [o [Hf Ho]]
  end.
  assert (F6 : fetched h6 = []) by (unfold fetched; congruence).
  rewrite F6 in Hf; simpl in Hf.
  intros R. right. eexists _, _, _, o. split; [exact Hopts|].
  split; [exact Hres|].
  destruct o as [res|e].
  - rewrite Ho in R, Hf. simpl in Hf. split.
    + match type of R with
      | response_block ?a ?b ?c ?d ?e ?f env ?h = _ =>
          pose proof (response_block_quiet_transport a b c d e f env h) as Q7
      end.
      rewrite R in Q7. simpl in Q7. unfold fetched in *. by rewrite Q7.
    + intros res' [= <-] Hok. rewrite response_block_ok in R by done.
      by injection R as <- _.
  - destruct (fetch_block _ _ _ _ _ _ _ _ env h6) as [[x|v|e'] h7];
      simpl in *; [by destruct (Ho x)|injection R as <- <-; by split..].
Qed.

(** What the pipeline asks of the cache, and what a hit leads to. *)
Lemma process_valid_cache env action c t :
  process_valid action env [] = (c, t) ->
  let callAPI := get_field action CALL_API in
  let cache := get_field callAPI "cache" in
  let st := (normalizeTypeDescriptors (get_field callAPI "types")).1.2 in
  requests t = []
  \/ (exists endpoint o, requests t = [(Method cache "has" [endpoint], o)])
  \/ (exists endpoint hit o,
        truthy hit = true
        /\ requests t = [(Method cache "has" [endpoint], Returned hit);
                             (Method cache "get" [endpoint], o)]
        /\ fetched t = []
        /\ (well_behaved env -> forall cached, o = Returned cached ->
            exists pre state payload meta v,
              let args := [action; state; fakeJsonResponse cached] in
              let h1 := pre ++ hit_calls cache endpoint hit state cached in
              let h2 := h1 ++ builder_calls st args payload meta in
              c = Return v
              /\ emitted pre = []
              /\ emitted t = [built st payload meta]
              /\ t = h2 ++ [(Next (built st payload meta), Returned v)]
              /\ actionWith st args env h1
                 = (Normal (built st payload meta), h2))).
Proof.
  intros R callAPI cache st'. subst callAPI cache st'. revert R.
  enter_pipeline; [by intros [= <- <-]; left..|].
  set (callAPI := get_field action CALL_API). simpl.
  run_block (fun env h => bailout_block_quiet asked asked_remote_only
               action rt (get_field callAPI "bailout") env h) u1 h1 E1 Q1;
    [|by intros [= <- <-]; left..].
  pose proof (bailout_block_quiet transport transport_remote_only
                action rt (get_field callAPI "bailout") env []) as F1.
  rewrite E1 in F1; simpl in F1.
  apply bailout_block_normal in E1 as S1.
  run_block (fun env h => endpoint_block_quiet asked asked_remote_only
               action rt (get_field callAPI "endpoint") env h) url h2 E2 Q2;
    [|intros [= <- <-]; left; unfold requests; congruence..].
  pose proof (endpoint_block_quiet transport transport_remote_only
                action rt (get_field callAPI "endpoint") env h1) as F2.
  rewrite E2 in F2; simpl in F2.
  apply endpoint_block_normal in E2 as [S2 _].
  rewrite run_bind.
  destruct (cache_block_calls env h2 action rt st url
              (get_field callAPI "cache")) as (calls & Hc & Hshape).
  pose proof (cache_block_quiet_transport action rt st url
                (get_field callAPI "cache") env h2) as F3.
  assert (M2 : requests h2 = []) by (unfold requests; congruence).
  assert (F2' : fetched h2 = []) by (unfold fetched; congruence).
  assert (S2' : emitted h2 = []) by (by rewrite S2, S1).
  rewrite M2 in Hc. simpl in Hc. rewrite S2' in Hshape. simpl in Hshape.
  destruct (cache_block action rt st url (get_field callAPI "cache") env h2)
    as [[u3|v|e] h3] eqn:E3; simpl in *.
  - (* no hit: the rest leaves the cache alone *)
    intros R.
    assert (requests t = calls) as ->.
    { rewrite <- Hc. revert R.
      run_block (fun env h => headers_block_quiet asked
                   asked_remote_only action rt
                   (get_field callAPI "headers") env h) hdrs h4 E4 Q4;
        [|intros [= <- <-]; done..].
      run_block (fun env h => options_block_quiet asked
                   asked_remote_only action rt
                   (with_default (get_field callAPI "options") (VObj ∅))
                   env h) opts h5 E5 Q5;
        [|intros [= <- <-]; unfold requests; congruence..].
      run_block (fun env h => request_block_quiet asked
                   asked_remote_only action rt env h) u6 h6 E6 Q6;
        [|intros [= <- <-]; unfold requests; congruence..].
      run_block (fun env h => fetch_block_quiet_asked action rt url opts
                   (get_field callAPI "method") (get_field callAPI "body")
                   (get_field callAPI "credentials") hdrs env h) res h7 E7 Q7;
        [|intros [= <- <-]; unfold requests; congruence..].
      intros R.
      pose proof (response_block_quiet_asked action st ft url
                    (get_field callAPI "cache") res env h7) as Q8.
      rewrite R in Q8; simpl in Q8. unfold requests. congruence. }
    destruct Hshape as [->|[[o ->]|(hit & o & _ & _ & Hn & _)]].
    + by left.
    + right; left. by exists url, o.
    + by destruct (Hn u3).
  - intros [= <- <-]. rewrite Hc.
    destruct Hshape as [->|[[o ->]|(hit & o & Hhit & -> & _ & Hwb)]].
    + by left.
    + right; left. by exists url, o.
    + right; right. exists url, hit, o.
      split; [done|]. split; [done|].
      split; [unfold fetched in *; congruence|].
      intros WB cached Ho.
      destruct (Hwb WB cached Ho) as (s0 & pv & mv & v0 & Ev & Hem & Ht & Ha).
      injection Ev as <-. by exists h2, s0, pv, mv, v.
  - intros [= <- <-]. rewrite Hc.
    destruct Hshape as [->|[[o ->]|(hit & o & Hhit & -> & _ & Hwb)]].
    + by left.
    + right; left. by exists url, o.
    + right; right. exists url, hit, o.
      split; [done|]. split; [done|].
      split; [unfold fetched in *; congruence|].
      intros WB cached Ho.
      by destruct (Hwb WB cached Ho) as (? & ? & ? & ? & ? & _).
Qed.

End Blocks.

(** * The properties of the specification *)
Section Claims.
Context `{Imports}.

(** The three ways through [apiMiddleware]. *)
Lemma apiMiddleware_cases env action :
  (isRSAA action = false
   /\ apiMiddleware action env []
      = (v ← next action; @return_ value v) env [])
  \/ (isRSAA action = true /\ validateRSAA action <> []
      /\ apiMiddleware action env []
         = report_invalid action (validateRSAA action) env [])
  \/ (isRSAA action = true /\ validateRSAA action = []
      /\ apiMiddleware action env [] = process_valid action env []).
Proof.
  unfold apiMiddleware. destruct (isRSAA action); [|by left].
  destruct (validateRSAA action); [by right; right|by right; left].
Qed.

Lemma forwarded env action :
  (v ← next action; @return_ value v) env []
  = (match env [] (Next action) with
     | Returned v => Return v
     | Thrown e => Throw e
     end, [(Next action, env [] (Next action))]).
Proof.
  unfold next. rewrite run_bind, run_perform.
  by destruct (env [] (Next action)).
Qed.

(** C9. An action that is not an RSAA goes to [next] as it is: that call
    is the only external call of the run, and the run settles the way
    [next] answered. *)
Theorem non_rsaa_is_forwarded env action :
  isRSAA action = false ->
  run env action
  = (env [] (Next action), [(Next action, env [] (Next action))]).
Proof.
  intros Hno. unfold run.
  destruct (apiMiddleware_cases env action) as [[_ E]|[[? _]|[? _]]];
    [|congruence..].
  rewrite E, forwarded. unfold settle; simpl.
  by destruct (env [] (Next action)).
Qed.

(** *** What a run asks of the transport and of the cache *)

Lemma lookup_omap {X} (p : entry -> option X) (t : trace) i e x :
  t !! i = Some e -> p e = Some x -> x ∈ omap p t.
Proof.
  intros Hi Hp. apply list_elem_of_omap. exists e. split; [|done].
  by apply list_elem_of_lookup_2 in Hi.
Qed.

Lemma run_transport env action :
  let r := run env action in
  let callAPI := get_field action CALL_API in
  fetched r.2 = []
  \/ exists endpoint options headers o,
       resolved env (with_default (get_field callAPI "options") (VObj ∅))
         options
       /\ resolved env (get_field callAPI "headers") headers
       /\ fetched r.2
          = [(Fetch endpoint
                (fetch_init options (get_field callAPI "method")
                   (get_field callAPI "body")
                   (get_field callAPI "credentials") headers), o)]
       /\ (forall res, o = Returned res ->
           truthy (get_field res "ok") = true ->
           r.1 = Thrown (ReferenceError "action")).
Proof.
  unfold run.
  destruct (apiMiddleware_cases env action)
    as [[_ E]|[(_ & _ & E)|(_ & _ & E)]]; rewrite E; clear E.
  - rewrite forwarded. by left.
  - left. simpl. apply (report_invalid_quiet transport transport_remote_only).
  - destruct (process_valid action env []) as [c t] eqn:R.
    destruct (process_valid_transport env action c t R)
      as [F|(url & opts & hdrs & o & Hopts & Hres & F & Hok)]; [by left|].
    right. exists url, opts, hdrs, o. repeat split; try done.
    intros res Ho Hres'. simpl. by rewrite (Hok res Ho Hres').
Qed.

Lemma run_cache env action :
  let r := run env action in
  let callAPI := get_field action CALL_API in
  let cache := get_field callAPI "cache" in
  let st := (normalizeTypeDescriptors (get_field callAPI "types")).1.2 in
  requests r.2 = []
  \/ (exists endpoint o, requests r.2 = [(Method cache "has" [endpoint], o)])
  \/ (exists endpoint hit o,
        truthy hit = true
        /\ requests r.2 = [(Method cache "has" [endpoint], Returned hit);
                               (Method cache "get" [endpoint], o)]
        /\ fetched r.2 = []
        /\ (well_behaved env -> forall cached, o = Returned cached ->
            exists pre state payload meta v,
              let args := [action; state; fakeJsonResponse cached] in
              let h1 := pre ++ hit_calls cache endpoint hit state cached in
              let h2 := h1 ++ builder_calls st args payload meta in
              emitted pre = []
              /\ emitted r.2 = [built st payload meta]
              /\ r = (Returned v,
                      h2 ++ [(Next (built st payload meta), Returned v)])
              /\ actionWith st args env h1
                 = (Normal (built st payload meta), h2))).
Proof.
  unfold run.
  destruct (apiMiddleware_cases env action)
    as [[_ E]|[(_ & _ & E)|(_ & _ & E)]]; rewrite E; clear E.
  - rewrite forwarded. by left.
  - left. simpl. apply (report_invalid_quiet asked asked_remote_only).
  - destruct (process_valid action env []) as [c t] eqn:R.
    destruct (process_valid_cache env action c t R)
      as [M|[M|(url & hit & o & Hhit & M & F & Hwb)]]; [by left|by right; left|].
    right; right. exists url, hit, o. repeat split; try done.
    intros WB cached Ho.
    destruct (Hwb WB cached Ho)
      as (pre & s0 & pv & mv & v & -> & Hpre & Hem & -> & Ha).
    by exists pre, s0, pv, mv, v.
Qed.

(** *** The object handed to the transport *)

Lemma fetch_init_fields options m b c headers :
  get_field (fetch_init options m b c headers) "method" = m
  /\ get_field (fetch_init options m b c headers) "body" = b
  /\ get_field (fetch_init options m b c headers) "credentials" = c
  /\ get_field (fetch_init options m b c headers) "headers"
     = (if truthy headers then headers else VObj ∅)
  /\ forall k, k ∉ ["method"; "body"; "credentials"; "headers"] ->
       get_field (fetch_init options m b c headers) k
       = default VUndefined (own_props options !! k).
Proof.
  unfold fetch_init, get_field. repeat split.
  - by rewrite !lookup_insert_ne, lookup_insert_eq by done.
  - by rewrite !lookup_insert_ne, lookup_insert_eq by done.
  - by rewrite lookup_insert_ne, lookup_insert_eq by done.
  - by rewrite lookup_insert_eq.
  - intros k Hk. rewrite !lookup_insert_ne; [done|..];
      intros <-; apply Hk; set_solver.
Qed.

(** C8. Whatever the transport is called with, its argument object is the
    object literal of lines 139-142 on the resolved options and headers of
    the call description: the [method], [body] and [credentials] are those
    of the call description and the [headers] are its resolved headers
    (the empty object when these are falsy), whatever the options bag
    holds under these names; every other entry is the entry of the options
    bag, which is the [options] of the call description (the empty object
    when there are none), or what it returned for the state when it is a
    callable. *)
Theorem transport_arguments env action i url init o :
  (run env action).2 !! i = Some (Fetch url init, o) ->
  let callAPI := get_field action CALL_API in
  let bag := with_default (get_field callAPI "options") (VObj ∅) in
  exists options headers,
    resolved env bag options
    /\ (is_function bag = false -> options = bag)
    /\ resolved env (get_field callAPI "headers") headers
    /\ init
       = fetch_init options (get_field callAPI "method")
           (get_field callAPI "body") (get_field callAPI "credentials")
           headers
    /\ get_field init "method" = get_field callAPI "method"
    /\ get_field init "body" = get_field callAPI "body"
    /\ get_field init "credentials" = get_field callAPI "credentials"
    /\ get_field init "headers" = (if truthy headers then headers else VObj ∅)
    /\ forall k, k ∉ ["method"; "body"; "credentials"; "headers"] ->
         get_field init k = default VUndefined (own_props options !! k).
Proof.
  intros Hi callAPI bag.
  assert (Hin : (Fetch url init, o) ∈ fetched (run env action).2)
    by (by eapply lookup_omap).
  destruct (run_transport env action)
    as [F|(url' & opts & hdrs & o' & Hopts & Hres & F & _)]; rewrite F in Hin.
  - by apply elem_of_nil in Hin.
  - apply list_elem_of_singleton in Hin. injection Hin as -> -> ->.
    exists opts, hdrs. split; [done|]. split.
    { intros Hf. unfold resolved in Hopts. fold callAPI bag in Hopts.
      by rewrite Hf in Hopts. }
    split; [done|]. split; [done|]. apply fetch_init_fields.
Qed.

(** C2 (the code departs from it). Whenever the transport has answered
    with a response whose [ok] is truthy, the run ends in the
    [ReferenceError] raised by line 157 reading its own [const action]: the
    promise of the middleware is rejected and no success event is sent. *)
Theorem ok_response_is_rejected env action i url init res :
  (run env action).2 !! i = Some (Fetch url init, Returned res) ->
  truthy (get_field res "ok") = true ->
  (run env action).1 = Thrown (ReferenceError "action").
Proof.
  intros Hi Hok.
  assert (Hin : (Fetch url init, Returned res) ∈ fetched (run env action).2)
    by (by eapply lookup_omap).
  destruct (run_transport env action)
    as [F|(url' & opts & hdrs & o' & _ & _ & F & Hrej)]; rewrite F in Hin.
  - by apply elem_of_nil in Hin.
  - apply list_elem_of_singleton in Hin. injection Hin as -> -> <-.
    by apply (Hrej res).
Qed.

(** C6. In every run, a [get] on the cache comes after a [has] on the
    same cache with the same key that answered with a truthy value, and
    [set] is not called at all (the only call of [set], line 162, lies
    behind the failing read of line 157). *)
Theorem cache_protocol env action :
  let t := (run env action).2 in
  (forall pre post cache args o,
      t = pre ++ (Method cache "get" args, o) :: post ->
      exists hit,
        (Method cache "has" args, Returned hit) ∈ pre /\ truthy hit = true)
  /\ (forall cache args o, (Method cache "set" args, o) ∉ t).
Proof.
  intros t. subst t. split.
  - intros pre post cache args o Ht.
    assert (Hm : requests (run env action).2
                 = requests pre ++ (Method cache "get" args, o)
                     :: requests post).
    { rewrite Ht. unfold requests. by rewrite omap_app. }
    destruct (run_cache env action)
      as [M|[(url & o' & M)|(url & hit & o' & Hhit & M & _)]];
      rewrite M in Hm.
    + by destruct (requests pre).
    + destruct (requests pre) as [|? [|]]; [|done..].
      by injection Hm.
    + destruct (requests pre) as [|e [|]] eqn:Hpre; [by injection Hm| |].
      * injection Hm as <- <- <- _ _. exists hit. split; [|done].
        assert (Hin : (Method (get_field (get_field action CALL_API) "cache")
                         "has" [url], Returned hit) ∈ requests pre)
          by (rewrite Hpre; apply list_elem_of_here).
        apply list_elem_of_omap in Hin as ([c1 o1] & Hin & Ho).
        unfold asked in Ho. simpl in Ho.
        destruct c1 as [| | | | |o2 name2 args2]; try done.
        destruct (coercion name2); [done|]. by injection Ho as -> -> -> ->.
      * injection Hm as _ _ Hm. by destruct l.
  - intros cache args o Hin.
    apply list_elem_of_lookup in Hin as [i Hi].
    assert (Hm : (Method cache "set" args, o) ∈ requests (run env action).2)
      by (by eapply lookup_omap).
    destruct (run_cache env action)
      as [M|[(url & o' & M)|(url & hit & o' & Hhit & M & _)]];
      rewrite M in Hm.
    + by apply elem_of_nil in Hm.
    + by apply list_elem_of_singleton in Hm.
    + apply elem_of_cons in Hm as [Hm|Hm]; [done|].
      by apply list_elem_of_singleton in Hm.
Qed.

(** C3 (as amended). When [has] answered with a truthy value and [get]
    with a cached value (state reader, [next] and transforms answering),
    the run is: some calls that reach neither [next] nor the transport,
    [has], the state, [get], the event builder on the success descriptor
    with the action, that state and the cached value dressed as a response,
    and [next] with the event built.  So the transport is not called and
    exactly one event is sent, the success event; no request event
    precedes it. *)
Theorem cache_hit_single_event env action i j cache key hit cached :
  well_behaved env ->
  let t := (run env action).2 in
  let callAPI := get_field action CALL_API in
  let successType :=
    (normalizeTypeDescriptors (get_field callAPI "types")).1.2 in
  t !! i = Some (Method cache "has" [key], Returned hit) ->
  truthy hit = true ->
  t !! j = Some (Method cache "get" [key], Returned cached) ->
  fetched t = []
  /\ exists pre state payload meta v,
       let args := [action; state; fakeJsonResponse cached] in
       let event := built successType payload meta in
       let h1 := pre ++ hit_calls cache key hit state cached in
       let h2 := h1 ++ builder_calls successType args payload meta in
       emitted t = [event]
       /\ emitted pre = []
       /\ run env action = (Returned v, h2 ++ [(Next event, Returned v)])
       /\ actionWith successType args env h1 = (Normal event, h2).
Proof.
  intros WB t callAPI successType Hi Hhit Hj. subst t.
  assert (Hh : (Method cache "has" [key], Returned hit)
                 ∈ requests (run env action).2)
    by (eapply lookup_omap; [exact Hi|done]).
  assert (Hg : (Method cache "get" [key], Returned cached)
                 ∈ requests (run env action).2)
    by (eapply lookup_omap; [exact Hj|done]).
  destruct (run_cache env action)
    as [M|[(url & o' & M)|(url & hit' & o' & _ & M & F & Hwb)]];
    rewrite M in Hg, Hh.
  - by apply elem_of_nil in Hg.
  - by apply list_elem_of_singleton in Hg.
  - apply elem_of_cons in Hg as [Hg|Hg]; [done|].
    apply list_elem_of_singleton in Hg. injection Hg as Hc Hk Ho.
    apply elem_of_cons in Hh as [Hh|Hh];
      [|by apply list_elem_of_singleton in Hh].
    injection Hh as _ _ Hhit'.
    split; [done|].
    destruct (Hwb WB cached (eq_sym Ho))
      as (pre & s0 & pv & mv & v & Hpre & Hem & Hrun & Ha).
    exists pre, s0, pv, mv, v. cbv zeta. subst hit' url cache.
    by repeat split.
Qed.

(** *** An invalid RSAA *)

Lemma report_invalid_run env action errs :
  nullish action = false ->
  nullish (get_field action CALL_API) = false ->
  let types := get_field (get_field action CALL_API) "types" in
  let event := invalid_event (first_type types) errs in
  report_invalid action errs env []
  = if truthy types && isArray types
    then (match env [] (Next event) with
          | Returned _ => Return VUndefined
          | Thrown e => Throw e
          end, [(Next event, env [] (Next event))])
    else (Return VUndefined, []).
Proof.
  intros Ha Hc types event. unfold report_invalid, get_prop.
  rewrite Ha. rewrite run_bind. unfold ret at 1. cbv beta iota.
  rewrite Hc. rewrite run_bind. unfold ret at 1. cbv beta iota.
  fold types. rewrite run_bind. destruct (truthy types && isArray types).
  - fold event. unfold next. rewrite run_perform.
    by destruct (env [] (Next event)).
  - done.
Qed.

(** Nothing but [next] is ever called for an invalid RSAA. *)
Lemma report_invalid_only_next env action errs c t :
  report_invalid action errs env [] = (c, t) ->
  applications t = []
  /\ forall ev, ev ∈ emitted t ->
       ev = invalid_event
              (first_type (get_field (get_field action CALL_API) "types")) errs.
Proof.
  assert (Hnil : applications [] = []
                 /\ forall ev, ev ∈ emitted [] ->
                      ev = invalid_event
                             (first_type
                                (get_field (get_field action CALL_API) "types"))
                             errs)
    by (split; [done|by intros ? ?%elem_of_nil]).
  unfold report_invalid, get_prop. rewrite run_bind.
  destruct (nullish action); [by intros [= <- <-]|].
  unfold ret at 1. cbv beta iota. rewrite run_bind.
  destruct (nullish (get_field action CALL_API)); [by intros [= <- <-]|].
  unfold ret at 1. cbv beta iota. rewrite run_bind.
  destruct (truthy _ && isArray _); [|by intros [= <- <-]].
  unfold next. rewrite run_perform.
  destruct (env [] (Next _)); intros [= <- <-];
    (split; [done|by intros ? ->%list_elem_of_singleton]).
Qed.

Lemma first_type_identifier d rest :
  typeof d = "string" \/ typeof d = "symbol" ->
  first_type (VArr (d :: rest)) = d.
Proof.
  intros [Hd|Hd]; destruct d; try done; unfold first_type; simpl;
    by rewrite andb_false_r.
Qed.

Lemma first_type_record fields t rest :
  fields !! "type" = Some t -> truthy t = true ->
  first_type (VArr (VObj fields :: rest)) = t.
Proof.
  intros Hf Ht. unfold first_type.
  change (get_field (VArr (VObj fields :: rest)) "0") with (VObj fields).
  unfold get_field. rewrite Hf. simpl. by rewrite Ht.
Qed.

(** C4 (as amended). An RSAA that fails validation, with a call
    description that is an object: when its [types] is an array, exactly
    one call is made, [next] with the event [{ type, payload: new
    InvalidRSAA(defects), error: true }], whose [type] is the first element
    of [types], or that element's own [type] when it has a truthy one (so
    a bare identifier, and the identifier of a record, are reported under
    their name; a missing or malformed first descriptor is reported all the
    same, under [undefined] or under the malformed value); when [types] is
    missing or not an array, nothing is called at all. *)
Theorem invalid_rsaa_report env action :
  isRSAA action = true ->
  validateRSAA action <> [] ->
  let callAPI := get_field action CALL_API in
  let types := get_field callAPI "types" in
  let event := invalid_event (first_type types) (validateRSAA action) in
  nullish action = false ->
  nullish callAPI = false ->
  ((run env action).2
   = if truthy types && isArray types
     then [(Next event, env [] (Next event))] else [])
  /\ get_field event "payload" = InvalidRSAA (validateRSAA action)
  /\ get_field event "error" = VBool true
  /\ get_field event "type" = first_type types
  /\ (forall d rest, types = VArr (d :: rest) ->
       typeof d = "string" \/ typeof d = "symbol" -> first_type types = d)
  /\ (forall fields t rest, types = VArr (VObj fields :: rest) ->
       fields !! "type" = Some t -> truthy t = true -> first_type types = t).
Proof.
  intros Hr Hv callAPI types event Ha Hc. split; [|split; [|split; [|split; [|split]]]].
  - unfold run.
    destruct (apiMiddleware_cases env action)
      as [[? _]|[(_ & _ & E)|(_ & ? & _)]]; [congruence| |done].
    rewrite E, report_invalid_run by done. fold callAPI types event.
    destruct (truthy types && isArray types); [|done].
    by destruct (env [] (Next event)).
  - done.
  - done.
  - done.
  - intros d rest ->. apply first_type_identifier.
  - intros fields t rest ->. apply first_type_record.
Qed.

(** A catch block's error event, step by step: read the state, build the
    event (the payload is the [RequestError] and no callable, so only the
    meta transform of the request descriptor can run), send it, return. *)
Lemma request_error_run {A} (env : oracle) (h : trace) action rt message :
  well_behaved env ->
  exists state meta v,
    let descriptor := error_descriptor rt message in
    let event := built descriptor (RequestError message) meta in
    @request_error A action rt message env h
    = (Return v,
       ((h ++ [(GetState, Returned state)])
          ++ builder_calls descriptor [action; state] (RequestError message)
               meta)
         ++ [(Next event, Returned v)]).
Proof.
  intros WB. unfold request_error, getState.
  destruct (WB h) as ([s Es] & _ & _).
  rewrite run_bind, (run_perform_returned _ _ _ _ Es), run_bind.
  destruct (actionWith_run env (h ++ [(GetState, Returned s)])
              (error_descriptor rt message) [action; s] WB)
    as (pv & mv & E & Hp & _).
  rewrite error_descriptor_payload in Hp. rewrite (Hp eq_refl) in E.
  rewrite E, run_bind. unfold next.
  match goal with
  | |- context [perform (Next ?ev) env ?h2] =>
      destruct (WB h2) as (_ & Hn & _); destruct (Hn ev) as [v Ev]
  end.
  rewrite (run_perform_returned _ _ _ _ Ev). by exists s, mv, v.
Qed.

(** The failure event, step by step: read the state, build the event from
    the failure descriptor with [error: true] (its payload and meta
    transforms run when they are callables), send it, return. *)
Lemma failure_event_run (env : oracle) (h : trace) action st ft endpoint
  cache res :
  well_behaved env ->
  nullish res = false ->
  truthy (get_field res "ok") = false ->
  exists state payload meta v,
    let descriptor := VObj (<["error" := VBool true]> (own_props ft)) in
    let event := built descriptor payload meta in
    response_block action st ft endpoint cache res env h
    = (Return v,
       ((h ++ [(GetState, Returned state)])
          ++ builder_calls descriptor [action; state; res] payload meta)
         ++ [(Next event, Returned v)]).
Proof.
  intros WB Hn Hok. unfold response_block, get_prop. rewrite Hn, run_bind.
  unfold ret at 1. cbv beta iota. rewrite Hok. unfold getState.
  destruct (WB h) as ([s Es] & _ & _).
  rewrite run_bind, (run_perform_returned _ _ _ _ Es), run_bind.
  destruct (actionWith_run env (h ++ [(GetState, Returned s)])
              (VObj (<["error" := VBool true]> (own_props ft)))
              [action; s; res] WB)
    as (pv & mv & E & _).
  rewrite E, run_bind. unfold next.
  match goal with
  | |- context [perform (Next ?ev) env ?h2] =>
      destruct (WB h2) as (_ & Hnx & _); destruct (Hnx ev) as [v Ev]
  end.
  rewrite (run_perform_returned _ _ _ _ Ev). by exists s, pv, mv, v.
Qed.

(** C10. For an RSAA that fails validation no callable is ever applied:
    the only thing a run can do is hand [next] the event whose payload is
    the [InvalidRSAA] object itself.  Every other error event goes through
    the event builder: the error event of a catch block and the failure
    event of a response that is not ok are built by [actionWith], which
    applies the transforms of the descriptor that are callables (for a
    catch block the payload is the [RequestError], so only the meta
    transform of the request descriptor can run). *)
Theorem invalid_event_is_raw (env : oracle) action :
  isRSAA action = true ->
  validateRSAA action <> [] ->
  well_behaved env ->
  let t := (run env action).2 in
  let types := get_field (get_field action CALL_API) "types" in
  (applications t = []
   /\ forall event, event ∈ emitted t ->
        event = invalid_event (first_type types) (validateRSAA action)
        /\ get_field event "payload" = InvalidRSAA (validateRSAA action))
  /\ (forall (h : trace) requestType message,
        exists state meta v,
          let descriptor := error_descriptor requestType message in
          let event := built descriptor (RequestError message) meta in
          @request_error value action requestType message env h
          = (Return v,
             ((h ++ [(GetState, Returned state)])
                ++ builder_calls descriptor [action; state]
                     (RequestError message) meta)
               ++ [(Next event, Returned v)]))
  /\ (forall (h : trace) successType failureType endpoint cache res,
        nullish res = false ->
        truthy (get_field res "ok") = false ->
        exists state payload meta v,
          let descriptor :=
            VObj (<["error" := VBool true]> (own_props failureType)) in
          let event := built descriptor payload meta in
          response_block action successType failureType endpoint cache res
            env h
          = (Return v,
             ((h ++ [(GetState, Returned state)])
                ++ builder_calls descriptor [action; state; res] payload meta)
               ++ [(Next event, Returned v)])).
Proof.
  intros Hr Hv WB t types. subst t types. split; [|split].
  - unfold run.
    destruct (apiMiddleware_cases env action)
      as [[? _]|[(_ & _ & E)|(_ & ? & _)]]; [congruence| |done].
    rewrite E. simpl.
    destruct (report_invalid action (validateRSAA action) env [])
      as [c t] eqn:R.
    destruct (report_invalid_only_next env action (validateRSAA action) c t R)
      as [Ha He].
    split; [done|]. intros event Hin. by rewrite (He event Hin).
  - intros h rt message. by apply request_error_run.
  - intros h st ft url cache res Hn Hok. by apply failure_event_run.
Qed.

(** *** Bailing out *)

Lemma get_field_nullish v k : nullish v = true -> get_field v k = VUndefined.
Proof. by destruct v. Qed.

Lemma error_event_fields fields message meta :
  let event :=
    built (error_descriptor (VObj fields) message) (RequestError message) meta
  in
  get_field event "type" = get_field (VObj fields) "type"
  /\ get_field event "payload" = RequestError message
  /\ get_field event "error" = VBool true.
Proof.
  intros event. subst event. split; [|split].
  - rewrite built_other by done. unfold error_descriptor, own_props, get_field.
    by rewrite !lookup_insert_ne by done.
  - apply built_payload.
  - rewrite built_other by done. unfold error_descriptor, own_props.
    by rewrite lookup_insert_eq.
Qed.

Lemma request_error_sends {A} env h h0 action rt message :
  well_behaved env -> emitted h = emitted h0 ->
  sends_request_error (@request_error A action rt message env h) h0 rt message.
Proof.
  intros WB Hh.
  destruct (request_error_spec (A:=A) env h action rt message WB)
    as (meta & v & h' & E & Hem & _).
  exists v, meta. cbv zeta. rewrite E. cbn [fst snd]. rewrite Hem, Hh.
  split; [done|]. split; [done|]. apply built_payload.
Qed.

Lemma bailout_block_true (env : oracle) (h : trace) action rt :
  bailout_block action rt (VBool true) env h = (Return VUndefined, h).
Proof. reflexivity. Qed.

Lemma bailout_block_truthy (env : oracle) (h : trace) action rt bailout s r :
  is_function bailout = true ->
  env h GetState = Returned s ->
  env (h ++ [(GetState, Returned s)]) (Invoke bailout [s]) = Returned r ->
  truthy r = true ->
  bailout_block action rt bailout env h
  = (Return VUndefined,
     h ++ [(GetState, Returned s)] ++ [(Invoke bailout [s], Returned r)]).
Proof.
  intros Hf Es Er Hr. destruct bailout; try done.
  unfold bailout_block, try_catch, getState, invoke. simpl andb. cbv iota.
  rewrite Hf, !run_bind, (run_perform_returned _ _ _ _ Es). cbv beta iota.
  rewrite run_bind, (run_perform_returned _ _ _ _ Er).
  unfold ret at 1. cbv beta iota. rewrite Hr. by rewrite <- app_assoc.
Qed.

Lemma bailout_block_throws (env : oracle) (h : trace) action rt bailout s e :
  is_function bailout = true ->
  env h GetState = Returned s ->
  env (h ++ [(GetState, Returned s)]) (Invoke bailout [s]) = Thrown e ->
  bailout_block action rt bailout env h
  = request_error action rt (VStr "[CALL_API].bailout function failed") env
      (h ++ [(GetState, Returned s)] ++ [(Invoke bailout [s], Thrown e)]).
Proof.
  intros Hf Es Ee. destruct bailout; try done.
  unfold bailout_block, try_catch, getState, invoke. simpl andb. cbv iota.
  rewrite Hf, !run_bind, (run_perform_returned _ _ _ _ Es). cbv beta iota.
  rewrite run_bind, (run_perform_thrown _ _ _ _ Ee).
  by rewrite <- app_assoc.
Qed.

(** A valid RSAA whose first block returns: the middleware returns. *)
Lemma process_valid_returns_in_bailout env action v t :
  nullish (get_field (get_field action CALL_API) "bailout") = false ->
  bailout_block action
    (normalizeTypeDescriptors
       (get_field (get_field action CALL_API) "types")).1.1
    (get_field (get_field action CALL_API) "bailout") env [] = (Return v, t) ->
  process_valid action env [] = (Return v, t).
Proof.
  intros Hb E. revert E. enter_pipeline.
  - by rewrite (get_field_nullish action), (get_field_nullish VUndefined) in Hb.
  - by rewrite get_field_nullish in Hb.
  - simpl. intros E. by rewrite run_bind, E.
Qed.

(** C7. A valid RSAA whose [bailout] is [true], or a callable that
    returns a truthy value for the current state, ends the run with
    nothing sent (and nothing else done).  When the callable throws and the
    collaborators are well-behaved, the run sends exactly one event and
    returns: the error event tagged with the [type] of the request
    descriptor, with a [RequestError] as payload and [error: true]. *)
Theorem bailout_stops (env : oracle) action :
  isRSAA action = true ->
  validateRSAA action = [] ->
  let callAPI := get_field action CALL_API in
  let bailout := get_field callAPI "bailout" in
  let requestType :=
    (normalizeTypeDescriptors (get_field callAPI "types")).1.1 in
  (bailout = VBool true -> run env action = (Returned VUndefined, []))
  /\ (forall s r,
        is_function bailout = true ->
        env [] GetState = Returned s ->
        env [(GetState, Returned s)] (Invoke bailout [s]) = Returned r ->
        truthy r = true ->
        run env action
        = (Returned VUndefined,
           [(GetState, Returned s); (Invoke bailout [s], Returned r)]))
  /\ (forall s e fields,
        is_function bailout = true ->
        well_behaved env ->
        requestType = VObj fields ->
        env [] GetState = Returned s ->
        env [(GetState, Returned s)] (Invoke bailout [s]) = Thrown e ->
        exists event v,
          (run env action).1 = Returned v
          /\ emitted (run env action).2 = [event]
          /\ fetched (run env action).2 = []
          /\ get_field event "type" = get_field requestType "type"
          /\ get_field event "payload"
             = RequestError (VStr "[CALL_API].bailout function failed")
          /\ get_field event "error" = VBool true).
Proof.
  intros Hr Hv callAPI bailout requestType.
  assert (E : apiMiddleware action env [] = process_valid action env []).
  { destruct (apiMiddleware_cases env action)
      as [[? _]|[(_ & ? & _)|(_ & _ & E)]]; [congruence|done|done]. }
  unfold run. rewrite E. clear E. split; [|split].
  - intros Hb.
    rewrite (process_valid_returns_in_bailout env action VUndefined []);
      [done|by fold callAPI bailout; rewrite Hb|].
    fold callAPI bailout. rewrite Hb. apply bailout_block_true.
  - intros s r Hf Es Er Ht.
    rewrite (process_valid_returns_in_bailout env action VUndefined
               [(GetState, Returned s); (Invoke bailout [s], Returned r)]);
      [done|by fold callAPI bailout; destruct bailout|].
    by apply (bailout_block_truthy env []).
  - intros s e fields Hf WB Hrt Es Ee.
    pose proof (bailout_block_throws env [] action requestType bailout s e
                  Hf Es Ee) as Eb. simpl in Eb.
    destruct (request_error_spec (A:=unit) env
                [(GetState, Returned s); (Invoke bailout [s], Thrown e)]
                action requestType
                (VStr "[CALL_API].bailout function failed") WB)
      as (meta & v & h' & Ereq & Hem & Hfe & _).
    rewrite Ereq in Eb.
    rewrite (process_valid_returns_in_bailout env action v h');
      [|by fold callAPI bailout; destruct bailout|done].
    eexists _, v. split; [done|]. split; [exact Hem|]. split; [exact Hfe|].
    rewrite Hrt. apply error_event_fields.
Qed.

(** *** The messages of the catch blocks *)

Lemma resolver_throws (env : oracle) (h : trace) action rt f s e text :
  env h GetState = Returned s ->
  env (h ++ [(GetState, Returned s)]) (Invoke f [s]) = Thrown e ->
  try_catch (state ← getState; invoke f [state])
    (fun _ => request_error action rt (VStr text)) env h
  = request_error action rt (VStr text) env
      (h ++ [(GetState, Returned s)] ++ [(Invoke f [s], Thrown e)]).
Proof.
  intros Es Ee. unfold try_catch, getState, invoke.
  rewrite run_bind, (run_perform_returned _ _ _ _ Es). cbv beta iota.
  rewrite (run_perform_thrown _ _ _ _ Ee). by rewrite <- app_assoc.
Qed.

Lemma sent_coercion_blind : coercion_blind sent.
Proof. by intros o name args r _. Qed.

Lemma template_text_emitted (env : oracle) (h : trace) v c h1 :
  template_text v env h = (c, h1) -> emitted h1 = emitted h.
Proof.
  intros E. pose proof (template_text_quiet sent v sent_coercion_blind env h)
    as Q.
  by rewrite E in Q.
Qed.

Lemma cache_catch_message {A} (env : oracle) (h : trace) action rt e text h1 :
  nullish e = false ->
  template_text (get_field e "message") env h = (Normal text, h1) ->
  @cache_catch A action rt e env h
  = request_error action rt
      (VStr ("[CALL_API].cache API function failed: " +:+ text)) env h1.
Proof.
  intros He Ht. unfold cache_catch, get_prop. rewrite He, run_bind.
  unfold ret at 1. cbv beta iota. by rewrite run_bind, Ht.
Qed.

Lemma emitted_app h1 h2 : emitted (h1 ++ h2) = emitted h1 ++ emitted h2.
Proof. unfold emitted. by rewrite omap_app. Qed.

(** C5 (as amended). With well-behaved collaborators, the [RequestError]
    of a failed stage carries: for the bailout, endpoint, headers and
    options callables a fixed text that names the stage; for a failed cache
    operation that text followed by the message of the thrown error, as
    the template literal of line 91 turns it into text; for a failed
    transport call the message of the thrown error itself. *)
Theorem request_error_messages (env : oracle) (h : trace) action requestType :
  well_behaved env ->
  (forall bailout s e,
      is_function bailout = true ->
      env h GetState = Returned s ->
      env (h ++ [(GetState, Returned s)]) (Invoke bailout [s]) = Thrown e ->
      sends_request_error (bailout_block action requestType bailout env h) h
        requestType (VStr "[CALL_API].bailout function failed"))
  /\ (forall endpoint s e,
        is_function endpoint = true ->
        env h GetState = Returned s ->
        env (h ++ [(GetState, Returned s)]) (Invoke endpoint [s]) = Thrown e ->
        sends_request_error (endpoint_block action requestType endpoint env h)
          h requestType (VStr "[CALL_API].endpoint function failed"))
  /\ (forall headers s e,
        is_function headers = true ->
        env h GetState = Returned s ->
        env (h ++ [(GetState, Returned s)]) (Invoke headers [s]) = Thrown e ->
        sends_request_error (headers_block action requestType headers env h)
          h requestType (VStr "[CALL_API].headers function failed"))
  /\ (forall options s e,
        is_function options = true ->
        env h GetState = Returned s ->
        env (h ++ [(GetState, Returned s)]) (Invoke options [s]) = Thrown e ->
        sends_request_error (options_block action requestType options env h)
          h requestType (VStr "[CALL_API].options function failed"))
  /\ (forall successType endpoint cache e text h1,
        truthy cache = true ->
        env h (Method cache "has" [endpoint]) = Thrown e ->
        nullish e = false ->
        template_text (get_field e "message") env
          (h ++ [(Method cache "has" [endpoint], Thrown e)])
        = (Normal text, h1) ->
        sends_request_error
          (cache_block action requestType successType endpoint cache env h)
          h requestType
          (VStr ("[CALL_API].cache API function failed: " +:+ text)))
  /\ (forall successType endpoint cache hit s e text h1,
        truthy cache = true ->
        env h (Method cache "has" [endpoint]) = Returned hit ->
        truthy hit = true ->
        env (h ++ [(Method cache "has" [endpoint], Returned hit)]) GetState
        = Returned s ->
        env ((h ++ [(Method cache "has" [endpoint], Returned hit)])
               ++ [(GetState, Returned s)]) (Method cache "get" [endpoint])
        = Thrown e ->
        nullish e = false ->
        template_text (get_field e "message") env
          (((h ++ [(Method cache "has" [endpoint], Returned hit)])
              ++ [(GetState, Returned s)])
             ++ [(Method cache "get" [endpoint], Thrown e)])
        = (Normal text, h1) ->
        sends_request_error
          (cache_block action requestType successType endpoint cache env h)
          h requestType
          (VStr ("[CALL_API].cache API function failed: " +:+ text)))
  /\ (forall endpoint options method body credentials headers e,
        env h (Fetch endpoint
                 (fetch_init options method body credentials headers))
        = Thrown e ->
        nullish e = false ->
        sends_request_error
          (fetch_block action requestType endpoint options method body
             credentials headers env h)
          h requestType (get_field e "message")).
Proof.
  intros WB. repeat split.
  - intros bailout s e Hf Es Ee.
    rewrite (bailout_block_throws env h action requestType bailout s e Hf Es Ee).
    apply request_error_sends; [done|]. by rewrite !emitted_app, !app_nil_r.
  - intros f s e Hf Es Ee. unfold endpoint_block. rewrite Hf.
    rewrite (resolver_throws env h action requestType f s e _ Es Ee).
    apply request_error_sends; [done|]. by rewrite !emitted_app, !app_nil_r.
  - intros f s e Hf Es Ee. unfold headers_block. rewrite Hf.
    rewrite (resolver_throws env h action requestType f s e _ Es Ee).
    apply request_error_sends; [done|]. by rewrite !emitted_app, !app_nil_r.
  - intros f s e Hf Es Ee. unfold options_block. rewrite Hf.
    rewrite (resolver_throws env h action requestType f s e _ Es Ee).
    apply request_error_sends; [done|]. by rewrite !emitted_app, !app_nil_r.
  - intros st url cache e text h1 Hc Ee He Ht.
    unfold cache_block, try_catch, call_method. rewrite Hc.
    rewrite run_bind, (run_perform_thrown _ _ _ _ Ee).
    rewrite (cache_catch_message _ _ _ _ _ text h1 He Ht).
    apply request_error_sends; [done|].
    rewrite (template_text_emitted _ _ _ _ _ Ht).
    by rewrite !emitted_app, !app_nil_r.
  - intros st url cache hit s e text h1 Hc Eh Hhit Es Ee He Ht.
    unfold cache_block, try_catch, call_method, getState. rewrite Hc.
    rewrite run_bind, (run_perform_returned _ _ _ _ Eh). cbv beta iota.
    rewrite Hhit. rewrite run_bind, (run_perform_returned _ _ _ _ Es).
    cbv beta iota.
    rewrite run_bind, (run_perform_thrown _ _ _ _ Ee).
    rewrite (cache_catch_message _ _ _ _ _ text h1 He Ht).
    apply request_error_sends; [done|].
    rewrite (template_text_emitted _ _ _ _ _ Ht).
    by rewrite !emitted_app, !app_nil_r.
  - intros url opts m b c hdrs e Ee He.
    unfold fetch_block, try_catch, fetch.
    rewrite (run_perform_thrown _ _ _ _ Ee).
    unfold fetch_catch, get_prop. rewrite He, run_bind.
    unfold ret at 1. cbv beta iota.
    apply request_error_sends; [done|]. by rewrite !emitted_app, !app_nil_r.
Qed.

End Claims.

(** * Beyond the specification: the network path and its edges *)

(** ** Histories only grow *)

Lemma grows_ret {A} (a : A) : grows (ret a).
Proof. intros env h. exists []. by rewrite app_nil_r. Qed.

Lemma grows_return {A} v : grows (@return_ A v).
Proof. intros env h. exists []. by rewrite app_nil_r. Qed.

Lemma grows_throw {A} e : grows (@throw A e).
Proof. intros env h. exists []. by rewrite app_nil_r. Qed.

Lemma grows_perform c : grows (perform c).
Proof. intros env h. by exists [(c, env h c)]. Qed.

Lemma grows_bind {A B} (m : M A) (k : A -> M B) :
  grows m -> (forall a, grows (k a)) -> grows (m ≫= k).
Proof.
  intros Hm Hk env h. rewrite run_bind.
  destruct (Hm env h) as [ext1 E1].
  destruct (m env h) as [[a|v|e] h1]; simpl in E1; subst h1;
    [|by exists ext1..].
  destruct (Hk a env (h ++ ext1)) as [ext2 E2].
  exists (ext1 ++ ext2). by rewrite E2, app_assoc.
Qed.

Lemma grows_try_catch {A} (m : M A) handler :
  grows m -> (forall e, grows (handler e)) -> grows (try_catch m handler).
Proof.
  intros Hm Hk env h. unfold try_catch.
  destruct (Hm env h) as [ext1 E1].
  destruct (m env h) as [[a|v|e] h1]; simpl in E1; subst h1;
    [by exists ext1..|].
  destruct (Hk e env (h ++ ext1)) as [ext2 E2].
  exists (ext1 ++ ext2). by rewrite E2, app_assoc.
Qed.

Lemma grows_if {A} (b : bool) (m1 m2 : M A) :
  grows m1 -> grows m2 -> grows (if b then m1 else m2).
Proof. by destruct b. Qed.

Lemma grows_get_prop v k : grows (get_prop v k).
Proof.
  unfold get_prop. destruct (nullish v); [apply grows_throw|apply grows_ret].
Qed.

Ltac grows_tac :=
  unfold request_error, fetch_catch, response_block, actionWith, getState,
    next, fetch, invoke, transform, call_method;
  repeat first [ apply grows_ret | apply (grows_ret (A:=value))
               | apply grows_return | apply grows_throw
               | apply grows_get_prop | apply grows_perform
               | apply grows_bind; [|intros ?]
               | apply grows_try_catch; [|intros ?]
               | apply grows_if
               | match goal with
                 | |- grows (read_binding _ _) => apply grows_throw
                 end ].

(** ** Counting the events sent *)

Lemma emits_quiet {A} n (m : M A) : quiet sent m -> emits_at_most n m.
Proof. intros Hq env h. unfold emitted. rewrite Hq. lia. Qed.

Lemma emits_weaken {A} n n' (m : M A) :
  (n <= n')%nat -> emits_at_most n m -> emits_at_most n' m.
Proof. intros Hn Hm env h. specialize (Hm env h). lia. Qed.

Lemma emits_next a : emits_at_most 1 (next a).
Proof.
  intros env h. unfold next. rewrite run_perform. cbn [snd].
  rewrite emitted_snoc_next, length_app. simpl. lia.
Qed.

Lemma emits_bind_quiet {A B} n (m : M A) (k : A -> M B) :
  quiet sent m -> (forall a, emits_at_most n (k a)) -> emits_at_most n (m ≫= k).
Proof.
  intros Hm Hk env h. rewrite run_bind. specialize (Hm env h).
  destruct (m env h) as [[a|v|e] h1]; simpl in Hm; unfold emitted in *.
  - specialize (Hk a env h1). unfold emitted in Hk. rewrite Hm in Hk. lia.
  - cbn [snd]. rewrite Hm. lia.
  - cbn [snd]. rewrite Hm. lia.
Qed.

Lemma emits_bind_last {A B} n (m : M A) (k : A -> M B) :
  emits_at_most n m -> (forall a, quiet sent (k a)) -> emits_at_most n (m ≫= k).
Proof.
  intros Hm Hk env h. rewrite run_bind. specialize (Hm env h).
  destruct (m env h) as [[a|v|e] h1]; simpl in Hm; [|done..].
  unfold emitted in *. by rewrite Hk.
Qed.

Lemma emits_try_catch {A} n1 n2 (m : M A) handler :
  emits_at_most n1 m -> (forall e, emits_at_most n2 (handler e)) ->
  emits_at_most (n1 + n2) (try_catch m handler).
Proof.
  intros Hm Hk env h. unfold try_catch. specialize (Hm env h).
  destruct (m env h) as [[a|v|e] h1]; simpl in Hm; cbn [snd]; [lia..|].
  specialize (Hk e env h1). lia.
Qed.

Lemma emits_if {A} n (b : bool) (m1 m2 : M A) :
  emits_at_most n m1 -> emits_at_most n m2 ->
  emits_at_most n (if b then m1 else m2).
Proof. by destruct b. Qed.

(** The quiet part of a block, for the events sent. *)
Ltac silent :=
  unfold actionWith, getState, fetch, invoke, transform, call_method;
  repeat quiet_step I.

Lemma request_error_emits {A} action rt message :
  emits_at_most 1 (@request_error A action rt message).
Proof.
  unfold request_error.
  apply emits_bind_quiet; [silent|intros state].
  apply emits_bind_quiet; [silent|intros event].
  apply emits_bind_last; [apply emits_next|intros v; apply quiet_return].
Qed.

Section Network.
Context `{Imports}.

Lemma report_invalid_emits action errs :
  emits_at_most 1 (report_invalid action errs).
Proof.
  unfold report_invalid.
  apply emits_bind_quiet; [silent|intros callAPI].
  apply emits_bind_quiet; [silent|intros types].
  apply emits_bind_last; [|intros v; apply quiet_return].
  apply emits_if; [apply emits_next|apply emits_quiet, quiet_ret].
Qed.

Lemma bailout_block_emits action rt bailout :
  emits_at_most 1 (bailout_block action rt bailout).
Proof.
  unfold bailout_block.
  apply (emits_try_catch 0 1); [|intros e; apply request_error_emits].
  apply emits_quiet. silent.
Qed.

Lemma endpoint_block_emits action rt endpoint :
  emits_at_most 1 (endpoint_block action rt endpoint).
Proof.
  unfold endpoint_block. apply emits_if; [|apply emits_quiet, quiet_ret].
  apply (emits_try_catch 0 1); [|intros e; apply request_error_emits].
  apply emits_quiet. silent.
Qed.

Lemma headers_block_emits action rt headers :
  emits_at_most 1 (headers_block action rt headers).
Proof.
  unfold headers_block. apply emits_if; [|apply emits_quiet, quiet_ret].
  apply (emits_try_catch 0 1); [|intros e; apply request_error_emits].
  apply emits_quiet. silent.
Qed.

Lemma options_block_emits action rt options :
  emits_at_most 1 (options_block action rt options).
Proof.
  unfold options_block. apply emits_if; [|apply emits_quiet, quiet_ret].
  apply (emits_try_catch 0 1); [|intros e; apply request_error_emits].
  apply emits_quiet. silent.
Qed.

Lemma cache_catch_emits {A} action rt e :
  emits_at_most 1 (@cache_catch A action rt e).
Proof.
  unfold cache_catch.
  apply emits_bind_quiet; [silent|intros message].
  apply emits_bind_quiet;
    [apply template_text_quiet, sent_coercion_blind|intros text].
  apply request_error_emits.
Qed.

(** The cache block can send two events: the success event, and then, when
    its dispatch fails, the error event of the catch block. *)
Lemma cache_block_emits action rt st endpoint cache :
  emits_at_most 2 (cache_block action rt st endpoint cache).
Proof.
  unfold cache_block. apply emits_if; [|apply emits_quiet, quiet_ret].
  apply (emits_try_catch 1 1); [|intros e; apply cache_catch_emits].
  apply emits_bind_quiet; [silent|intros hit].
  apply emits_if; [|apply emits_quiet, quiet_ret].
  apply emits_bind_quiet; [silent|intros state].
  apply emits_bind_quiet; [silent|intros cached].
  apply emits_bind_quiet; [silent|intros event].
  apply emits_bind_last; [apply emits_next|intros v; apply quiet_return].
Qed.

Lemma request_block_emits action rt : emits_at_most 1 (request_block action rt).
Proof.
  unfold request_block.
  apply emits_bind_quiet; [silent|intros state].
  apply emits_bind_quiet; [silent|intros event]. apply emits_next.
Qed.

Lemma fetch_catch_emits {A} action rt e :
  emits_at_most 1 (@fetch_catch A action rt e).
Proof.
  unfold fetch_catch. apply emits_bind_quiet; [silent|intros message].
  apply request_error_emits.
Qed.

Lemma response_block_emits action st ft endpoint cache res :
  emits_at_most 1 (response_block action st ft endpoint cache res).
Proof.
  unfold response_block. apply emits_bind_quiet; [silent|intros ok].
  apply emits_if; [apply emits_quiet, quiet_bind_throw|].
  apply emits_bind_quiet; [silent|intros state].
  apply emits_bind_quiet; [silent|intros event].
  apply emits_bind_last; [apply emits_next|intros v; apply quiet_return].
Qed.

(** ** The blocks that let the pipeline go on *)

(** The cache block lets the pipeline go on only when there is no cache or
    [has] answered with a falsy value; it has sent nothing then. *)
Lemma cache_block_normal (env : oracle) (h : trace) action rt st endpoint
  cache u h' :
  cache_block action rt st endpoint cache env h = (Normal u, h') ->
  emitted h' = emitted h
  /\ (truthy cache = false /\ method_calls h' = method_calls h
      \/ truthy cache = true
         /\ exists hit,
              truthy hit = false
              /\ method_calls h'
                 = method_calls h
                   ++ [(Method cache "has" [endpoint], Returned hit)]).
Proof.
  unfold cache_block. destruct (truthy cache); [|intros [= _ <-]; by auto].
  intros E. apply try_catch_normal in E;
    [|intros; apply cache_catch_never_normal].
  revert E. unfold call_method. rewrite run_bind, run_perform.
  destruct (env h (Method cache "has" [endpoint])) as [hit|e]; [|done].
  destruct (truthy hit) eqn:Ehit.
  - rewrite run_bind. destruct (getState env _) as [[s|?|?] h1]; [|done..].
    rewrite run_bind. destruct (perform _ env h1) as [[c|?|?] h2]; [|done..].
    rewrite run_bind. destruct (actionWith _ _ env h2) as [[ev|?|?] h3];
      [|done..].
    rewrite run_bind. by destruct (next ev env h3) as [[v|?|?] h4].
  - intros [= _ <-]. split.
    + unfold emitted. by rewrite omap_snoc_none.
    + right. split; [done|]. exists hit. split; [done|].
      unfold method_calls. by rewrite omap_app.
Qed.

(** The request block lets the pipeline go on only after [next] has
    returned from the event built of the request descriptor. *)
Lemma request_block_normal (env : oracle) (h : trace) action rt v h' :
  request_block action rt env h = (Normal v, h') ->
  exists state event ha,
    env h GetState = Returned state
    /\ actionWith rt [action; state] env (h ++ [(GetState, Returned state)])
       = (Normal event, ha)
    /\ emitted ha = emitted h
    /\ fetched ha = fetched h
    /\ method_calls ha = method_calls h
    /\ h' = ha ++ [(Next event, Returned v)].
Proof.
  unfold request_block, getState. rewrite run_bind, run_perform.
  destruct (env h GetState) as [s|e] eqn:Es; [|done].
  rewrite run_bind.
  pose proof (fun X (p : entry -> option X) Hp =>
                actionWith_quiet p rt [action; s] Hp env
                  (h ++ [(GetState, Returned s)])) as Q.
  destruct (actionWith rt [action; s] env (h ++ [(GetState, Returned s)]))
    as [[ev|?|?] ha] eqn:Ea; [|done..].
  unfold next. rewrite run_perform.
  destruct (env ha (Next ev)) as [w|e] eqn:En; [|done].
  intros [= <- <-]. exists s, ev, ha. split; [done|]. split; [exact Ea|].
  unfold emitted, fetched, method_calls.
  rewrite !Q by done. simpl. by rewrite !omap_snoc_none.
Qed.

(** ** The run around the transport call

    When the transport is called at all, the run up to there is: calls that
    send nothing (and ask the cache at most for a [has] that is answered
    falsy), the request event built and handed to [next], which returned;
    then the one call of the transport, on the resolved endpoint with the
    resolved options and headers; then the response block or the catch
    block of the transport. *)
Lemma process_valid_network (env : oracle) action c t :
  process_valid action env [] = (c, t) ->
  let callAPI := get_field action CALL_API in
  let cache := get_field callAPI "cache" in
  let types := normalizeTypeDescriptors (get_field callAPI "types") in
  fetched t = []
  \/ exists pre state event ha v url options headers,
       let init :=
         fetch_init options (get_field callAPI "method")
           (get_field callAPI "body") (get_field callAPI "credentials")
           headers in
       let h := ha ++ [(Next event, Returned v)] in
       resolved env (get_field callAPI "endpoint") url
       /\ resolved env (get_field callAPI "headers") headers
       /\ resolved env (with_default (get_field callAPI "options") (VObj ∅))
            options
       /\ emitted pre = []
       /\ actionWith types.1.1 [action; state] env
            (pre ++ [(GetState, Returned state)]) = (Normal event, ha)
       /\ emitted ha = []
       /\ fetched h = []
       /\ (truthy cache = false /\ method_calls h = []
           \/ truthy cache = true
              /\ exists hit,
                   truthy hit = false
                   /\ method_calls h
                      = [(Method cache "has" [url], Returned hit)])
       /\ (c, t)
          = match env h (Fetch url init) with
            | Returned res =>
                response_block action types.1.2 types.2 url cache res env
                  (h ++ [(Fetch url init, Returned res)])
            | Thrown e =>
                fetch_catch action types.1.1 e env
                  (h ++ [(Fetch url init, Thrown e)])
            end.
Proof.
  intros R callAPI cache types. subst callAPI cache types. revert R.
  enter_pipeline; [by intros [= <- <-]; left..|].
  set (callAPI := get_field action CALL_API). cbn [fst snd].
  run_block (fun env h => bailout_block_quiet transport transport_remote_only
               action rt (get_field callAPI "bailout") env h) u1 h1 E1 Q1;
    [|by intros [= <- <-]; left..].
  pose proof (bailout_block_quiet on_object on_object_remote_only
                action rt (get_field callAPI "bailout") env []) as M1.
  rewrite E1 in M1; simpl in M1.
  apply bailout_block_normal in E1 as S1.
  run_block (fun env h => endpoint_block_quiet transport transport_remote_only
               action rt (get_field callAPI "endpoint") env h) url h2 E2 Q2;
    [|intros [= <- <-]; left; unfold fetched; congruence..].
  pose proof (endpoint_block_quiet on_object on_object_remote_only
                action rt (get_field callAPI "endpoint") env h1) as M2.
  rewrite E2 in M2; simpl in M2.
  apply endpoint_block_normal in E2 as [S2 Rurl].
  run_block (fun env h => cache_block_quiet_transport action rt st url
               (get_field callAPI "cache") env h) u3 h3 E3 Q3;
    [|intros [= <- <-]; left; unfold fetched; congruence..].
  apply cache_block_normal in E3 as [S3 M3].
  run_block (fun env h => headers_block_quiet transport transport_remote_only
               action rt (get_field callAPI "headers") env h) hdrs h4 E4 Q4;
    [|intros [= <- <-]; left; unfold fetched; congruence..].
  pose proof (headers_block_quiet on_object on_object_remote_only
                action rt (get_field callAPI "headers") env h3) as M4.
  rewrite E4 in M4; simpl in M4.
  apply headers_block_normal in E4 as [S4 Rhdrs].
  run_block (fun env h => options_block_quiet transport transport_remote_only
               action rt
               (with_default (get_field callAPI "options") (VObj ∅)) env h)
    opts h5 E5 Q5;
    [|intros [= <- <-]; left; unfold fetched; congruence..].
  pose proof (options_block_quiet on_object on_object_remote_only
                action rt
                (with_default (get_field callAPI "options") (VObj ∅)) env h4)
    as M5.
  rewrite E5 in M5; simpl in M5.
  apply options_block_normal in E5 as [S5 Ropts].
  run_block (fun env h => request_block_quiet transport transport_remote_only
               action rt env h) u6 h6 E6 Q6;
    [|intros [= <- <-]; left; unfold fetched; congruence..].
  apply request_block_normal in E6
    as (state & event & ha & Es & Ea & Sa & Fa & Ma & ->).
  assert (S5' : emitted h5 = []) by (by rewrite S5, S4, S3, S2, S1).
  assert (M5' : truthy (get_field callAPI "cache") = false
                /\ method_calls h5 = []
                \/ truthy (get_field callAPI "cache") = true
                   /\ exists hit,
                        truthy hit = false
                        /\ method_calls h5
                           = [(Method (get_field callAPI "cache") "has" [url],
                               Returned hit)]).
  { unfold method_calls in *. rewrite M5, M4.
    destruct M3 as [[Hc M3]|(Hc & hit & Hhit & M3)]; rewrite M3, M2, M1;
      [by left|right; split; [done|by exists hit]]. }
  intros R. right. exists h5, state, event, ha, u6, url, opts, hdrs.
  cbv zeta. split; [done|]. split; [done|]. split; [done|].
  split; [done|]. split; [done|]. split; [by rewrite Sa|].
  split; [unfold fetched in *; rewrite omap_snoc_none by done; congruence|].
  split.
  { unfold method_calls in *. rewrite omap_snoc_none by done.
    by rewrite Ma. }
  rewrite <- R. rewrite run_bind. unfold fetch_block, try_catch, fetch.
  rewrite run_perform.
  destruct (env _ (Fetch url _)) as [res|e]; [done|].
  destruct (fetch_catch _ _ _ _ _) as [[x|w|e'] h7] eqn:Ec; [|done..].
  by apply fetch_catch_never_normal in Ec.
Qed.

Lemma run_network (env : oracle) action :
  let callAPI := get_field action CALL_API in
  let cache := get_field callAPI "cache" in
  let types := normalizeTypeDescriptors (get_field callAPI "types") in
  fetched (run env action).2 = []
  \/ exists pre state event ha v url options headers,
       let init :=
         fetch_init options (get_field callAPI "method")
           (get_field callAPI "body") (get_field callAPI "credentials")
           headers in
       let h := ha ++ [(Next event, Returned v)] in
       resolved env (get_field callAPI "endpoint") url
       /\ resolved env (get_field callAPI "headers") headers
       /\ resolved env (with_default (get_field callAPI "options") (VObj ∅))
            options
       /\ emitted pre = []
       /\ actionWith types.1.1 [action; state] env
            (pre ++ [(GetState, Returned state)]) = (Normal event, ha)
       /\ emitted ha = []
       /\ fetched h = []
       /\ (truthy cache = false /\ method_calls h = []
           \/ truthy cache = true
              /\ exists hit,
                   truthy hit = false
                   /\ method_calls h
                      = [(Method cache "has" [url], Returned hit)])
       /\ run env action
          = settle
              match env h (Fetch url init) with
              | Returned res =>
                  response_block action types.1.2 types.2 url cache res env
                    (h ++ [(Fetch url init, Returned res)])
              | Thrown e =>
                  fetch_catch action types.1.1 e env
                    (h ++ [(Fetch url init, Thrown e)])
              end.
Proof.
  intros callAPI cache types. unfold run.
  destruct (apiMiddleware_cases env action)
    as [[_ E]|[(_ & _ & E)|(_ & _ & E)]]; rewrite E; clear E.
  - rewrite forwarded. by left.
  - left. simpl. apply (report_invalid_quiet transport transport_remote_only).
  - destruct (process_valid action env []) as [c t] eqn:R.
    destruct (process_valid_network env action c t R)
      as [F|(pre & state & event & ha & v & url & opts & hdrs & Hn)];
      [by left|].
    right. exists pre, state, event, ha, v, url, opts, hdrs.
    cbv zeta in *. destruct Hn as (?&?&?&?&?&?&?&?&Hrun).
    repeat (split; [done|]). by rewrite Hrun.
Qed.

End Network.

Section Runs.
Context `{Imports}.

Lemma builder_calls_silent d args payload meta :
  emitted (builder_calls d args payload meta) = []
  /\ fetched (builder_calls d args payload meta) = []
  /\ method_calls (builder_calls d args payload meta) = [].
Proof.
  unfold builder_calls.
  by destruct (is_function (get_field d "payload")),
       (is_function (get_field d "meta")).
Qed.

Lemma omap_tail_nil {X} (p : entry -> option X) (h ext : trace) :
  omap p (h ++ ext) = omap p h -> omap p ext = [].
Proof.
  rewrite omap_app. intros E.
  apply (app_inv_head (omap p h)). by rewrite app_nil_r.
Qed.

(** What follows the transport call calls neither the transport nor the
    cache again. *)
Lemma after_transport (env : oracle) (h : trace) action rt st ft url cache
  call o :
  let r := match o with
           | Returned res =>
               response_block action st ft url cache res env (h ++ [(call, o)])
           | Thrown e => fetch_catch action rt e env (h ++ [(call, o)])
           end in
  exists rest,
    r.2 = (h ++ [(call, o)]) ++ rest
    /\ fetched rest = [] /\ method_calls rest = [].
Proof.
  intros r. subst r. destruct o as [res|e].
  - assert (G : grows (response_block action st ft url cache res))
      by grows_tac.
    destruct (G env (h ++ [(call, Returned res)])) as [rest E].
    exists rest. split; [done|].
    pose proof (response_block_quiet_transport action st ft url cache res env
                  (h ++ [(call, Returned res)])) as Qt.
    pose proof (response_block_quiet_on_object action st ft url cache res env
                  (h ++ [(call, Returned res)])) as Qo.
    rewrite E in Qt, Qo. split; by eapply omap_tail_nil.
  - assert (G : grows (@fetch_catch value action rt e)) by grows_tac.
    destruct (G env (h ++ [(call, Thrown e)])) as [rest E].
    exists rest. split; [done|].
    pose proof (@fetch_catch_quiet _ transport transport_remote_only value
                  action rt e env (h ++ [(call, Thrown e)])) as Qt.
    pose proof (@fetch_catch_quiet _ on_object on_object_remote_only value
                  action rt e env (h ++ [(call, Thrown e)])) as Qo.
    rewrite E in Qt, Qo. split; by eapply omap_tail_nil.
Qed.

(** A transport call found in the trace of a run is the transport call of
    the run. *)
Lemma run_at_transport (env : oracle) action i url init o :
  (run env action).2 !! i = Some (Fetch url init, o) ->
  let callAPI := get_field action CALL_API in
  let cache := get_field callAPI "cache" in
  let types := normalizeTypeDescriptors (get_field callAPI "types") in
  exists pre state event ha v options headers rest,
    let h := ha ++ [(Next event, Returned v)] in
    init = fetch_init options (get_field callAPI "method")
             (get_field callAPI "body") (get_field callAPI "credentials")
             headers
    /\ resolved env (get_field callAPI "endpoint") url
    /\ resolved env (with_default (get_field callAPI "options") (VObj ∅))
         options
    /\ emitted pre = []
    /\ actionWith types.1.1 [action; state] env
         (pre ++ [(GetState, Returned state)]) = (Normal event, ha)
    /\ emitted ha = []
    /\ fetched ha = []
    /\ (truthy cache = false /\ method_calls h = []
        \/ truthy cache = true
           /\ exists hit,
                truthy hit = false
                /\ method_calls h
                   = [(Method cache "has" [url], Returned hit)])
    /\ run env action
       = settle
           match o with
           | Returned res =>
               response_block action types.1.2 types.2 url cache res env
                 (h ++ [(Fetch url init, o)])
           | Thrown e =>
               fetch_catch action types.1.1 e env (h ++ [(Fetch url init, o)])
           end
    /\ (run env action).2 = (h ++ [(Fetch url init, o)]) ++ rest
    /\ fetched rest = [] /\ method_calls rest = [].
Proof.
  intros Hi callAPI cache types.
  assert (Hin : (Fetch url init, o) ∈ fetched (run env action).2)
    by (eapply lookup_omap; [exact Hi|done]).
  destruct (run_network env action)
    as [F|(pre & state & event & ha & v & url' & opts & hdrs & Hn)].
  { rewrite F in Hin. by apply elem_of_nil in Hin. }
  cbv zeta in Hn.
  destruct Hn as (Rurl & _ & Ropts & Spre & Ea & Sa & Fh & Mh & Hrun).
  fold callAPI cache types in Rurl, Ropts, Ea, Mh, Hrun.
  set (h := ha ++ [(Next event, Returned v)]) in *.
  set (init' := fetch_init opts _ _ _ hdrs) in *.
  set (o' := env h (Fetch url' init')) in *.
  assert (Hr : run env action
               = settle
                   match o' with
                   | Returned res =>
                       response_block action types.1.2 types.2 url' cache res
                         env (h ++ [(Fetch url' init', o')])
                   | Thrown e =>
                       fetch_catch action types.1.1 e env
                         (h ++ [(Fetch url' init', o')])
                   end).
  { rewrite Hrun. by destruct o'. }
  destruct (after_transport env h action types.1.1 types.1.2 types.2 url'
              cache (Fetch url' init') o') as (rest & Et & Ft & Mt).
  assert (Ht : (run env action).2 = (h ++ [(Fetch url' init', o')]) ++ rest)
    by (by rewrite Hr).
  rewrite Ht in Hin. unfold fetched in Hin, Ft, Fh.
  rewrite !omap_app, Fh, Ft in Hin. simpl in Hin.
  apply list_elem_of_singleton in Hin. injection Hin as -> -> ->.
  exists pre, state, event, ha, v, opts, hdrs, rest. cbv zeta.
  fold h. repeat (split; [done|]).
  split; [|done]. unfold fetched. subst h. rewrite omap_snoc_none in Fh by done.
  exact Fh.
Qed.

Lemma settle_trace (r : completion value * trace) : (settle r).2 = r.2.
Proof. done. Qed.

Lemma emitted_builder_calls d args payload meta :
  emitted (builder_calls d args payload meta) = [].
Proof. apply builder_calls_silent. Qed.

(** ** The request event and the transport *)

(** The transport is called on the resolved endpoint: the [endpoint] of
    the call description when that is no callable, else what the callable
    returned for the state. The keys of the second argument other than
    [method], [body], [credentials] and [headers] are those of the
    resolved [options], which default to the empty object: without
    [options] in the call description there are no other keys (lines 41,
    62-76, 115-129 and 139-142). *)
Theorem transport_target (env : oracle) action i url init o :
  (run env action).2 !! i = Some (Fetch url init, o) ->
  let callAPI := get_field action CALL_API in
  resolved env (get_field callAPI "endpoint") url
  /\ (is_function (get_field callAPI "endpoint") = false ->
      url = get_field callAPI "endpoint")
  /\ (exists options,
        resolved env (with_default (get_field callAPI "options") (VObj ∅))
          options
        /\ forall k, k ∉ ["method"; "body"; "credentials"; "headers"] ->
             get_field init k = default VUndefined (own_props options !! k))
  /\ (get_field callAPI "options" = VUndefined ->
      forall k, k ∉ ["method"; "body"; "credentials"; "headers"] ->
        get_field init k = VUndefined).
Proof.
  intros Hi callAPI.
  destruct (run_at_transport env action i url init o Hi)
    as (pre & state & event & ha & v & opts & hdrs & rest & Hn).
  cbv zeta in Hn. destruct Hn as (-> & Rurl & Ropts & _).
  fold callAPI in Rurl, Ropts.
  split; [done|]. split.
  { intros Hf. unfold resolved in Rurl. by rewrite Hf in Rurl. }
  split.
  { exists opts. split; [done|]. apply fetch_init_fields. }
  intros Ho k Hk. rewrite Ho in Ropts. unfold resolved in Ropts.
  simpl in Ropts. subst opts.
  by rewrite (proj2 (proj2 (proj2 (proj2 (fetch_init_fields _ _ _ _ _)))) k Hk).
Qed.

(** ** After the transport has answered *)

(** A response that is not ok: the run sends two events and no more, the
    request event and then the event built from the failure descriptor
    with [error: true], whatever the descriptor itself says of [error];
    its transforms get the action, the state read after the response and
    the response. The run returns what [next] returned for the second
    event (lines 165-172). *)
Theorem failure_response_run (env : oracle) action i url init res :
  well_behaved env ->
  (run env action).2 !! i = Some (Fetch url init, Returned res) ->
  nullish res = false ->
  truthy (get_field res "ok") = false ->
  let failureType :=
    (normalizeTypeDescriptors
       (get_field (get_field action CALL_API) "types")).2 in
  let descriptor := failure_descriptor failureType in
  exists ha request v1 state payload meta v2,
    let failure := built descriptor payload meta in
    run env action
    = (Returned v2,
       (((ha ++ [(Next request, Returned v1); (Fetch url init, Returned res)])
           ++ [(GetState, Returned state)])
          ++ builder_calls descriptor [action; state; res] payload meta)
         ++ [(Next failure, Returned v2)])
    /\ emitted ha = []
    /\ emitted (run env action).2 = [request; failure]
    /\ get_field failure "error" = VBool true
    /\ forall k, k ∉ ["payload"; "meta"; "error"] ->
         get_field failure k = default VUndefined (own_props failureType !! k).
Proof.
  intros WB Hi Hn Hok failureType descriptor.
  destruct (run_at_transport env action i url init (Returned res) Hi)
    as (pre & state & event & ha & v & opts & hdrs & rest & Hr).
  cbv zeta in Hr.
  destruct Hr as (_ & _ & _ & _ & _ & Sa & _ & _ & Hrun & _).
  destruct (failure_event_run env
              ((ha ++ [(Next event, Returned v)])
                 ++ [(Fetch url init, Returned res)])
              action
              (normalizeTypeDescriptors
                 (get_field (get_field action CALL_API) "types")).1.2
              failureType url
              (get_field (get_field action CALL_API) "cache") res WB Hn Hok)
    as (s2 & pv & mv & v2 & E).
  cbv zeta in E. fold failureType in Hrun. rewrite E in Hrun.
  exists ha, event, v, s2, pv, mv, v2. cbv zeta.
  rewrite <- (app_assoc ha) in Hrun. cbn [app] in Hrun.
  split; [exact Hrun|]. split; [done|]. split; [|split].
  - rewrite Hrun. cbn [snd settle fst].
    rewrite emitted_snoc_next, !emitted_app, emitted_builder_calls, Sa.
    done.
  - rewrite built_other by done. unfold descriptor, failure_descriptor.
    cbn [own_props]. by rewrite lookup_insert_eq.
  - intros k Hk. rewrite built_other by (intros ->; apply Hk; set_solver).
    unfold descriptor, failure_descriptor. cbn [own_props].
    rewrite lookup_insert_ne; [done|]. intros <-. apply Hk. set_solver.
Qed.

(** A transport call that fails: the run sends two events and no more, the
    request event and then the error event of the request descriptor,
    whose payload is a [RequestError] with the message of what the
    transport threw; the state is read again for it. The failure does not
    leave the middleware: the run returns what [next] returned for the
    second event (lines 143-153). *)
Theorem transport_failure_run (env : oracle) action i url init e :
  well_behaved env ->
  (run env action).2 !! i = Some (Fetch url init, Thrown e) ->
  nullish e = false ->
  let requestType :=
    (normalizeTypeDescriptors
       (get_field (get_field action CALL_API) "types")).1.1 in
  let message := get_field e "message" in
  let descriptor := error_descriptor requestType message in
  exists ha request v1 state meta v2,
    let report := built descriptor (RequestError message) meta in
    run env action
    = (Returned v2,
       (((ha ++ [(Next request, Returned v1); (Fetch url init, Thrown e)])
           ++ [(GetState, Returned state)])
          ++ builder_calls descriptor [action; state] (RequestError message)
               meta)
         ++ [(Next report, Returned v2)])
    /\ emitted ha = []
    /\ emitted (run env action).2 = [request; report]
    /\ get_field report "payload" = RequestError message
    /\ get_field report "error" = VBool true.
Proof.
  intros WB Hi Hn requestType message descriptor.
  destruct (run_at_transport env action i url init (Thrown e) Hi)
    as (pre & state & event & ha & v & opts & hdrs & rest & Hr).
  cbv zeta in Hr.
  destruct Hr as (_ & _ & _ & _ & _ & Sa & _ & _ & Hrun & _).
  fold requestType in Hrun.
  unfold fetch_catch, get_prop in Hrun. rewrite Hn, run_bind in Hrun.
  unfold ret at 1 in Hrun. cbv beta iota in Hrun. fold message in Hrun.
  destruct (request_error_run (A:=value) env
              ((ha ++ [(Next event, Returned v)])
                 ++ [(Fetch url init, Thrown e)])
              action requestType message WB)
    as (s2 & mv & v2 & E).
  cbv zeta in E. rewrite E in Hrun.
  exists ha, event, v, s2, mv, v2. cbv zeta.
  rewrite <- (app_assoc ha) in Hrun. cbn [app] in Hrun.
  split; [exact Hrun|]. split; [done|]. split; [|split].
  - rewrite Hrun. cbn [snd settle fst].
    rewrite emitted_snoc_next, !emitted_app, emitted_builder_calls, Sa.
    done.
  - apply built_payload.
  - rewrite built_other by done. unfold descriptor, error_descriptor.
    cbn [own_props]. by rewrite lookup_insert_eq.
Qed.

(** A transport that resolves to, or rejects with, [undefined] or [null]:
    reading [res.ok], or [e.message] in the catch block, fails. The run
    ends there in a [TypeError] that nothing catches, and the request
    event is the only event sent (lines 148 and 156). *)
Theorem nullish_transport_answer (env : oracle) action i url init o :
  (run env action).2 !! i = Some (Fetch url init, o) ->
  nullish (carried o) = true ->
  exists message ha request v,
    run env action
    = (Thrown (TypeError message),
       ha ++ [(Next request, Returned v); (Fetch url init, o)])
    /\ emitted ha = []
    /\ emitted (run env action).2 = [request].
Proof.
  intros Hi Hn.
  destruct (run_at_transport env action i url init o Hi)
    as (pre & state & event & ha & v & opts & hdrs & rest & Hr).
  cbv zeta in Hr.
  destruct Hr as (_ & _ & _ & _ & _ & Sa & _ & _ & Hrun & _).
  assert (E : exists message,
             run env action
             = (Thrown (TypeError message),
                ha ++ [(Next event, Returned v); (Fetch url init, o)])).
  { rewrite Hrun, <- (app_assoc ha). cbn [app].
    destruct o as [res|e]; simpl in Hn;
      unfold response_block, fetch_catch, get_prop; rewrite Hn;
      by eexists. }
  destruct E as [message E]. exists message, ha, event, v.
  split; [done|]. split; [done|]. rewrite E. cbn [snd].
  rewrite emitted_app, Sa. done.
Qed.

(** ** An invalid RSAA without call description *)

(** An RSAA that fails validation because its call description is
    [undefined] or [null] is not reported: reading [callAPI.types] fails,
    the run ends in a [TypeError] and nothing has been called (lines
    21-25). *)
Theorem invalid_rsaa_without_description (env : oracle) action :
  isRSAA action = true ->
  validateRSAA action <> [] ->
  nullish (get_field action CALL_API) = true ->
  exists message, run env action = (Thrown (TypeError message), []).
Proof.
  intros Hr Hv Hn. unfold run.
  destruct (apiMiddleware_cases env action)
    as [[? _]|[(_ & _ & E)|(_ & ? & _)]]; [congruence| |done].
  rewrite E. unfold report_invalid, get_prop.
  destruct (nullish action) eqn:Ha; [by eexists|].
  rewrite run_bind. unfold ret at 1. cbv beta iota. rewrite Hn. by eexists.
Qed.

(** ** How many events a run sends *)

Lemma emits_bind_split {A B} n0 n1 n (m : M A) (k : A -> M B) :
  (n0 + n1 <= n)%nat ->
  emits_at_most n m ->
  (forall env h a h', m env h = (Normal a, h') ->
     (length (emitted h') <= length (emitted h) + n0)%nat) ->
  (forall a, emits_at_most n1 (k a)) ->
  emits_at_most n (m ≫= k).
Proof.
  intros Hn Hm H0 Hk env h. rewrite run_bind.
  specialize (Hm env h). specialize (H0 env h).
  destruct (m env h) as [[a|v|e] h1]; [|done..].
  specialize (H0 a h1 eq_refl). specialize (Hk a env h1). lia.
Qed.

Lemma fetch_block_emits action rt endpoint options m b c headers :
  emits_at_most 1 (fetch_block action rt endpoint options m b c headers).
Proof.
  unfold fetch_block.
  apply (emits_try_catch 0 1); [|intros e; apply fetch_catch_emits].
  apply emits_quiet. silent.
Qed.

Lemma process_valid_emits action : emits_at_most 2 (process_valid action).
Proof.
  unfold process_valid.
  apply emits_bind_quiet; [silent|intros callAPI].
  apply emits_bind_quiet.
  { unfold require_object_coercible.
    destruct (nullish callAPI); [apply quiet_throw|apply quiet_ret]. }
  intros _.
  destruct (normalizeTypeDescriptors _) as [[rt st] ft].
  apply (emits_bind_split 0 2).
  { lia. }
  { eapply emits_weaken; [|apply bailout_block_emits]. lia. }
  { intros env h a h' E. apply bailout_block_normal in E. rewrite E. lia. }
  intros _. apply (emits_bind_split 0 2).
  { lia. }
  { eapply emits_weaken; [|apply endpoint_block_emits]. lia. }
  { intros env h a h' E. apply endpoint_block_normal in E as [E _].
    rewrite E. lia. }
  intros url. apply (emits_bind_split 0 2).
  { lia. }
  { apply cache_block_emits. }
  { intros env h a h' E. apply cache_block_normal in E as [E _].
    rewrite E. lia. }
  intros _. apply (emits_bind_split 0 2).
  { lia. }
  { eapply emits_weaken; [|apply headers_block_emits]. lia. }
  { intros env h a h' E. apply headers_block_normal in E as [E _].
    rewrite E. lia. }
  intros headers. apply (emits_bind_split 0 2).
  { lia. }
  { eapply emits_weaken; [|apply options_block_emits]. lia. }
  { intros env h a h' E. apply options_block_normal in E as [E _].
    rewrite E. lia. }
  intros options. apply (emits_bind_split 1 1).
  { lia. }
  { eapply emits_weaken; [|apply request_block_emits]. lia. }
  { intros env h a h' E. pose proof (request_block_emits action rt env h) as Q.
    rewrite E in Q. exact Q. }
  intros _. apply (emits_bind_split 0 1).
  { lia. }
  { apply fetch_block_emits. }
  { intros env h a h' E.
    pose proof (fetch_block_cases env h action rt url options
                  (get_field callAPI "method") (get_field callAPI "body")
                  (get_field callAPI "credentials") headers) as (o & _ & Ho).
    cbv zeta in Ho. rewrite E in Ho. destruct o as [res|e].
    - injection Ho as _ ->. unfold emitted. rewrite omap_snoc_none by done.
      lia.
    - by destruct (Ho a). }
  intros res. apply response_block_emits.
Qed.

(** Whatever the action is and whatever the collaborators do, a run hands
    [next] at most two events (lines 14-175). *)
Theorem at_most_two_events (env : oracle) action :
  (length (emitted (run env action).2) <= 2)%nat.
Proof.
  unfold run. rewrite settle_trace.
  destruct (apiMiddleware_cases env action)
    as [[_ E]|[(_ & _ & E)|(_ & _ & E)]]; rewrite E; clear E.
  - rewrite forwarded. cbn. lia.
  - pose proof (report_invalid_emits action (validateRSAA action) env []) as Q.
    simpl in Q. lia.
  - pose proof (process_valid_emits action env []) as Q. simpl in Q. lia.
Qed.

(** ** The cache hit whose event is refused *)

(** On a cache hit the call of [next] with the success event sits inside
    the [try] of the cache: when that call throws, the catch block takes
    the failure for one of the cache and goes on to send the error event
    "[CALL_API].cache API function failed: ..." with the message of what
    [next] threw, as the template literal turns it into text, through a
    second call of [next] (lines 80-96). *)
Theorem cache_hit_dispatch_failure (env : oracle) (h : trace) action
  requestType successType endpoint cache hit state cached event h2 e text
  h3 :
  truthy cache = true ->
  env h (Method cache "has" [endpoint]) = Returned hit ->
  truthy hit = true ->
  env (h ++ [(Method cache "has" [endpoint], Returned hit)]) GetState
  = Returned state ->
  env ((h ++ [(Method cache "has" [endpoint], Returned hit)])
         ++ [(GetState, Returned state)]) (Method cache "get" [endpoint])
  = Returned cached ->
  actionWith successType [action; state; fakeJsonResponse cached] env
    (h ++ hit_calls cache endpoint hit state cached) = (Normal event, h2) ->
  env h2 (Next event) = Thrown e ->
  nullish e = false ->
  template_text (get_field e "message") env (h2 ++ [(Next event, Thrown e)])
  = (Normal text, h3) ->
  cache_block action requestType successType endpoint cache env h
  = request_error action requestType
      (VStr ("[CALL_API].cache API function failed: " +:+ text)) env h3.
Proof.
  intros Hc Eh Hhit Es Eg Ea En Hn Ht.
  unfold cache_block. rewrite Hc. unfold try_catch, call_method, getState.
  rewrite run_bind, (run_perform_returned _ _ _ _ Eh). cbv beta iota.
  rewrite Hhit.
  rewrite run_bind, (run_perform_returned _ _ _ _ Es). cbv beta iota.
  rewrite run_bind, (run_perform_returned _ _ _ _ Eg). cbv beta iota.
  rewrite run_bind.
  replace (((h ++ [(Method cache "has" [endpoint], Returned hit)])
              ++ [(GetState, Returned state)])
             ++ [(Method cache "get" [endpoint], Returned cached)])
    with (h ++ hit_calls cache endpoint hit state cached)
    by (unfold hit_calls; by rewrite <- !app_assoc).
  rewrite Ea. cbv beta iota. unfold next.
  rewrite run_bind, (run_perform_thrown _ _ _ _ En). cbv beta iota.
  by apply cache_catch_message.
Qed.

(** ** What the callables and the transforms are applied to *)

Section Discipline.
Variables (fs : list value) (action : value).

Lemma disciplined_snoc seen (h : trace) c o :
  disciplined fs action seen h ->
  admissible fs action seen h c ->
  disciplined fs action seen (h ++ [(c, o)]).
Proof.
  intros (Hs & Ha & Hseen) Hc. split; [|split].
  - intros i f args o' Hi.
    apply lookup_snoc_Some in Hi as [[_ Hi]|[-> Heq]].
    + destruct (Hs _ _ _ _ Hi) as (? & ? & j & s & -> & Hj & ->).
      split; [done|]. split; [done|]. exists j, s.
      split; [done|]. split; [|done]. by apply lookup_app_l_Some.
    + injection Heq as -> ->.
      destruct Hc as (Hf & Hfun & s & Hlast & ->).
      split; [done|]. split; [done|].
      apply last_Some in Hlast as [h0 ->].
      exists (length h0), s.
      split; [by rewrite length_app, Nat.add_1_r|]. split; [|done].
      by apply lookup_app_l_Some, list_lookup_middle.
  - intros i f args o' Hi.
    apply lookup_snoc_Some in Hi as [[_ Hi]|[-> Heq]].
    + destruct (Ha _ _ _ _ Hi) as (j & s & rest & Hlt & Hj & -> & Hr).
      exists j, s, rest. split; [done|]. split; [|done].
      by apply lookup_app_l_Some.
    + injection Heq as -> ->. destruct Hc as (s & rest & Hin & -> & Hr).
      apply Hseen, list_elem_of_lookup_1 in Hin as [j Hj].
      exists j, s, rest. split; [by eapply lookup_lt_Some|].
      split; [|done]. by apply lookup_app_l_Some.
  - intros s Hin. apply elem_of_app. left. by apply Hseen.
Qed.

Lemma disciplined_seen seen (h : trace) s :
  disciplined fs action seen h ->
  disciplined fs action (s :: seen) (h ++ [(GetState, Returned s)]).
Proof.
  intros HJ.
  destruct (disciplined_snoc seen h GetState (Returned s) HJ I)
    as (Hs & Ha & Hseen).
  split; [done|]. split; [done|]. intros s' [->|Hin]%elem_of_cons.
  - apply elem_of_app. right. apply list_elem_of_singleton. done.
  - by apply Hseen.
Qed.

Lemma disciplined_forget seen (h : trace) s :
  disciplined fs action (s :: seen) h -> disciplined fs action seen h.
Proof.
  intros (Hs & Ha & Hseen). split; [done|]. split; [done|].
  intros s' Hin. apply Hseen. by apply elem_of_cons; right.
Qed.

Lemma keeps_ret {A} I (a : A) : keeps I (ret a).
Proof. by intros env h. Qed.

Lemma keeps_return {A} I v : keeps I (@return_ A v).
Proof. by intros env h. Qed.

Lemma keeps_throw {A} I e : keeps I (@throw A e).
Proof. by intros env h. Qed.

Lemma keeps_bind {A B} I (m : M A) (k : A -> M B) :
  keeps I m -> (forall a, keeps I (k a)) -> keeps I (m ≫= k).
Proof.
  intros Hm Hk env h Hh. rewrite run_bind. specialize (Hm env h Hh).
  destruct (m env h) as [[a|v|e] h1]; [|done..]. by apply Hk.
Qed.

Lemma keeps_ret_bind {A B} I (a : A) (k : A -> M B) :
  keeps I (k a) -> keeps I (ret a ≫= k).
Proof. intros Hk env h Hh. by apply Hk. Qed.

Lemma keeps_throw_bind {A B} I e (k : A -> M B) : keeps I (throw e ≫= k).
Proof. by intros env h. Qed.

Lemma keeps_try_catch {A} I (m : M A) handler :
  keeps I m -> (forall e, keeps I (handler e)) -> keeps I (try_catch m handler).
Proof.
  intros Hm Hk env h Hh. unfold try_catch. specialize (Hm env h Hh).
  destruct (m env h) as [[a|v|e] h1]; [done..|]. by apply Hk.
Qed.

Lemma keeps_get_prop_bind {B} I v k (m : value -> M B) :
  keeps I (m (get_field v k)) -> keeps I (get_prop v k ≫= m).
Proof.
  intros Hm. unfold get_prop.
  destruct (nullish v); [apply keeps_throw_bind|by apply keeps_ret_bind].
Qed.

(** A call that is neither a callable's nor a transform's. *)
Lemma keeps_plain seen c :
  (forall h, admissible fs action seen h c) ->
  keeps (disciplined fs action seen) (perform c).
Proof. intros Hc env h Hh. rewrite run_perform. by apply disciplined_snoc. Qed.

Lemma keeps_getState seen {B} (k : value -> M B) :
  (forall s, keeps (disciplined fs action (s :: seen)) (k s)) ->
  keeps (disciplined fs action seen) (getState ≫= k).
Proof.
  intros Hk env h Hh. unfold getState. rewrite run_bind, run_perform.
  destruct (env h GetState) as [s|e].
  - eapply disciplined_forget, Hk. by apply disciplined_seen.
  - by apply disciplined_snoc.
Qed.

(** [f(getState())] *)
Lemma keeps_call seen f {B} (k : value -> M B) :
  f ∈ fs -> is_function f = true ->
  (forall r, keeps (disciplined fs action seen) (k r)) ->
  keeps (disciplined fs action seen)
    (getState ≫= fun state => invoke f [state] ≫= k).
Proof.
  intros Hf Hfun Hk env h Hh. unfold getState, invoke.
  rewrite run_bind, run_perform.
  destruct (env h GetState) as [s|e]; [|by apply disciplined_snoc].
  rewrite run_bind, run_perform.
  set (h1 := h ++ [(GetState, Returned s)]).
  assert (H1 : disciplined fs action seen
                 (h1 ++ [(Invoke f [s], env h1 (Invoke f [s]))])).
  { apply disciplined_snoc; [by apply disciplined_snoc|].
    split; [done|]. split; [done|]. exists s. split; [|done].
    unfold h1. by rewrite last_snoc. }
  destruct (env h1 (Invoke f [s])) as [r|e]; [|done]. by apply Hk.
Qed.

Lemma keeps_call_last seen f :
  f ∈ fs -> is_function f = true ->
  keeps (disciplined fs action seen)
    (getState ≫= fun state => invoke f [state]).
Proof.
  intros Hf Hfun env h Hh.
  pose proof (keeps_call seen f ret Hf Hfun (fun r => keeps_ret _ r) env h Hh)
    as Q.
  revert Q. unfold getState, invoke. rewrite !run_bind, run_perform.
  destruct (env h GetState) as [s|e]; [|done].
  rewrite run_bind, run_perform.
  by destruct (env _ (Invoke f [s])).
Qed.

(** The event builder, called on the action and a state that was read. *)
Lemma keeps_actionWith seen d s rest :
  s ∈ seen -> (length rest <= 1)%nat ->
  keeps (disciplined fs action seen) (actionWith d (action :: s :: rest)).
Proof.
  intros Hs Hr. unfold actionWith, transform.
  assert (Ht : forall f,
             keeps (disciplined fs action seen)
               (perform (Transform f (action :: s :: rest)))).
  { intros f. apply keeps_plain. intros h. by exists s, rest. }
  apply keeps_bind; [destruct (is_function _); [apply Ht|apply keeps_ret]|].
  intros payload.
  apply keeps_bind; [destruct (is_function _); [apply Ht|apply keeps_ret]|].
  intros meta. apply keeps_ret.
Qed.

Lemma keeps_next seen a : keeps (disciplined fs action seen) (next a).
Proof. by apply keeps_plain. Qed.

Lemma keeps_request_error {A} seen rt message :
  keeps (disciplined fs action seen) (@request_error A action rt message).
Proof.
  unfold request_error. apply keeps_getState. intros s.
  apply keeps_bind;
    [apply (keeps_actionWith _ _ s []); [set_solver|simpl; lia]|].
  intros event. apply keeps_bind; [apply keeps_next|].
  intros v. apply keeps_return.
Qed.

Lemma keeps_try_method seen o name :
  keeps (disciplined fs action seen) (try_method o name).
Proof.
  unfold try_method, call_method.
  assert (Q : keeps (disciplined fs action seen)
                (r ← perform (Method o name []); ret (as_primitive r))).
  { apply keeps_bind; [by apply keeps_plain|intros r; apply keeps_ret]. }
  destruct (own_method o name) as [m|]; [|done].
  destruct (is_function m); [done|apply keeps_ret].
Qed.

Lemma keeps_template_text seen v :
  keeps (disciplined fs action seen) (template_text v).
Proof.
  unfold template_text. apply keeps_bind.
  - unfold to_primitive. destruct (as_primitive v); [apply keeps_ret|].
    apply keeps_bind; [apply keeps_try_method|].
    intros [q|]; [apply keeps_ret|].
    apply keeps_bind; [apply keeps_try_method|].
    intros [q|]; [apply keeps_ret|apply keeps_throw].
  - intros q. destruct (to_string q); [apply keeps_ret|apply keeps_throw].
Qed.

Lemma keeps_bailout_block seen rt bailout :
  bailout ∈ fs ->
  keeps (disciplined fs action seen) (bailout_block action rt bailout).
Proof.
  intros Hf. unfold bailout_block.
  apply keeps_try_catch; [|intros e; apply keeps_request_error].
  apply keeps_bind.
  - destruct (is_boolean bailout && truthy bailout); [apply keeps_ret|].
    destruct (is_function bailout) eqn:Hfun; [|apply keeps_ret].
    apply keeps_call; [done..|]. intros r. apply keeps_ret.
  - intros [|]; [apply keeps_return|apply keeps_ret].
Qed.

Lemma keeps_resolver seen rt f text :
  f ∈ fs ->
  keeps (disciplined fs action seen)
    (if is_function f
     then try_catch (state ← getState; invoke f [state])
            (fun e => request_error action rt (VStr text))
     else ret f).
Proof.
  intros Hf. destruct (is_function f) eqn:Hfun; [|apply keeps_ret].
  apply keeps_try_catch; [|intros e; apply keeps_request_error].
  by apply keeps_call_last.
Qed.

Lemma keeps_cache_block seen rt st endpoint cache :
  keeps (disciplined fs action seen)
    (cache_block action rt st endpoint cache).
Proof.
  unfold cache_block. destruct (truthy cache); [|apply keeps_ret].
  apply keeps_try_catch.
  - apply keeps_bind; [by apply keeps_plain|]. intros hit.
    destruct (truthy hit); [|apply keeps_ret].
    apply keeps_getState. intros s.
    apply keeps_bind; [by apply keeps_plain|]. intros cached.
    apply keeps_bind;
      [apply (keeps_actionWith _ _ s [_]); [set_solver|simpl; lia]|].
    intros event. apply keeps_bind; [apply keeps_next|].
    intros v. apply keeps_return.
  - intros e. unfold cache_catch. apply keeps_get_prop_bind.
    apply keeps_bind; [apply keeps_template_text|intros text].
    apply keeps_request_error.
Qed.

Lemma keeps_request_block seen rt :
  keeps (disciplined fs action seen) (request_block action rt).
Proof.
  unfold request_block. apply keeps_getState. intros s.
  apply keeps_bind;
    [apply (keeps_actionWith _ _ s []); [set_solver|simpl; lia]|].
  intros event. apply keeps_next.
Qed.

Lemma keeps_fetch_block seen rt endpoint options m b c headers :
  keeps (disciplined fs action seen)
    (fetch_block action rt endpoint options m b c headers).
Proof.
  unfold fetch_block. apply keeps_try_catch; [by apply keeps_plain|].
  intros e. unfold fetch_catch. apply keeps_get_prop_bind.
  apply keeps_request_error.
Qed.

(** In the [res.ok] branch the failing read of [action] comes before the
    event builder is called: no transform is applied there. *)
Lemma keeps_response_block seen st ft endpoint cache res :
  keeps (disciplined fs action seen)
    (response_block action st ft endpoint cache res).
Proof.
  unfold response_block. apply keeps_get_prop_bind.
  destruct (truthy _); [apply keeps_throw_bind|].
  apply keeps_getState. intros s.
  apply keeps_bind;
    [apply (keeps_actionWith _ _ s [_]); [set_solver|simpl; lia]|].
  intros event. apply keeps_bind; [apply keeps_next|].
  intros v. apply keeps_return.
Qed.

End Discipline.

Lemma keeps_process_valid action :
  keeps (disciplined (callables (get_field action CALL_API)) action [])
    (process_valid action).
Proof.
  unfold process_valid. apply keeps_get_prop_bind.
  set (callAPI := get_field action CALL_API).
  apply keeps_bind.
  { unfold require_object_coercible.
    destruct (nullish callAPI); [apply keeps_throw|apply keeps_ret]. }
  intros _. destruct (normalizeTypeDescriptors _) as [[rt st] ft].
  apply keeps_bind;
    [apply keeps_bailout_block; unfold callables; set_solver|intros _].
  apply keeps_bind;
    [apply keeps_resolver; unfold callables; set_solver|intros url].
  apply keeps_bind; [apply keeps_cache_block|intros _].
  apply keeps_bind;
    [apply keeps_resolver; unfold callables; set_solver|intros headers].
  apply keeps_bind;
    [apply keeps_resolver; unfold callables; set_solver|intros options].
  apply keeps_bind; [apply keeps_request_block|intros _].
  apply keeps_bind; [apply keeps_fetch_block|intros res].
  apply keeps_response_block.
Qed.

Lemma keeps_apiMiddleware action :
  keeps (disciplined (callables (get_field action CALL_API)) action [])
    (apiMiddleware action).
Proof.
  unfold apiMiddleware. destruct (negb (isRSAA action)).
  { apply keeps_bind; [apply keeps_next|]. intros v. apply keeps_return. }
  cbv zeta. destruct (negb _); [|apply keeps_process_valid].
  unfold report_invalid. apply keeps_get_prop_bind.
  apply keeps_get_prop_bind. apply keeps_bind; [|intros v; apply keeps_return].
  destruct (_ && _); [apply keeps_next|apply keeps_ret].
Qed.

Lemma run_disciplined (env : oracle) action :
  disciplined (callables (get_field action CALL_API)) action []
    (run env action).2.
Proof.
  unfold run. rewrite settle_trace. apply keeps_apiMiddleware.
  split; [|split]; [by intros i ???|by intros i ???|].
  by intros s ?%elem_of_nil.
Qed.

(** The only callables a run applies are the [bailout], [endpoint],
    [headers] and [options] of the call description, and only when they
    are functions; each is applied to one argument, the state returned by
    the [getState] call made just before (lines 45-76 and 99-129). *)
Theorem callables_get_the_state_just_read (env : oracle) action i f args o :
  (run env action).2 !! i = Some (Invoke f args, o) ->
  f ∈ callables (get_field action CALL_API)
  /\ is_function f = true
  /\ exists j s,
       i = S j
       /\ (run env action).2 !! j = Some (GetState, Returned s)
       /\ args = [s].
Proof.
  intros Hi. destruct (run_disciplined env action) as (Hs & _).
  exact (Hs i f args o Hi).
Qed.

(** Every payload or meta transform applied in a run gets the action the
    middleware was called with as its first argument and a state read
    earlier in the run as its second, followed by at most one more
    argument: no transform is ever applied to anything but the original
    action (lines 57, 72, 84, 93, 109, 125, 133, 150 and 171; line 157
    fails before the builder is called). *)
Theorem transforms_get_the_action (env : oracle) action i f args o :
  (run env action).2 !! i = Some (Transform f args, o) ->
  exists j s rest,
    (j < i)%nat
    /\ (run env action).2 !! j = Some (GetState, Returned s)
    /\ args = action :: s :: rest
    /\ (length rest <= 1)%nat.
Proof.
  intros Hi. destruct (run_disciplined env action) as (_ & Ha & _).
  exact (Ha i f args o Hi).
Qed.

(** ** The order of the stages *)

Lemma stage_normal (env : oracle) (h : trace) f v h' :
  (state ← getState; invoke f [state]) env h = (Normal v, h') ->
  exists s,
    h' = h ++ [(GetState, Returned s); (Invoke f [s], Returned v)].
Proof.
  unfold getState, invoke. rewrite run_bind, run_perform.
  destruct (env h GetState) as [s|e]; [|done].
  rewrite run_perform.
  destruct (env _ (Invoke f [s])) as [w|e]; [|done].
  intros [= <- <-]. exists s. by rewrite <- app_assoc.
Qed.

Lemma resolver_trace (env : oracle) (h : trace) action rt text raw v h' :
  (if is_function raw
   then try_catch (state ← getState; invoke raw [state])
          (fun e => request_error action rt (VStr text))
   else ret raw) env h = (Normal v, h') ->
  exists s,
    h' = h ++ stage_calls raw s v /\ (is_function raw = false -> v = raw).
Proof.
  unfold stage_calls. destruct (is_function raw).
  - intros E. apply try_catch_normal in E;
      [|intros; apply request_error_never_normal].
    apply stage_normal in E as [s ->]. by exists s.
  - intros [= <- <-]. exists VUndefined. by rewrite app_nil_r.
Qed.

Lemma bailout_block_trace (env : oracle) (h : trace) action rt bailout u h' :
  bailout_block action rt bailout env h = (Normal u, h') ->
  exists s r,
    h' = h ++ stage_calls bailout s r
    /\ (is_function bailout = true -> truthy r = false)
    /\ is_boolean bailout && truthy bailout = false.
Proof.
  unfold bailout_block, stage_calls. intros E. apply try_catch_normal in E;
    [|intros; apply request_error_never_normal].
  revert E. rewrite run_bind.
  destruct (is_boolean bailout && truthy bailout); [done|].
  destruct (is_function bailout).
  - unfold getState, invoke. rewrite !run_bind, run_perform.
    destruct (env h GetState) as [s|e]; [|done].
    rewrite run_bind, run_perform.
    destruct (env _ (Invoke bailout [s])) as [w|e]; [|done].
    unfold ret at 1; cbv beta iota.
    destruct (truthy w) eqn:Hw; [done|]. intros [= _ <-].
    exists s, w. by rewrite <- app_assoc.
  - unfold ret at 1; cbv beta iota. intros [= _ <-].
    exists VUndefined, VUndefined. by rewrite app_nil_r.
Qed.

Lemma cache_block_trace (env : oracle) (h : trace) action rt st endpoint
  cache u h' :
  cache_block action rt st endpoint cache env h = (Normal u, h') ->
  exists hit,
    h' = h ++ probe_calls cache endpoint hit
    /\ (truthy cache = true -> truthy hit = false).
Proof.
  unfold cache_block, probe_calls.
  destruct (truthy cache);
    [|intros [= _ <-]; exists VUndefined; by rewrite app_nil_r].
  intros E. apply try_catch_normal in E;
    [|intros; apply cache_catch_never_normal].
  revert E. unfold call_method. rewrite run_bind, run_perform.
  destruct (env h (Method cache "has" [endpoint])) as [hit|e]; [|done].
  destruct (truthy hit) eqn:Ehit.
  - rewrite run_bind. destruct (getState env _) as [[s|?|?] h1]; [|done..].
    rewrite run_bind. destruct (perform _ env h1) as [[c|?|?] h2]; [|done..].
    rewrite run_bind. destruct (actionWith _ _ env h2) as [[ev|?|?] h3];
      [|done..].
    rewrite run_bind. by destruct (next ev env h3) as [[v|?|?] h4].
  - intros [= _ <-]. by exists hit.
Qed.

Lemma actionWith_normal (env : oracle) (h : trace) d args event h' :
  actionWith d args env h = (Normal event, h') ->
  exists payload meta,
    event = built d payload meta
    /\ h' = h ++ builder_calls d args payload meta.
Proof.
  unfold actionWith, transform, builder_calls.
  destruct (is_function (get_field d "payload"));
    destruct (is_function (get_field d "meta")); rewrite !run_bind.
  - rewrite run_perform.
    destruct (env h (Transform _ args)) as [pv|e]; [|done].
    rewrite run_bind, run_perform.
    destruct (env _ (Transform _ args)) as [mv|e]; [|done].
    intros [= <- <-]. exists pv, mv. by rewrite <- app_assoc.
  - rewrite run_perform.
    destruct (env h (Transform _ args)) as [pv|e]; [|done].
    intros [= <- <-]. eexists pv, _. by rewrite app_nil_r.
  - unfold ret at 1; cbv beta iota. rewrite run_bind, run_perform.
    destruct (env h (Transform _ args)) as [mv|e]; [|done].
    intros [= <- <-]. by eexists _, mv.
  - intros [= <- <-]. eexists _, _. by rewrite app_nil_r.
Qed.

Lemma request_block_trace (env : oracle) (h : trace) action rt v h' :
  request_block action rt env h = (Normal v, h') ->
  exists state payload meta,
    h' = ((h ++ [(GetState, Returned state)])
            ++ builder_calls rt [action; state] payload meta)
           ++ [(Next (built rt payload meta), Returned v)].
Proof.
  intros E.
  apply request_block_normal in E
    as (state & event & ha & _ & Ea & _ & _ & _ & ->).
  apply actionWith_normal in Ea as (payload & meta & -> & ->).
  by exists state, payload, meta.
Qed.

Lemma stage_calls_silent f s r :
  fetched (stage_calls f s r) = [] /\ method_calls (stage_calls f s r) = []
  /\ emitted (stage_calls f s r) = [].
Proof. unfold stage_calls. by destruct (is_function f). Qed.

Lemma process_valid_stages (env : oracle) action c t :
  process_valid action env [] = (c, t) ->
  let callAPI := get_field action CALL_API in
  let cache := get_field callAPI "cache" in
  let types := normalizeTypeDescriptors (get_field callAPI "types") in
  fetched t = []
  \/ exists s1 r1 s2 url hit s4 hdrs s5 opts state payload meta v,
       let init :=
         fetch_init opts (get_field callAPI "method")
           (get_field callAPI "body") (get_field callAPI "credentials")
           hdrs in
       let h :=
         (((((((stage_calls (get_field callAPI "bailout") s1 r1
                  ++ stage_calls (get_field callAPI "endpoint") s2 url)
                 ++ probe_calls cache url hit)
                ++ stage_calls (get_field callAPI "headers") s4 hdrs)
               ++ stage_calls
                    (with_default (get_field callAPI "options") (VObj ∅))
                    s5 opts)
              ++ [(GetState, Returned state)])
             ++ builder_calls types.1.1 [action; state] payload meta)
            ++ [(Next (built types.1.1 payload meta), Returned v)]) in
       is_boolean (get_field callAPI "bailout")
       && truthy (get_field callAPI "bailout") = false
       /\ (is_function (get_field callAPI "bailout") = true ->
           truthy r1 = false)
       /\ (truthy cache = true -> truthy hit = false)
       /\ (is_function (get_field callAPI "endpoint") = false ->
           url = get_field callAPI "endpoint")
       /\ (is_function (get_field callAPI "headers") = false ->
           hdrs = get_field callAPI "headers")
       /\ (is_function (with_default (get_field callAPI "options") (VObj ∅))
           = false ->
           opts = with_default (get_field callAPI "options") (VObj ∅))
       /\ (c, t)
          = match env h (Fetch url init) with
            | Returned res =>
                response_block action types.1.2 types.2 url cache res env
                  (h ++ [(Fetch url init, Returned res)])
            | Thrown e =>
                fetch_catch action types.1.1 e env
                  (h ++ [(Fetch url init, Thrown e)])
            end.
Proof.
  intros R callAPI cache types. subst callAPI cache types. revert R.
  enter_pipeline; [by intros [= <- <-]; left..|].
  set (callAPI := get_field action CALL_API). cbn [fst snd].
  run_block (fun env h => bailout_block_quiet transport transport_remote_only
               action rt (get_field callAPI "bailout") env h) u1 h1 E1 Q1;
    [|by intros [= <- <-]; left..].
  apply bailout_block_trace in E1 as (s1 & r1 & E1 & Hb & Hbool).
  run_block (fun env h => endpoint_block_quiet transport transport_remote_only
               action rt (get_field callAPI "endpoint") env h) url h2 E2 Q2;
    [|intros [= <- <-]; left; unfold fetched; congruence..].
  apply resolver_trace in E2 as (s2 & E2 & Hurl).
  run_block (fun env h => cache_block_quiet_transport action rt st url
               (get_field callAPI "cache") env h) u3 h3 E3 Q3;
    [|intros [= <- <-]; left; unfold fetched; congruence..].
  apply cache_block_trace in E3 as (hit & E3 & Hhit).
  run_block (fun env h => headers_block_quiet transport transport_remote_only
               action rt (get_field callAPI "headers") env h) hdrs h4 E4 Q4;
    [|intros [= <- <-]; left; unfold fetched; congruence..].
  apply resolver_trace in E4 as (s4 & E4 & Hhdrs).
  run_block (fun env h => options_block_quiet transport transport_remote_only
               action rt
               (with_default (get_field callAPI "options") (VObj ∅)) env h)
    opts h5 E5 Q5;
    [|intros [= <- <-]; left; unfold fetched; congruence..].
  apply resolver_trace in E5 as (s5 & E5 & Hopts).
  run_block (fun env h => request_block_quiet transport transport_remote_only
               action rt env h) u6 h6 E6 Q6;
    [|intros [= <- <-]; left; unfold fetched; congruence..].
  apply request_block_trace in E6 as (state & payload & meta & E6).
  intros R. right.
  exists s1, r1, s2, url, hit, s4, hdrs, s5, opts, state, payload, meta, u6.
  cbv zeta. do 6 (split; [done|]).
  rewrite <- R. subst h6 h5 h4 h3 h2 h1. cbn [app].
  rewrite run_bind. unfold fetch_block, try_catch, fetch.
  rewrite run_perform.
  destruct (env _ (Fetch url _)) as [res|e]; [done|].
  destruct (fetch_catch _ _ _ _ _) as [[x|w|e'] h7] eqn:Ec; [|done..].
  by apply fetch_catch_never_normal in Ec.
Qed.

(** A run that gets to the transport has gone through the stages in this
    order, each of them once: the bailout, the endpoint, the cache probe,
    the headers, the options, the request event, the transport. A stage
    whose field is no callable makes no call; a callable has returned (and
    the bailout callable a falsy value, a bailout that is [true] having
    stopped the run); the cache, when there is one, is
    asked once, before the headers and options are resolved; the request
    event is handed to [next] just before the transport is called, and
    nothing that follows calls the transport or the cache (lines
    45-142). *)
Theorem stages_before_transport (env : oracle) action i url init o :
  (run env action).2 !! i = Some (Fetch url init, o) ->
  let callAPI := get_field action CALL_API in
  let cache := get_field callAPI "cache" in
  let requestType :=
    (normalizeTypeDescriptors (get_field callAPI "types")).1.1 in
  exists s1 r1 s2 hit s4 headers s5 options state payload meta v rest,
    (run env action).2
    = stage_calls (get_field callAPI "bailout") s1 r1
        ++ stage_calls (get_field callAPI "endpoint") s2 url
        ++ probe_calls cache url hit
        ++ stage_calls (get_field callAPI "headers") s4 headers
        ++ stage_calls (with_default (get_field callAPI "options") (VObj ∅))
             s5 options
        ++ [(GetState, Returned state)]
        ++ builder_calls requestType [action; state] payload meta
        ++ [(Next (built requestType payload meta), Returned v);
            (Fetch url init, o)]
        ++ rest
    /\ init
       = fetch_init options (get_field callAPI "method")
           (get_field callAPI "body") (get_field callAPI "credentials")
           headers
    /\ is_boolean (get_field callAPI "bailout")
       && truthy (get_field callAPI "bailout") = false
    /\ (is_function (get_field callAPI "bailout") = true ->
        truthy r1 = false)
    /\ (truthy cache = true -> truthy hit = false)
    /\ (is_function (get_field callAPI "endpoint") = false ->
        url = get_field callAPI "endpoint")
    /\ (is_function (get_field callAPI "headers") = false ->
        headers = get_field callAPI "headers")
    /\ (is_function (with_default (get_field callAPI "options") (VObj ∅))
        = false ->
        options = with_default (get_field callAPI "options") (VObj ∅))
    /\ fetched rest = []
    /\ method_calls rest = [].
Proof.
  intros Hi callAPI cache requestType.
  assert (Hin : (Fetch url init, o) ∈ fetched (run env action).2)
    by (eapply lookup_omap; [exact Hi|done]).
  revert Hin. unfold run. rewrite settle_trace.
  destruct (apiMiddleware_cases env action)
    as [[_ E]|[(_ & _ & E)|(_ & _ & E)]]; rewrite E; clear E.
  { rewrite forwarded. by intros ?%elem_of_nil. }
  { rewrite (report_invalid_quiet transport transport_remote_only).
    by intros ?%elem_of_nil. }
  destruct (process_valid action env []) as [c t] eqn:R. cbn [snd].
  destruct (process_valid_stages env action c t R)
    as [F|(s1 & r1 & s2 & url' & hit & s4 & hdrs & s5 & opts & state
           & payload & meta & v & Hn)].
  { rewrite F. by intros ?%elem_of_nil. }
  cbv zeta in Hn.
  destruct Hn as (Hbool & Hb & Hhit & Hurl & Hhdrs & Hopts & Hc).
  fold callAPI cache requestType in Hbool, Hb, Hhit, Hurl, Hhdrs, Hopts, Hc.
  set (init' := fetch_init opts _ _ _ hdrs) in *.
  match type of Hc with
  | context [env ?hh (Fetch url' init')] => set (h := hh) in *
  end.
  set (o' := env h (Fetch url' init')) in *.
  destruct (after_transport env h action requestType
              (normalizeTypeDescriptors (get_field callAPI "types")).1.2
              (normalizeTypeDescriptors (get_field callAPI "types")).2
              url' cache (Fetch url' init') o') as (rest & Et & Ft & Mt).
  assert (Ht : t = (h ++ [(Fetch url' init', o')]) ++ rest).
  { cbv zeta in Et. rewrite <- Et.
    change t with (c, t).2. rewrite Hc. by destruct o'. }
  assert (Fh : fetched h = []).
  { unfold h, fetched. rewrite !omap_app.
    rewrite !(proj1 (stage_calls_silent _ _ _)).
    rewrite (proj1 (proj2 (builder_calls_silent _ _ _ _))).
    unfold probe_calls. by destruct (truthy cache). }
  intros Hin. rewrite Ht in Hin. unfold fetched in Hin, Ft, Fh.
  rewrite !omap_app, Fh, Ft in Hin. simpl in Hin.
  apply list_elem_of_singleton in Hin. injection Hin as -> -> ->.
  exists s1, r1, s2, hit, s4, hdrs, s5, opts, state, payload, meta, v, rest.
  split; [|done].
  rewrite Ht. unfold h. rewrite <- !app_assoc. done.
Qed.

(** ** The stages of a cache hit *)

Lemma try_catch_perform {A} c (k : value -> M A) handler (env : oracle)
  (h : trace) :
  try_catch (x ← perform c; k x) handler env h
  = match env h c with
    | Returned v => try_catch (k v) handler env (h ++ [(c, Returned v)])
    | Thrown e => handler e env (h ++ [(c, Thrown e)])
    end.
Proof.
  unfold try_catch. rewrite run_bind, run_perform.
  by destruct (env h c).
Qed.

Lemma try_method_grows o name : grows (try_method o name).
Proof.
  unfold try_method, call_method.
  assert (G : grows (r ← perform (Method o name []); ret (as_primitive r)))
    by (apply grows_bind; [apply grows_perform|intros r; apply grows_ret]).
  destruct (own_method o name) as [m|]; [|done].
  destruct (is_function m); [done|apply grows_ret].
Qed.

Lemma template_text_grows v : grows (template_text v).
Proof.
  unfold template_text. apply grows_bind.
  - unfold to_primitive. destruct (as_primitive v); [apply grows_ret|].
    apply grows_bind; [apply try_method_grows|].
    intros [q|]; [apply grows_ret|].
    apply grows_bind; [apply try_method_grows|].
    intros [q|]; [apply grows_ret|apply grows_throw].
  - intros q. destruct (to_string q); [apply grows_ret|apply grows_throw].
Qed.

Lemma cache_catch_grows {A} action rt e : grows (@cache_catch A action rt e).
Proof.
  unfold cache_catch. apply grows_bind; [apply grows_get_prop|intros m].
  apply grows_bind; [apply template_text_grows|intros text]. grows_tac.
Qed.

Lemma invoked_coercion_blind : coercion_blind invoked.
Proof. by intros o name args r _. Qed.

Lemma cache_catch_quiet_invoked {A} action rt e :
  quiet invoked (@cache_catch A action rt e).
Proof.
  unfold cache_catch. apply quiet_bind; [apply quiet_get_prop|intros m].
  apply quiet_bind;
    [apply template_text_quiet, invoked_coercion_blind|intros text].
  quiet_tac I.
Qed.

(** What a computation adds to the history when it applies no callable,
    does not call the transport and asks nothing of the cache. *)
Lemma inner_tail {A} (m : M A) (env : oracle) (h : trace) :
  grows m -> quiet invoked m -> quiet transport m -> quiet asked m ->
  exists rest,
    (m env h).2 = h ++ rest
    /\ invocations rest = [] /\ fetched rest = [] /\ requests rest = [].
Proof.
  intros G Qi Qt Qo. destruct (G env h) as [rest E]. exists rest.
  specialize (Qi env h). specialize (Qt env h). specialize (Qo env h).
  rewrite E in Qi, Qt, Qo. split; [done|].
  split; [|split]; by eapply omap_tail_nil.
Qed.

Lemma cache_block_shape (env : oracle) (h : trace) action rt st endpoint
  cache :
  let r := cache_block action rt st endpoint cache env h in
  let has := Method cache "has" [endpoint] in
  (requests r.2 = requests h
   \/ exists o, requests r.2 = requests h ++ [(has, o)])
  \/ exists hit state o rest,
       r.2 = (h ++ [(has, Returned hit); (GetState, Returned state);
                    (Method cache "get" [endpoint], o)]) ++ rest
       /\ truthy hit = true
       /\ invocations rest = [] /\ fetched rest = [] /\ requests rest = []
       /\ forall u, r.1 <> Normal u.
Proof.
  intros r has. subst r has. unfold cache_block.
  destruct (truthy cache); [|by left; left].
  unfold call_method. rewrite try_catch_perform.
  destruct (env h (Method cache "has" [endpoint])) as [hit|e].
  2:{ left. right. exists (Thrown e).
      rewrite (cache_catch_quiet asked asked_remote_only _ _ _ asked_coercion_blind).
      unfold requests. by rewrite omap_app. }
  destruct (truthy hit) eqn:Hhit.
  2:{ left. right. exists (Returned hit). unfold try_catch, ret. cbn [snd].
      unfold requests. by rewrite omap_app. }
  unfold getState. rewrite try_catch_perform.
  set (h1 := h ++ [(Method cache "has" [endpoint], Returned hit)]).
  destruct (env h1 GetState) as [state|e].
  2:{ left. right. exists (Returned hit).
      rewrite (cache_catch_quiet asked asked_remote_only _ _ _ asked_coercion_blind).
      unfold h1, requests. rewrite omap_snoc_none by done.
      by rewrite omap_app. }
  rewrite try_catch_perform.
  set (h2 := h1 ++ [(GetState, Returned state)]).
  set (o := env h2 (Method cache "get" [endpoint])).
  right. exists hit, state, o.
  replace (h ++ [(Method cache "has" [endpoint], Returned hit);
                 (GetState, Returned state);
                 (Method cache "get" [endpoint], o)])
    with (h2 ++ [(Method cache "get" [endpoint], o)])
    by (unfold h2, h1; by rewrite <- !app_assoc).
  destruct o as [cached|e].
  - match goal with
    | |- context [try_catch ?m ?hd env ?h3] =>
        destruct (inner_tail (try_catch m hd) env h3) as (rest & E & Hr)
    end.
    + apply grows_try_catch; [grows_tac|intros e; apply cache_catch_grows].
    + apply quiet_try_catch;
        [quiet_tac I|intros e; apply cache_catch_quiet_invoked].
    + apply quiet_try_catch;
        [quiet_tac transport_remote_only
        |intros e; apply cache_catch_quiet;
      [apply transport_remote_only|apply transport_coercion_blind]].
    + apply quiet_try_catch;
        [quiet_tac asked_remote_only
        |intros e; apply cache_catch_quiet;
      [apply asked_remote_only|apply asked_coercion_blind]].
    + exists rest. split; [done|]. split; [done|].
      destruct Hr as (? & ? & ?). repeat (split; [done|]).
      intros u Hu.
      match goal with
      | _ : context [try_catch ?m ?hd env ?h3] |- _ =>
          destruct (try_catch m hd env h3) as [c' t'] eqn:Et
      end.
      simpl in Hu. subst c'. apply try_catch_normal in Et;
        [|intros; apply cache_catch_never_normal].
      revert Et. rewrite run_bind.
      destruct (actionWith _ _ env _) as [[ev|?|?] h4]; [|done..].
      rewrite run_bind. by destruct (next ev env h4) as [[v|?|?] h5].
  - destruct (inner_tail (@cache_catch unit action rt e) env
                (h2 ++ [(Method cache "get" [endpoint], Thrown e)]))
      as (rest & E & Hr).
    + apply cache_catch_grows.
    + apply cache_catch_quiet_invoked.
    + apply cache_catch_quiet;
      [apply transport_remote_only|apply transport_coercion_blind].
    + apply cache_catch_quiet;
      [apply asked_remote_only|apply asked_coercion_blind].
    + exists rest. split; [done|]. split; [done|].
      destruct Hr as (? & ? & ?). repeat (split; [done|]).
      intros u Hu.
      destruct (cache_catch _ _ _ _ _) as [c' t'] eqn:Et.
      simpl in Hu. subst c'. by apply cache_catch_never_normal in Et.
Qed.

Lemma requests_app h1 h2 : requests (h1 ++ h2) = requests h1 ++ requests h2.
Proof. unfold requests. by rewrite omap_app. Qed.

Lemma stage_calls_unasked f s r : requests (stage_calls f s r) = [].
Proof. unfold stage_calls. by destruct (is_function f). Qed.

Lemma process_valid_hit (env : oracle) action c t :
  process_valid action env [] = (c, t) ->
  let callAPI := get_field action CALL_API in
  let cache := get_field callAPI "cache" in
  (requests t = []
   \/ exists url o, requests t = [(Method cache "has" [url], o)])
  \/ exists s1 r1 s2 url hit state o rest,
       t = ((stage_calls (get_field callAPI "bailout") s1 r1
               ++ stage_calls (get_field callAPI "endpoint") s2 url)
              ++ [(Method cache "has" [url], Returned hit);
                  (GetState, Returned state);
                  (Method cache "get" [url], o)])
             ++ rest
       /\ is_boolean (get_field callAPI "bailout")
          && truthy (get_field callAPI "bailout") = false
       /\ (is_function (get_field callAPI "bailout") = true ->
           truthy r1 = false)
       /\ (is_function (get_field callAPI "endpoint") = false ->
           url = get_field callAPI "endpoint")
       /\ truthy hit = true
       /\ invocations rest = [] /\ fetched rest = [] /\ requests rest = [].
Proof.
  intros R callAPI cache. subst callAPI cache. revert R.
  enter_pipeline; [by intros [= <- <-]; left; left..|].
  set (callAPI := get_field action CALL_API). cbn [fst snd].
  run_block (fun env h => bailout_block_quiet asked asked_remote_only
               action rt (get_field callAPI "bailout") env h) u1 h1 E1 Q1;
    [|by intros [= <- <-]; left; left..].
  apply bailout_block_trace in E1 as (s1 & r1 & E1 & Hb & Hbool).
  run_block (fun env h => endpoint_block_quiet asked asked_remote_only
               action rt (get_field callAPI "endpoint") env h) url h2 E2 Q2;
    [|intros [= <- <-]; left; left; unfold requests; congruence..].
  apply resolver_trace in E2 as (s2 & E2 & Hurl).
  assert (M2 : requests h2 = []) by (unfold requests; congruence).
  rewrite run_bind.
  pose proof (cache_block_shape env h2 action rt st url
                (get_field callAPI "cache")) as S3.
  cbv zeta in S3.
  destruct (cache_block action rt st url (get_field callAPI "cache") env h2)
    as [c3 h3] eqn:E3.
  cbn [fst snd] in S3. rewrite M2 in S3. cbn [app] in S3.
  destruct S3 as [S3|(hit & state & o & rest & -> & Hhit & Hi & Hf & Hm & Hnn)].
  - assert (Hleft : requests h3 = []
                    \/ exists url o,
                         requests h3
                         = [(Method (get_field callAPI "cache") "has" [url],
                             o)]).
    { destruct S3 as [S3|[o S3]]; [by left|right; by exists url, o]. }
    destruct c3 as [u3|w|e]; [|by intros [= <- <-]; left..].
    match goal with
    | |- ?m env h3 = _ -> _ => assert (Qr : quiet asked m)
    end.
    { quiet_tac asked_remote_only. }
    intros R. specialize (Qr env h3). rewrite R in Qr. cbn [snd] in Qr.
    left. unfold requests in *. by rewrite Qr.
  - destruct c3 as [u3|w|e]; [by destruct (Hnn u3)|..];
      intros [= <- <-]; right;
      exists s1, r1, s2, url, hit, state, o, rest;
      (split; [by subst h2 h1|done]).
Qed.

(** A run that asks the cache for a value has gone through the bailout
    and the endpoint, has asked the cache whether it holds the url (the
    endpoint itself when that is no callable, else what the callable
    returned) and got a truthy answer, and has read the state before
    asking for the value under the same url.  Whether the cache then
    delivers or fails, the headers and options of the call description are
    never resolved (no callable is applied after the cache was asked), the
    transport is not called and nothing more is asked of the cache: the
    only method calls that can follow are the conversions of a thrown
    message to text (lines 45-97). *)
Theorem cache_hit_stages (env : oracle) action j c args o :
  (run env action).2 !! j = Some (Method c "get" args, o) ->
  let callAPI := get_field action CALL_API in
  let cache := get_field callAPI "cache" in
  exists s1 r1 s2 url hit state rest,
    c = cache /\ args = [url]
    /\ (run env action).2
       = stage_calls (get_field callAPI "bailout") s1 r1
           ++ stage_calls (get_field callAPI "endpoint") s2 url
           ++ [(Method cache "has" [url], Returned hit);
               (GetState, Returned state);
               (Method cache "get" [url], o)]
           ++ rest
    /\ is_boolean (get_field callAPI "bailout")
       && truthy (get_field callAPI "bailout") = false
    /\ (is_function (get_field callAPI "bailout") = true -> truthy r1 = false)
    /\ (is_function (get_field callAPI "endpoint") = false ->
        url = get_field callAPI "endpoint")
    /\ truthy hit = true
    /\ invocations rest = [] /\ fetched rest = [] /\ requests rest = [].
Proof.
  intros Hj callAPI cache.
  assert (Hin : (Method c "get" args, o) ∈ requests (run env action).2)
    by (eapply lookup_omap; [exact Hj|done]).
  revert Hin. unfold run. rewrite settle_trace.
  destruct (apiMiddleware_cases env action)
    as [[_ E]|[(_ & _ & E)|(_ & _ & E)]]; rewrite E; clear E.
  { rewrite forwarded. by intros ?%elem_of_nil. }
  { rewrite (report_invalid_quiet asked asked_remote_only).
    by intros ?%elem_of_nil. }
  destruct (process_valid action env []) as [c0 t] eqn:R. cbn [snd].
  destruct (process_valid_hit env action c0 t R)
    as [[M|(url & o' & M)]
       |(s1 & r1 & s2 & url & hit & state & o' & rest & -> & Hbool & Hb
         & Hurl & Hhit & Hi & Hf & Hm)].
  { rewrite M. by intros ?%elem_of_nil. }
  { rewrite M. by intros [=]%list_elem_of_singleton. }
  fold callAPI cache in Hbool, Hb, Hurl |- *.
  rewrite !requests_app, Hm, !stage_calls_unasked. cbn.
  intros [[=]|Hin]%elem_of_cons.
  apply list_elem_of_singleton in Hin. injection Hin as -> -> ->.
  exists s1, r1, s2, url, hit, state, rest.
  split; [done|]. split; [done|]. split; [by rewrite <- !app_assoc|done].
Qed.

(** ** A callable that throws *)

Lemma resolver_cases (env : oracle) (h : trace) action rt text raw :
  well_behaved env ->
  let r := (if is_function raw
            then try_catch (state ← getState; invoke raw [state])
                   (fun e => request_error action rt (VStr text))
            else ret raw) env h in
  (exists v s, r = (Normal v, h ++ stage_calls raw s v))
  \/ (exists s e state meta v,
        r = (Return v,
             h ++ failed_stage action rt text raw s e state meta v)).
Proof.
  intros WB r. subst r. unfold stage_calls.
  destruct (is_function raw).
  2:{ left. exists raw, VUndefined. by rewrite app_nil_r. }
  destruct (WB h) as ([s Es] & _ & _).
  destruct (env (h ++ [(GetState, Returned s)]) (Invoke raw [s]))
    as [v|e] eqn:Ev.
  - left. exists v, s. unfold try_catch, getState, invoke.
    rewrite run_bind, (run_perform_returned _ _ _ _ Es). cbv beta iota.
    rewrite (run_perform_returned _ _ _ _ Ev). by rewrite <- app_assoc.
  - right. rewrite (resolver_throws env h action rt raw s e text Es Ev).
    destruct (request_error_run (A:=value) env
                (h ++ [(GetState, Returned s)] ++ [(Invoke raw [s], Thrown e)])
                action rt (VStr text) WB) as (state & meta & v & E).
    exists s, e, state, meta, v. cbv zeta in E. rewrite E. f_equal.
    unfold failed_stage. by rewrite <- !app_assoc.
Qed.

Lemma bailout_cases (env : oracle) (h : trace) action rt bailout :
  well_behaved env ->
  let r := bailout_block action rt bailout env h in
  (exists s v, r = (Normal tt, h ++ stage_calls bailout s v))
  \/ (exists h',
        r = (Return VUndefined, h') /\ failed_calls h' = failed_calls h)
  \/ (exists s e state meta v,
        r = (Return v,
             h ++ failed_stage action rt "[CALL_API].bailout function failed"
                    bailout s e state meta v)).
Proof.
  intros WB r. subst r. unfold stage_calls.
  destruct (is_boolean bailout && truthy bailout) eqn:Hb.
  { right. left. exists h. split; [|done]. unfold bailout_block. by rewrite Hb. }
  destruct (is_function bailout) eqn:Hf.
  2:{ left. exists VUndefined, VUndefined. unfold bailout_block.
      by rewrite Hb, Hf, app_nil_r. }
  destruct (WB h) as ([s Es] & _ & _).
  destruct (env (h ++ [(GetState, Returned s)]) (Invoke bailout [s]))
    as [w|e] eqn:Ew.
  - destruct (truthy w) eqn:Hw.
    + right. left. eexists. split;
        [by apply (bailout_block_truthy env h action rt bailout s w)|].
      unfold failed_calls. rewrite !omap_app. simpl. by rewrite app_nil_r.
    + left. exists s, w. unfold bailout_block, try_catch, getState, invoke.
      rewrite Hb, Hf, !run_bind, (run_perform_returned _ _ _ _ Es).
      cbv beta iota.
      rewrite run_bind, (run_perform_returned _ _ _ _ Ew).
      unfold ret at 1. cbv beta iota. rewrite Hw. by rewrite <- app_assoc.
  - right. right.
    rewrite (bailout_block_throws env h action rt bailout s e Hf Es Ew).
    destruct (request_error_run (A:=unit) env
                (h ++ [(GetState, Returned s)]
                   ++ [(Invoke bailout [s], Thrown e)])
                action rt (VStr "[CALL_API].bailout function failed") WB)
      as (state & meta & v & E).
    exists s, e, state, meta, v. cbv zeta in E. rewrite E. f_equal.
    unfold failed_stage. by rewrite <- !app_assoc.
Qed.

Lemma stopper_coercion_blind : coercion_blind stopper.
Proof. by intros o name args r _. Qed.

Lemma cache_catch_quiet_stopper {A} action rt e :
  quiet stopper (@cache_catch A action rt e).
Proof.
  unfold cache_catch. apply quiet_bind; [apply quiet_get_prop|intros m].
  apply quiet_bind;
    [apply template_text_quiet, stopper_coercion_blind|intros text].
  quiet_tac I.
Qed.

Lemma cache_block_quiet_stopper action rt st endpoint cache :
  quiet stopper (cache_block action rt st endpoint cache).
Proof.
  unfold cache_block. apply quiet_if; [|apply quiet_ret].
  apply quiet_try_catch;
    [quiet_tac I|intros e; apply cache_catch_quiet_stopper].
Qed.

Lemma failed_stage_calls action rt text f s e state meta v :
  failed_calls (failed_stage action rt text f s e state meta v)
  = [(Invoke f [s], Thrown e)]
  /\ emitted (failed_stage action rt text f s e state meta v)
     = [built (error_descriptor rt (VStr text)) (RequestError (VStr text))
          meta]
  /\ fetched (failed_stage action rt text f s e state meta v) = [].
Proof.
  unfold failed_stage, failed_calls, emitted, fetched, builder_calls.
  cbv zeta. rewrite !omap_app.
  by destruct (is_function (get_field _ "payload")),
       (is_function (get_field _ "meta")).
Qed.

Lemma uneventful_nil : uneventful [].
Proof. done. Qed.

Lemma uneventful_app h1 h2 :
  uneventful h1 -> uneventful h2 -> uneventful (h1 ++ h2).
Proof.
  unfold uneventful, emitted, fetched, failed_calls.
  intros (E1 & F1 & S1) (E2 & F2 & S2).
  by rewrite !omap_app, E1, F1, S1, E2, F2, S2.
Qed.

Lemma uneventful_stage_calls f s r : uneventful (stage_calls f s r).
Proof. unfold stage_calls. by destruct (is_function f). Qed.

Lemma uneventful_probe_calls cache url hit :
  uneventful (probe_calls cache url hit).
Proof. unfold probe_calls. by destruct (truthy cache). Qed.

Lemma process_valid_failed_callable (env : oracle) action c t :
  well_behaved env ->
  process_valid action env [] = (c, t) ->
  let callAPI := get_field action CALL_API in
  let rt := (normalizeTypeDescriptors (get_field callAPI "types")).1.1 in
  failed_calls t = []
  \/ exists stage prefix s e state meta v,
       stage ∈ ["bailout"; "endpoint"; "headers"; "options"]
       /\ (c, t)
          = (Return v,
             prefix
               ++ failed_stage action rt
                    ("[CALL_API]." +:+ stage +:+ " function failed")
                    (stage_value callAPI stage) s e state meta v)
       /\ uneventful prefix.
Proof.
  intros WB R callAPI rt0. subst callAPI rt0. revert R.
  enter_pipeline; [by intros [= <- <-]; left..|].
  set (callAPI := get_field action CALL_API). cbn [fst snd].
  unfold endpoint_block, headers_block, options_block.
  rewrite run_bind.
  destruct (bailout_cases env [] action rt (get_field callAPI "bailout") WB)
    as [(s1 & r1 & E1)|[(h' & E1 & F1)|(s & e & state & meta & v & E1)]];
    cbv zeta in E1; rewrite E1.
  2:{ intros [= <- <-]. by left. }
  2:{ intros [= <- <-]. right.
      exists "bailout", [], s, e, state, meta, v.
      split; [set_solver|]. split; [done|]. apply uneventful_nil. }
  cbn [app]. set (h1 := stage_calls _ s1 r1).
  assert (U1 : uneventful h1) by apply uneventful_stage_calls.
  rewrite run_bind.
  destruct (resolver_cases env h1 action rt
              "[CALL_API].endpoint function failed"
              (get_field callAPI "endpoint") WB)
    as [(url & s2 & E2)|(s & e & state & meta & v & E2)];
    cbv zeta in E2; rewrite E2.
  2:{ intros [= <- <-]. right.
      exists "endpoint", h1, s, e, state, meta, v.
      split; [set_solver|]. by split. }
  set (h2 := h1 ++ stage_calls _ s2 url).
  assert (U2 : uneventful h2)
    by (apply uneventful_app; [done|apply uneventful_stage_calls]).
  rewrite run_bind.
  pose proof (cache_block_quiet_stopper action rt st url
                (get_field callAPI "cache") env h2) as Q3.
  destruct (cache_block action rt st url (get_field callAPI "cache") env h2)
    as [[u3|w|e] h3] eqn:E3; cbn [snd] in Q3;
    [|intros [= <- <-]; left; unfold failed_calls; rewrite Q3;
      apply U2..].
  apply cache_block_trace in E3 as (hit & -> & _). clear Q3.
  set (h3 := h2 ++ probe_calls _ url hit).
  assert (U3 : uneventful h3)
    by (apply uneventful_app; [done|apply uneventful_probe_calls]).
  rewrite run_bind.
  destruct (resolver_cases env h3 action rt
              "[CALL_API].headers function failed"
              (get_field callAPI "headers") WB)
    as [(hdrs & s4 & E4)|(s & e & state & meta & v & E4)];
    cbv zeta in E4; rewrite E4.
  2:{ intros [= <- <-]. right.
      exists "headers", h3, s, e, state, meta, v.
      split; [set_solver|]. by split. }
  set (h4 := h3 ++ stage_calls _ s4 hdrs).
  assert (U4 : uneventful h4)
    by (apply uneventful_app; [done|apply uneventful_stage_calls]).
  rewrite run_bind.
  destruct (resolver_cases env h4 action rt
              "[CALL_API].options function failed"
              (with_default (get_field callAPI "options") (VObj ∅)) WB)
    as [(opts & s5 & E5)|(s & e & state & meta & v & E5)];
    cbv zeta in E5; rewrite E5.
  2:{ intros [= <- <-]. right.
      exists "options", h4, s, e, state, meta, v.
      split; [set_solver|]. by split. }
  set (h5 := h4 ++ stage_calls _ s5 opts).
  assert (U5 : uneventful h5)
    by (apply uneventful_app; [done|apply uneventful_stage_calls]).
  match goal with
  | |- ?m env h5 = _ -> _ => assert (Qr : quiet stopper m)
  end.
  { quiet_tac I. }
  intros R. specialize (Qr env h5). rewrite R in Qr. cbn [snd] in Qr.
  left. unfold failed_calls. rewrite Qr. apply U5.
Qed.

(** With well-behaved collaborators, a callable of the call description
    that throws ends the run: the state is read again, the error event of
    the request descriptor is sent with the fixed text of the stage (what
    was thrown is dropped), and the run returns what [next] returned. That
    event is the only one of the run, the transport is never called, and
    all that came before were stages that went through (lines 45-76 and
    99-129). *)
Theorem callable_failure_run (env : oracle) action i f args e :
  well_behaved env ->
  (run env action).2 !! i = Some (Invoke f args, Thrown e) ->
  let callAPI := get_field action CALL_API in
  let requestType :=
    (normalizeTypeDescriptors (get_field callAPI "types")).1.1 in
  exists stage prefix s state meta v,
    let text := "[CALL_API]." +:+ stage +:+ " function failed" in
    let report :=
      built (error_descriptor requestType (VStr text))
        (RequestError (VStr text)) meta in
    stage ∈ ["bailout"; "endpoint"; "headers"; "options"]
    /\ f = stage_value callAPI stage
    /\ args = [s]
    /\ run env action
       = (Returned v,
          prefix ++ failed_stage action requestType text f s e state meta v)
    /\ uneventful prefix
    /\ emitted (run env action).2 = [report]
    /\ fetched (run env action).2 = [].
Proof.
  intros WB Hi callAPI requestType.
  assert (Hin : (Invoke f args, Thrown e) ∈ failed_calls (run env action).2)
    by (eapply lookup_omap; [exact Hi|done]).
  revert Hin. unfold run.
  destruct (apiMiddleware_cases env action)
    as [[_ E]|[(_ & _ & E)|(_ & _ & E)]]; rewrite E; clear E.
  { rewrite forwarded. by intros ?%elem_of_nil. }
  { assert (Q : quiet stopper
                  (report_invalid action (validateRSAA action)))
      by quiet_tac I.
    rewrite settle_trace. unfold failed_calls. rewrite Q.
    by intros ?%elem_of_nil. }
  destruct (process_valid action env []) as [c t] eqn:R.
  destruct (process_valid_failed_callable env action c t WB R)
    as [F|(stage & prefix & s & e' & state & meta & v & Hs & [= -> ->] & U)].
  { rewrite settle_trace. cbn [snd]. rewrite F. by intros ?%elem_of_nil. }
  fold callAPI requestType. rewrite settle_trace. cbn [snd].
  destruct (failed_stage_calls action requestType
              ("[CALL_API]." +:+ stage +:+ " function failed")
              (stage_value callAPI stage) s e' state meta v)
    as (Fs & Es & Ts).
  destruct U as (Ue & Uf & Us).
  unfold failed_calls in *. rewrite omap_app, Us, Fs. cbn [app].
  intros Hin. apply list_elem_of_singleton in Hin. injection Hin as -> -> ->.
  exists stage, prefix, s, state, meta, v. cbv zeta.
  split; [done|]. split; [done|]. split; [done|]. split; [done|].
  split; [done|]. unfold emitted, fetched in *.
  by rewrite !omap_app, Ue, Uf, Es, Ts.
Qed.

End Runs.

(** * The properties on sample runs *)
Import SpecModel Examples.

Lemma world_well_behaved s : well_behaved (world s).
Proof.
  intros h. split; [by eexists|]. split; [by eexists|].
  intros f args. by eexists.
Qed.

Lemma describing_well_behaved s : well_behaved (Scenarios.describing s).
Proof.
  intros h. split; [by eexists|]. split; [by eexists|].
  intros f args. by eexists.
Qed.

(** C1 (the code departs from it). The specification's example, a valid
    action without cache and a transport that answers ok: only the request
    event is sent, and the run ends in the [ReferenceError] of line 157
    instead of a success event. *)
Theorem ok_response_without_success_event :
  run (world online) get_x
  = (Thrown (ReferenceError "action"),
     [(GetState, Returned (obj []));
      (Next (obj [("type", VStr "REQ")]), Returned VUndefined);
      (Fetch (VStr "/x")
         (obj [("method", VStr "GET"); ("body", VUndefined);
               ("credentials", VUndefined); ("headers", obj [])]),
       Returned ok_response)])
  /\ emitted (run (world online) get_x).2 = [obj [("type", VStr "REQ")]].
Proof. split; vm_compute; reflexivity. Qed.

(** The same with a cache that holds nothing: the transport is the fourth
    call of the run. *)
Lemma ok_response_is_rejected_witness :
  (run (world online) cached_x).2 !! 3%nat
  = Some (Fetch (VStr "/x")
            (obj [("method", VStr "GET"); ("body", VUndefined);
                  ("credentials", VUndefined); ("headers", obj [])]),
          Returned ok_response)
  /\ truthy (get_field ok_response "ok") = true
  /\ (run (world online) cached_x).1 = Thrown (ReferenceError "action").
Proof.
  split; [by vm_compute|]. split; [by vm_compute|].
  apply (ok_response_is_rejected (world online) cached_x 3 (VStr "/x")
           (obj [("method", VStr "GET"); ("body", VUndefined);
                 ("credentials", VUndefined); ("headers", obj [])])
           ok_response); by vm_compute.
Defined.

(** C3 (what the code does instead). A cache hit sends the success event
    and nothing else: one event, not two, and no request event. *)
Lemma cache_hit_sends_one_event :
  validateRSAA cached_x = []
  /\ run (world cached) cached_x
     = (Returned VUndefined,
        [(Method a_cache "has" [VStr "/x"], Returned (VBool true));
         (GetState, Returned (obj []));
         (Method a_cache "get" [VStr "/x"], Returned (obj [("a", VNum 1)]));
         (Transform sourcePayload
            [cached_x; obj []; fakeJsonResponse (obj [("a", VNum 1)])],
          Returned (obj [("a", VNum 1)]));
         (Next (obj [("type", VStr "OK"); ("payload", obj [("a", VNum 1)])]),
          Returned VUndefined)])
  /\ length (emitted (run (world cached) cached_x).2) <> 2%nat.
Proof. repeat split; by vm_compute. Qed.

(** The cache holds [{ a: 1 }] for "/x". *)
Lemma cache_hit_single_event_witness :
  fetched (run (world cached) cached_x).2 = []
  /\ length (emitted (run (world cached) cached_x).2) = 1%nat.
Proof.
  destruct (cache_hit_single_event (world cached) cached_x 0 2 a_cache
              (VStr "/x") (VBool true) (obj [("a", VNum 1)])
              (world_well_behaved cached))
    as [F (pre & state & payload & meta & v & E & _)];
    [by vm_compute..|].
  split; [exact F|]. by rewrite E.
Defined.

(** C4 (what the code does instead). A first type descriptor that is
    malformed, or missing from the array, does not silence the report: the
    event goes out under the malformed value, or under [undefined]. *)
Lemma malformed_first_descriptor_is_reported :
  valid_descriptor (VNum 42) = false
  /\ validateRSAA bad_first_type = ["invalid request type descriptor"]
  /\ emitted (run (world online) bad_first_type).2
     = [invalid_event (VNum 42) ["invalid request type descriptor"]]
  /\ emitted (run (world online) bad_first_type).2 <> []
  /\ validateRSAA no_first_type = ["types must be an ordered triple"]
  /\ emitted (run (world online) no_first_type).2
     = [invalid_event VUndefined ["types must be an ordered triple"]]
  /\ emitted (run (world online) no_first_type).2 <> [].
Proof. repeat split; by vm_compute. Qed.

(** An array of types with a malformed first element, and no types at
    all. *)
Lemma invalid_rsaa_report_witness :
  (run (world online) bad_first_type).2
  = [(Next (invalid_event (VNum 42) ["invalid request type descriptor"]),
      Returned VUndefined)]
  /\ (run (world online) no_types).2 = [].
Proof.
  split.
  - etransitivity;
      [refine (proj1 (invalid_rsaa_report (world online) bad_first_type
                        _ _ _ _))|]; by vm_compute.
  - etransitivity;
      [refine (proj1 (invalid_rsaa_report (world online) no_types _ _ _ _))|];
      by vm_compute.
Defined.

(** C5 (what the code does instead). The endpoint function throws an
    error whose message is "boom"; the event that reports it does not
    mention "boom". *)
Lemma endpoint_failure_hides_the_cause :
  (run (world online) failing_endpoint).2 !! 1%nat
  = Some (Invoke (VFun "fails") [obj []], Thrown boom)
  /\ get_field boom "message" = VStr "boom"
  /\ emitted (run (world online) failing_endpoint).2
     = [obj [("type", VStr "REQ");
             ("payload",
              RequestError (VStr "[CALL_API].endpoint function failed"));
             ("error", VBool true)]]
  /\ String.index 0 "boom" "[CALL_API].endpoint function failed" = None.
Proof. repeat split; by vm_compute. Qed.

(** Each stage failing with the error [boom], whose message is "boom";
    the cache failing with a message that is the number 10^21, and with
    one that is an object with its own [toString]. *)
Lemma request_error_messages_witness :
  let requestType := obj [("type", VStr "REQ")] in
  let successType := obj [("type", VStr "OK")] in
  well_behaved (world offline)
  /\ sends_request_error
       (bailout_block get_x requestType (VFun "fails") (world offline) [])
       [] requestType (VStr "[CALL_API].bailout function failed")
  /\ sends_request_error
       (endpoint_block get_x requestType (VFun "fails") (world offline) [])
       [] requestType (VStr "[CALL_API].endpoint function failed")
  /\ sends_request_error
       (headers_block get_x requestType (VFun "fails") (world offline) [])
       [] requestType (VStr "[CALL_API].headers function failed")
  /\ sends_request_error
       (options_block get_x requestType (VFun "fails") (world offline) [])
       [] requestType (VStr "[CALL_API].options function failed")
  /\ sends_request_error
       (cache_block cached_x requestType successType (VStr "/x") a_cache
          (world offline) [])
       [] requestType (VStr "[CALL_API].cache API function failed: boom")
  /\ sends_request_error
       (cache_block cached_x requestType successType (VStr "/x") a_cache
          (world stale) [])
       [] requestType (VStr "[CALL_API].cache API function failed: boom")
  /\ sends_request_error
       (cache_block cached_x requestType successType (VStr "/x") a_cache
          (world Scenarios.numeric_failure) [])
       [] requestType (VStr "[CALL_API].cache API function failed: 1e+21")
  /\ sends_request_error
       (cache_block cached_x requestType successType (VStr "/x") a_cache
          (Scenarios.describing Scenarios.described_failure) [])
       [] requestType (VStr "[CALL_API].cache API function failed: custom")
  /\ sends_request_error
       (fetch_block get_x requestType (VStr "/x") (obj []) (VStr "GET")
          VUndefined VUndefined VUndefined (world offline) [])
       [] requestType (VStr "boom").
Proof.
  intros requestType successType.
  split; [apply world_well_behaved|].
  destruct (request_error_messages (world offline) [] get_x requestType
              (world_well_behaved offline))
    as (Hb & He & Hh & Ho & _ & _ & Hf).
  destruct (request_error_messages (world offline) [] cached_x requestType
              (world_well_behaved offline))
    as (_ & _ & _ & _ & Hc & _).
  destruct (request_error_messages (world stale) [] cached_x requestType
              (world_well_behaved stale))
    as (_ & _ & _ & _ & _ & Hg & _).
  destruct (request_error_messages (world Scenarios.numeric_failure) []
              cached_x requestType
              (world_well_behaved Scenarios.numeric_failure))
    as (_ & _ & _ & _ & Hn & _).
  destruct (request_error_messages
              (Scenarios.describing Scenarios.described_failure) []
              cached_x requestType
              (describing_well_behaved Scenarios.described_failure))
    as (_ & _ & _ & _ & Hd & _).
  repeat split.
  - apply (Hb (VFun "fails") (obj []) boom); by vm_compute.
  - apply (He (VFun "fails") (obj []) boom); by vm_compute.
  - apply (Hh (VFun "fails") (obj []) boom); by vm_compute.
  - apply (Ho (VFun "fails") (obj []) boom); by vm_compute.
  - apply (Hc successType (VStr "/x") a_cache boom "boom"
             [(Method a_cache "has" [VStr "/x"], Thrown boom)]);
      by vm_compute.
  - apply (Hg successType (VStr "/x") a_cache (VBool true) (obj []) boom
             "boom"
             [(Method a_cache "has" [VStr "/x"], Returned (VBool true));
              (GetState, Returned (obj []));
              (Method a_cache "get" [VStr "/x"], Thrown boom)]);
      by vm_compute.
  - apply (Hn successType (VStr "/x") a_cache
             (obj [("message", VNum (10 ^ 21))]) "1e+21"
             [(Method a_cache "has" [VStr "/x"],
               Thrown (obj [("message", VNum (10 ^ 21))]))]);
      by vm_compute.
  - apply (Hd successType (VStr "/x") a_cache
             (obj [("message", Scenarios.self_describing)]) "custom"
             [(Method a_cache "has" [VStr "/x"],
               Thrown (obj [("message", Scenarios.self_describing)]));
              (Method Scenarios.self_describing "toString" [],
               Returned (VStr "custom"))]);
      by vm_compute.
  - apply (Hf (VStr "/x") (obj []) (VStr "GET") VUndefined VUndefined
             VUndefined boom); by vm_compute.
Defined.

(** The run of the cache hit, cut at its [get]. *)
Lemma cache_protocol_witness :
  exists hit,
    (Method a_cache "has" [VStr "/x"], Returned hit)
      ∈ [(Method a_cache "has" [VStr "/x"], Returned (VBool true));
         (GetState, Returned (obj []))]
    /\ truthy hit = true.
Proof.
  apply (proj1 (cache_protocol (world cached) cached_x)
           [(Method a_cache "has" [VStr "/x"], Returned (VBool true));
            (GetState, Returned (obj []))]
           [(Transform sourcePayload
               [cached_x; obj []; fakeJsonResponse (obj [("a", VNum 1)])],
             Returned (obj [("a", VNum 1)]));
            (Next (obj [("type", VStr "OK");
                        ("payload", obj [("a", VNum 1)])]),
             Returned VUndefined)]
           a_cache [VStr "/x"] (Returned (obj [("a", VNum 1)]))).
  by vm_compute.
Defined.

(** [bailout: true], a bailout that returns [true], a bailout that
    throws. *)
Lemma bailout_stops_witness :
  run (world online) (bail (VBool true)) = (Returned VUndefined, [])
  /\ run (world online) (bail (VFun "yes"))
     = (Returned VUndefined,
        [(GetState, Returned (obj []));
         (Invoke (VFun "yes") [obj []], Returned (VBool true))])
  /\ exists event v,
       (run (world online) (bail (VFun "fails"))).1 = Returned v
       /\ emitted (run (world online) (bail (VFun "fails"))).2 = [event]
       /\ fetched (run (world online) (bail (VFun "fails"))).2 = []
       /\ get_field event "type" = VStr "REQ"
       /\ get_field event "payload"
          = RequestError (VStr "[CALL_API].bailout function failed")
       /\ get_field event "error" = VBool true.
Proof.
  split; [|split].
  - refine (proj1 (bailout_stops (world online) (bail (VBool true)) _ _) _);
      by vm_compute.
  - refine (proj1 (proj2 (bailout_stops (world online) (bail (VFun "yes"))
                            _ _))
              (obj []) (VBool true) _ _ _ _); by vm_compute.
  - refine (proj2 (proj2 (bailout_stops (world online) (bail (VFun "fails"))
                            _ _))
              (obj []) boom {["type" := VStr "REQ"]} _
              (world_well_behaved online) _ _ _); by vm_compute.
Defined.

(** An options bag that names [method], [body], [credentials] and
    [headers] itself: the call description wins for each of them, and the
    [mode] of the bag passes. *)
Lemma transport_arguments_witness :
  let bag := Scenarios.greedy_bag in
  let init :=
    fetch_init bag (VStr "GET") VUndefined VUndefined
      (obj [("accept", VStr "json")]) in
  validateRSAA Scenarios.overriding = []
  /\ (run (world online) Scenarios.overriding).2 !! 2%nat
     = Some (Fetch (VStr "/x") init, Returned ok_response)
  /\ get_field bag "method" = VStr "POST"
  /\ get_field init "method" = VStr "GET"
  /\ get_field bag "body" = VStr "theirs"
  /\ get_field init "body" = VUndefined
  /\ get_field bag "credentials" = VStr "include"
  /\ get_field init "credentials" = VUndefined
  /\ get_field init "headers" = obj [("accept", VStr "json")]
  /\ get_field init "mode" = VStr "cors".
Proof.
  intros bag init. split; [by vm_compute|]. split; [by vm_compute|].
  destruct (transport_arguments (world online) Scenarios.overriding 2
              (VStr "/x") init (Returned ok_response))
    as (options & headers & _ & Hbag & Hres & _ & Hm & Hb & Hc & Hh & Hk);
    [by vm_compute|].
  split; [by vm_compute|]. split; [rewrite Hm; by vm_compute|].
  split; [by vm_compute|]. split; [rewrite Hb; by vm_compute|].
  split; [by vm_compute|]. split; [rewrite Hc; by vm_compute|].
  split.
  - rewrite Hh. unfold resolved in Hres.
    change (is_function
              (get_field (get_field Scenarios.overriding CALL_API) "headers"))
      with false in Hres.
    rewrite Hres. by vm_compute.
  - rewrite (Hk "mode"); [rewrite Hbag; by vm_compute|].
    rewrite !not_elem_of_cons. repeat split; [done..|apply not_elem_of_nil].
Defined.

(** [{ type: "PING" }] goes through untouched. *)
Lemma non_rsaa_is_forwarded_witness :
  isRSAA ping = false
  /\ run (world online) ping
     = (Returned VUndefined, [(Next ping, Returned VUndefined)]).
Proof.
  split; [reflexivity|].
  apply (non_rsaa_is_forwarded (world online) ping). reflexivity.
Defined.

(** An invalid RSAA whose request descriptor has a meta transform: the
    transform is not applied to the [InvalidRSAA] event, and it is applied
    to the error event of a catch block. *)
Lemma invalid_event_is_raw_witness :
  validateRSAA no_endpoint = ["endpoint must be a string or callable"]
  /\ run (world online) no_endpoint
     = (Returned VUndefined,
        [(Next (invalid_event (VStr "REQ")
                  ["endpoint must be a string or callable"]),
          Returned VUndefined)])
  /\ applications (run (world online) no_endpoint).2 = []
  /\ exists state meta v h',
       @request_error value no_endpoint (VObj described) (VStr "failed")
         (world online) []
       = (Return v, h')
       /\ applications h'
          = [(Transform (VFun "stamp") [no_endpoint; state], Returned meta)].
Proof.
  split; [by vm_compute|]. split; [by vm_compute|].
  destruct (invalid_event_is_raw (world online) no_endpoint)
    as [[Ha _] [Hb _]];
    [by vm_compute|by vm_compute|apply world_well_behaved|].
  split; [exact Ha|].
  destruct (Hb [] (VObj described) (VStr "failed")) as (state & meta & v & E).
  eexists state, meta, v, _. split; [exact E|]. clear E. by vm_compute.
Defined.

(** * The network path on sample runs *)

Import Scenarios.

Lemma dynamic_world_well_behaved s : well_behaved (dynamic_world s).
Proof.
  intros h. split; [by eexists|]. split; [by eexists|].
  intros f args. by eexists.
Qed.

(** The url comes from the callable [url]; the [mode] of the options
    passes, their [method] does not. *)
Lemma transport_target_witness :
  (run (dynamic_world failing_server) dynamic).2 !! 6%nat
  = Some (Fetch (VStr "/y") dynamic_init, Returned server_error)
  /\ resolved (dynamic_world failing_server)
       (get_field (get_field dynamic CALL_API) "endpoint") (VStr "/y").
Proof.
  split; [by vm_compute|].
  refine (proj1 (transport_target (dynamic_world failing_server) dynamic 6
                   (VStr "/y") dynamic_init (Returned server_error) _)).
  by vm_compute.
Defined.

(** The failure descriptor of [dynamic] says [error: false]; the event
    sent for the response that is not ok says [error: true]. *)
Lemma failure_response_run_witness :
  exists request failure,
    emitted (run (dynamic_world failing_server) dynamic).2
    = [request; failure]
    /\ get_field failure "error" = VBool true.
Proof.
  destruct (failure_response_run (dynamic_world failing_server) dynamic 6
              (VStr "/y") dynamic_init server_error
              (dynamic_world_well_behaved failing_server))
    as (ha & request & v1 & state & payload & meta & v2 & _ & _ & Em & He & _);
    [by vm_compute..|].
  by eexists request, _.
Defined.

(** The transport cannot be reached. *)
Lemma transport_failure_run_witness :
  exists request report,
    emitted (run (world offline) get_x).2 = [request; report]
    /\ get_field report "payload" = RequestError (get_field boom "message").
Proof.
  destruct (transport_failure_run (world offline) get_x 2 (VStr "/x")
              (fetch_init (VObj ∅) (VStr "GET") VUndefined VUndefined
                 VUndefined)
              boom (world_well_behaved offline))
    as (ha & request & v1 & state & meta & v2 & _ & _ & Em & Hp & _);
    [by vm_compute..|].
  by eexists request, _.
Defined.

(** The transport rejects with [undefined]. *)
Lemma nullish_transport_answer_witness :
  exists message request,
    (run (world silent_rejection) get_x).1 = Thrown (TypeError message)
    /\ emitted (run (world silent_rejection) get_x).2 = [request].
Proof.
  destruct (nullish_transport_answer (world silent_rejection) get_x 2
              (VStr "/x")
              (fetch_init (VObj ∅) (VStr "GET") VUndefined VUndefined
                 VUndefined)
              (Thrown VUndefined))
    as (message & ha & request & v & E & _ & Em); [by vm_compute..|].
  exists message, request. by rewrite E in *.
Defined.

(** [{ [CALL_API]: null }] *)
Lemma invalid_rsaa_without_description_witness :
  isRSAA null_description = true
  /\ validateRSAA null_description <> []
  /\ exists message,
       run (world online) null_description = (Thrown (TypeError message), []).
Proof.
  split; [by vm_compute|]. split; [by vm_compute|].
  apply (invalid_rsaa_without_description (world online) null_description);
    by vm_compute.
Defined.

(** A [next] that refuses the success event of a cache hit: two events
    are handed to it, the success event and the report of a cache
    failure. *)
Lemma cache_hit_dispatch_failure_witness :
  let requestType := obj [("type", VStr "REQ")] in
  let successType := obj [("type", VStr "OK")] in
  emitted (cache_block cached_x requestType successType (VStr "/x") a_cache
             (stubborn cached) []).2
  = [successType;
     obj [("type", VStr "REQ");
          ("payload",
           RequestError (VStr "[CALL_API].cache API function failed: boom"));
          ("error", VBool true)]].
Proof.
  intros requestType successType.
  etransitivity;
    [refine (f_equal (fun r => emitted r.2)
               (cache_hit_dispatch_failure (stubborn cached) [] cached_x
                  requestType successType (VStr "/x") a_cache (VBool true)
                  (obj []) (obj [("a", VNum 1)]) successType
                  (hit_calls a_cache (VStr "/x") (VBool true) (obj [])
                     (obj [("a", VNum 1)]))
                  boom "boom"
                  (hit_calls a_cache (VStr "/x") (VBool true) (obj [])
                     (obj [("a", VNum 1)])
                     ++ [(Next successType, Thrown boom)])
                  _ _ _ _ _ _ _ _ _))|];
    by vm_compute.
Defined.

(** The callable [opts] of [dynamic] is applied to the state read just
    before. *)
Lemma callables_get_the_state_just_read_witness :
  (run (dynamic_world failing_server) dynamic).2 !! 3%nat
  = Some (Invoke (VFun "opts") [obj []], Returned dynamic_options)
  /\ VFun "opts" ∈ callables (get_field dynamic CALL_API).
Proof.
  split; [by vm_compute|].
  refine (proj1 (callables_get_the_state_just_read
                   (dynamic_world failing_server) dynamic 3 (VFun "opts")
                   [obj []] (Returned dynamic_options) _)).
  by vm_compute.
Defined.

(** The payload transform of the success event of a cache hit. *)
Lemma transforms_get_the_action_witness :
  exists j s rest,
    (j < 3)%nat
    /\ (run (world cached) cached_x).2 !! j = Some (GetState, Returned s)
    /\ [cached_x; obj []; fakeJsonResponse (obj [("a", VNum 1)])]
       = cached_x :: s :: rest
    /\ (length rest <= 1)%nat.
Proof.
  apply (transforms_get_the_action (world cached) cached_x 3 sourcePayload
           [cached_x; obj []; fakeJsonResponse (obj [("a", VNum 1)])]
           (Returned (obj [("a", VNum 1)]))).
  by vm_compute.
Defined.

(** The run of [dynamic]: endpoint, options, request event, transport. *)
Lemma stages_before_transport_witness :
  (run (dynamic_world failing_server) dynamic).2 !! 6%nat
  = Some (Fetch (VStr "/y") dynamic_init, Returned server_error)
  /\ fetched (run (dynamic_world failing_server) dynamic).2
     = [(Fetch (VStr "/y") dynamic_init, Returned server_error)]
  /\ method_calls (run (dynamic_world failing_server) dynamic).2 = [].
Proof.
  split; [by vm_compute|].
  destruct (stages_before_transport (dynamic_world failing_server) dynamic 6
              (VStr "/y") dynamic_init (Returned server_error))
    as (s1 & r1 & s2 & hit & s4 & hdrs & s5 & opts & state & payload & meta
        & v & rest & E & _ & _ & _ & _ & _ & _ & _ & Fr & Mr);
    [by vm_compute|].
  rewrite E. unfold fetched, method_calls in *. rewrite !omap_app, Fr, Mr.
  rewrite !(proj1 (stage_calls_silent _ _ _)).
  rewrite !(proj1 (proj2 (stage_calls_silent _ _ _))).
  rewrite (proj1 (proj2 (builder_calls_silent _ _ _ _))).
  rewrite (proj2 (proj2 (builder_calls_silent _ _ _ _))).
  split; by vm_compute.
Defined.

(** The cache says it has the value and fails to deliver it. *)
Lemma cache_hit_stages_witness :
  (run (world stale) cached_x).2 !! 2%nat
  = Some (Method a_cache "get" [VStr "/x"], Thrown boom)
  /\ fetched (run (world stale) cached_x).2 = []
  /\ invocations (run (world stale) cached_x).2 = [].
Proof.
  split; [by vm_compute|].
  destruct (cache_hit_stages (world stale) cached_x 2 a_cache [VStr "/x"]
              (Thrown boom))
    as (s1 & r1 & s2 & url & hit & state & rest & _ & _ & E & _ & _ & _ & _
        & Hi & Hf & _); [by vm_compute|].
  rewrite E. unfold fetched, invocations in *.
  rewrite !omap_app, Hi, Hf. split; by vm_compute.
Defined.

(** The endpoint function of [failing_endpoint] throws [boom]. *)
Lemma callable_failure_run_witness :
  (run (world online) failing_endpoint).2 !! 1%nat
  = Some (Invoke (VFun "fails") [obj []], Thrown boom)
  /\ exists report,
       emitted (run (world online) failing_endpoint).2 = [report]
       /\ fetched (run (world online) failing_endpoint).2 = [].
Proof.
  split; [by vm_compute|].
  destruct (callable_failure_run (world online) failing_endpoint 1
              (VFun "fails") [obj []] boom (world_well_behaved online))
    as (stage & prefix & s & state & meta & v & _ & _ & _ & _ & _ & Em & Ef);
    [by vm_compute|].
  by eexists.
Defined.
